(** * run.py: LaTeX build and reporting script

    A shallow embedding of [run.py]: the regular-expression scans of the
    Pattern Extractor ([count_equations_detailed],
    [count_figures_and_tables]), the Log Analyzer ([parse_warnings],
    [count_and_display_warnings]) and the Process Supervisor
    ([compile_main_tex], [signal_handler], [main]).

    - Python [str] values are lists of Unicode code points.
    - The part of Python's [re] module that the script uses is embedded as
      a pattern compiler and a backtracking matcher; each pattern below is
      the pattern text of the source, compiled by [re_compile].
    - The interpreter's Unicode database is written out for ASCII and for
      white space, and is a parameter elsewhere.
    - The file system, latexmk, Ghostscript and Ctrl+C are a [world] that
      the script reads; its globals, the child process and what it prints
      are a [state] that it threads; exceptions are outcomes.  Time is
      counted in whole seconds, and only the wait for latexmk takes any:
      Ctrl+C comes during that wait or not at all.
    - Printing is taken not to fail.  The status lines of the supervisor
      and of the summary are recorded in the trace; what the Log
      Analyzer displays about a log is a list of lines of its own, and
      the colours that [tprint] gives a message are a function on
      texts. *)

From Stdlib Require Import List NArith ZArith Ascii String Bool Arith Lia.
From Stdlib Require Import Sorted Permutation.
Import ListNotations.

(** ** Python strings *)

Definition char := N.
Definition str := list char.

(** An ASCII literal of the source as a [str]. *)
Definition u (s : string) : str := map N_of_ascii (list_ascii_of_string s).

Definition ch (a : ascii) : char := N_of_ascii a.

Definition str_eqb (a b : str) : bool :=
  if list_eq_dec N.eq_dec a b then true else false.

(** [c in s] for a one-character [c]. *)
Definition contains (c : char) (s : str) : bool := existsb (N.eqb c) s.

(** [Py_UNICODE_ISSPACE]: the characters [str.strip()] removes. *)
Definition isspace (c : char) : bool :=
  ((9 <=? c) && (c <=? 13) || (28 <=? c) && (c <=? 32) ||
   (c =? 133) || (c =? 160) || (c =? 5760) ||
   (8192 <=? c) && (c <=? 8202) || (c =? 8232) || (c =? 8233) ||
   (c =? 8239) || (c =? 8287) || (c =? 12288))%N.

Fixpoint lstrip (s : str) : str :=
  match s with
  | c :: t => if isspace c then lstrip t else s
  | [] => []
  end.

Definition rstrip (s : str) : str := rev (lstrip (rev s)).

(** [s.strip()] *)
Definition strip (s : str) : str := rstrip (lstrip s).

(** [s.split('\n')]: never empty, one more piece than there are newlines. *)
Fixpoint split_lines (s : str) : list str :=
  match s with
  | [] => [[]]
  | c :: t =>
      if (c =? 10)%N then [] :: split_lines t
      else match split_lines t with
           | l :: ls => (c :: l) :: ls
           | [] => [[c]]
           end
  end.

(** [enumerate(xs, start)] *)
Fixpoint enumerate {A} (start : nat) (xs : list A) : list (nat * A) :=
  match xs with
  | [] => []
  | x :: t => (start, x) :: enumerate (S start) t
  end.

(** [s[i:j]] for [0 <= i <= j]. *)
Definition slice (s : str) (i j : nat) : str := firstn (j - i) (skipn i s).

(** ** Regular expressions: syntax

    The subset of [re] syntax that the patterns of the script use.  The
    compiler answers [None] on anything outside it, and on what [re]
    itself rejects. *)

Inductive category := CatDigit | CatWord.

Inductive set_item :=
| SLit (c : char)
| SCat (k : category).

(** Matchers of exactly one character. *)
Inductive atom :=
| ALit (c : char)                          (* a literal character *)
| AAny                                     (* .                   *)
| ACat (k : category)                      (* \d \w               *)
| ASet (negate : bool) (items : list set_item).   (* [...] [^...] *)

Inductive regex :=
| REmpty
| RChar (a : atom)
| RRepeat (a : atom) (min : nat) (greedy : bool)  (* a* a+ a*? a+? *)
| ROpt (r : regex) (greedy : bool)                (* r? r??        *)
| RSeq (r1 r2 : regex)
| RAlt (r1 r2 : regex)                            (* r1|r2         *)
| RGroup (n : nat) (r : regex)                    (* (r), group n  *)
| RNotAhead (r : regex).                          (* (?!r)         *)

(** A compiled pattern: its syntax tree and its number of groups. *)
Record pattern := { re_ast : regex; re_groups : nat }.

(** ** Regular expressions: the pattern compiler *)

Definition is_ascii_digit (c : char) : bool := ((48 <=? c) && (c <=? 57))%N.
Definition is_ascii_upper (c : char) : bool := ((65 <=? c) && (c <=? 90))%N.
Definition is_ascii_lower (c : char) : bool := ((97 <=? c) && (c <=? 122))%N.
Definition is_ascii_letter (c : char) : bool :=
  is_ascii_upper c || is_ascii_lower c.

Definition is_char (a : ascii) (c : char) : bool := (c =? ch a)%N.

Fixpoint skip_digits (s : str) : str :=
  match s with
  | c :: t => if is_ascii_digit c then skip_digits t else s
  | [] => []
  end.

(** After a [{]: does a counted repetition [{m}], [{m,n}] follow?  If not,
    [re] takes the brace as a literal. *)
Definition counted_repeat_ahead (t : str) : bool :=
  match t with
  | [] => false
  | c :: _ =>
      if is_char "}" c then false
      else
        let t1 := skip_digits t in
        let t2 := match t1 with
                  | c1 :: t' => if is_char "," c1 then skip_digits t' else t1
                  | [] => []
                  end in
        match t2 with
        | c2 :: _ => is_char "}" c2
        | [] => false
        end
  end.

Definition category_of (e : char) : option category :=
  if is_char "d" e then Some CatDigit
  else if is_char "w" e then Some CatWord
  else None.

(** [\e] outside a set. *)
Definition parse_escape (e : char) : option atom :=
  match category_of e with
  | Some k => Some (ACat k)
  | None => if is_ascii_letter e || is_ascii_digit e then None
            else Some (ALit e)
  end.

(** [\e] inside a set. *)
Definition parse_set_escape (e : char) : option set_item :=
  match category_of e with
  | Some k => Some (SCat k)
  | None => if is_ascii_letter e || is_ascii_digit e then None
            else Some (SLit e)
  end.

(** The items of a set up to its closing bracket; a [-] that would build a
    range is refused. *)
Fixpoint parse_set (s : str) (first : bool) (acc : list set_item)
  : option (list set_item * str) :=
  match s with
  | [] => None
  | c :: t =>
      if is_char "]" c && negb first then Some (rev acc, t)
      else if is_char "\" c then
        match t with
        | e :: t' =>
            match parse_set_escape e with
            | Some it => parse_set t' false (it :: acc)
            | None => None
            end
        | [] => None
        end
      else if is_char "-" c && negb first then
        match t with
        | x :: _ => if is_char "]" x then parse_set t false (SLit c :: acc)
                    else None
        | [] => None
        end
      else
        match t with
        | x :: y :: _ =>
            if is_char "-" x && negb (is_char "]" y) then None
            else parse_set t false (SLit c :: acc)
        | _ => parse_set t false (SLit c :: acc)
        end
  end.

(** A quantifier after an item: [*], [+], [?], each optionally lazy.
    [*] and [+] are embedded for one-character items only. *)
Definition parse_quantifier (item : regex) (s : str) : option (regex * str) :=
  match s with
  | q :: t =>
      if is_char "*" q || is_char "+" q || is_char "?" q then
        let '(greedy, rest) :=
          match t with
          | l :: t' => if is_char "?" l then (false, t') else (true, t)
          | [] => (true, t)
          end in
        if is_char "?" q then Some (ROpt item greedy, rest)
        else match item with
             | RChar a =>
                 Some (RRepeat a (if is_char "+" q then 1 else 0) greedy, rest)
             | _ => None
             end
      else if is_char "{" q && counted_repeat_ahead t then None
      else Some (item, s)
  | [] => Some (item, s)
  end.

Inductive group_kind := Capturing | NonCapturing | NegLookahead.

(** What follows an opening parenthesis: [(?:], [(?!] or a plain group. *)
Definition parse_group_head (t : str) : option (group_kind * str) :=
  match t with
  | q :: t1 =>
      if is_char "?" q then
        match t1 with
        | k :: t2 => if is_char ":" k then Some (NonCapturing, t2)
                     else if is_char "!" k then Some (NegLookahead, t2)
                     else None
        | [] => None
        end
      else Some (Capturing, t)
  | [] => Some (Capturing, t)
  end.

Definition close_group (kind : group_kind) (n : nat) (r : regex) : regex :=
  match kind with
  | Capturing => RGroup n r
  | NonCapturing => r
  | NegLookahead => RNotAhead r
  end.

(** Alternations and sequences; [g] counts the groups opened so far.  The
    result carries the text that is left: empty, or starting at the [)]
    that closes the enclosing group. *)
Fixpoint parse_alt (fuel : nat) (s : str) (g : nat) {struct fuel}
  : option (regex * str * nat) :=
  match fuel with
  | 0 => None
  | S f =>
      match parse_seq f s g with
      | Some (r1, rest, g1) =>
          match rest with
          | c :: t =>
              if is_char "|" c then
                match parse_alt f t g1 with
                | Some (r2, rest', g2) => Some (RAlt r1 r2, rest', g2)
                | None => None
                end
              else Some (r1, rest, g1)
          | [] => Some (r1, rest, g1)
          end
      | None => None
      end
  end
with parse_seq (fuel : nat) (s : str) (g : nat) {struct fuel}
  : option (regex * str * nat) :=
  match fuel with
  | 0 => None
  | S f =>
      match s with
      | [] => Some (REmpty, [], g)
      | c :: t =>
          if is_char ")" c || is_char "|" c then Some (REmpty, s, g)
          else
            let item : option (regex * str * nat) :=
              if is_char "(" c then
                match parse_group_head t with
                | Some (kind, body) =>
                    let g0 := match kind with Capturing => S g | _ => g end in
                    match parse_alt f body g0 with
                    | Some (r, x :: rest, g') =>
                        if is_char ")" x
                        then Some (close_group kind (S g) r, rest, g')
                        else None
                    | _ => None
                    end
                | None => None
                end
              else if is_char "[" c then
                match t with
                | n :: t' =>
                    if is_char "^" n then
                      match parse_set t' true [] with
                      | Some (items, rest) =>
                          Some (RChar (ASet true items), rest, g)
                      | None => None
                      end
                    else
                      match parse_set t true [] with
                      | Some (items, rest) =>
                          Some (RChar (ASet false items), rest, g)
                      | None => None
                      end
                | [] => None
                end
              else if is_char "\" c then
                match t with
                | e :: t' =>
                    match parse_escape e with
                    | Some a => Some (RChar a, t', g)
                    | None => None
                    end
                | [] => None
                end
              else if is_char "." c then Some (RChar AAny, t, g)
              else if is_char "*" c || is_char "+" c || is_char "?" c then None
              else if is_char "{" c then
                if counted_repeat_ahead t then None
                else Some (RChar (ALit c), t, g)
              else if is_char "^" c || is_char "$" c then None
              else Some (RChar (ALit c), t, g) in
            match item with
            | Some (r, rest, g1) =>
                match parse_quantifier r rest with
                | Some (r', rest') =>
                    match parse_seq f rest' g1 with
                    | Some (r2, rest'', g2) => Some (RSeq r' r2, rest'', g2)
                    | None => None
                    end
                | None => None
                end
            | None => None
            end
      end
  end.

(** [re.compile(pattern)]; [None] is [re.error] (or syntax not embedded). *)
Definition re_compile (p : str) : option pattern :=
  match parse_alt (2 * List.length p + 2) p 0 with
  | Some (r, [], g) => Some {| re_ast := r; re_groups := g |}
  | _ => None
  end.

(** The value of an option known to be [Some]: a constant pattern of the
    source is [the (re_compile text)], which type-checks only if the text
    compiles. *)
Definition the {A} (o : option A)
  : match o with Some _ => A | None => unit end :=
  match o with
  | Some a => a
  | None => tt
  end.

(** [re.escape]: a backslash before each special character. *)
Definition re_special : str := u "()[]{}?*+-|^$\.&~# " ++ [9; 10; 13; 11; 12]%N.

Fixpoint re_escape (s : str) : str :=
  match s with
  | [] => []
  | c :: t => if contains c re_special then ch "\" :: c :: re_escape t
              else c :: re_escape t
  end.

(** ** Files *)

Definition is_some {A} (o : option A) : bool :=
  match o with Some _ => true | None => false end.

(** A file as the script finds it when it opens and reads it. *)
Inductive file_state :=
| Absent                      (* [exists()] is false            *)
| Unreadable                  (* [open()] or [read()] raises    *)
| Content (text : str).       (* the decoded text of the file   *)

(** One [.tex] file of the tree, as [open(...).read()] finds it. *)
Inductive source_file :=
| Unreadable_source
| Readable (content : str).

(** [list(Path('.').rglob('*.tex'))] and what reading each file gives. *)
Inductive source_tree :=
| GlobError                              (* the enumeration raised *)
| Files (tex_files : list source_file).

(** ** Process Supervisor *)

(** The exceptions the script distinguishes; [Exception] stands for any
    other subclass of Python's [Exception]. *)
Inductive exn :=
| TimeoutExpired
| KeyboardInterrupt
| SystemExit (code : nat)
| Exception.

(** What the script does to the outside, in order. *)
Inductive event :=
| Print (msg : string)         (* a status line, without its decoration *)
| PrintText (text : str)       (* [print] of a captured stream          *)
| Report (label : string) (values : list nat)   (* a line with numbers *)
| SpinnerStart
| SpinnerStop
| Launch                       (* [subprocess.Popen] of latexmk *)
| Terminate                    (* [terminate()] sent to the child *)
| Kill.                        (* [kill()] sent to the child      *)

(** The latexmk child process as the operating system sees it. *)
Inductive child_status :=
| Running
| Exited (returncode : Z)
| Terminated
| Killed.

Inductive handle := latexmk.

(** The module's globals [current_process] and [spinner] (with the
    [spinning] flag of the spinner object), the child process and the
    trace of events. *)
Record state := {
  current_process : option handle;
  spinner : option bool;
  child : option child_status;
  trace : list event
}.

Definition initial_state : state :=
  {| current_process := None; spinner := None; child := None; trace := [] |}.

(** What latexmk does when left alone: it exits, and what it wrote to its
    two pipes is text in the encoding of the locale; or it exits, and what
    it wrote is not; or it never exits. *)
Inductive behaviour :=
| Finishes (seconds : N) (returncode : Z) (stdout stderr : str)
| Garbles (seconds : N) (returncode : Z)
| Hangs.

(** What [subprocess.run] of Ghostscript gives: [FileNotFoundError],
    [CalledProcessError], a run that exits with code zero (and the size of
    the file it wrote, if it wrote one), or another exception (the program
    cannot be executed, or what it printed is not text in the encoding of
    the locale). *)
Inductive gs_result :=
| GsNotFound
| GsFails
| GsSucceeds (output_size : option N)
| GsRaises.

(** Everything outside the script that one run depends on.  The wait for
    latexmk is the one step of the script that has a duration here, and
    Ctrl+C is placed on its clock: [sigint_after] is [None] in a run
    without Ctrl+C, and [Some t] with [t] before the end of the wait when
    Ctrl+C comes during the wait; a later [t] is a Ctrl+C that finds the
    script ended. *)
Record world := {
  main_tex_exists : bool;
  mkdir_ok : bool;                 (* [output_dir.mkdir(exist_ok=True)] *)
  latexmk_found : bool;
  latexmk_run : behaviour;
  sigint_after : option N;         (* Ctrl+C, seconds after the launch *)
  exits_on_terminate : bool;       (* within the 5 s grace period      *)
  pdf_size : option N;             (* [output/main.pdf], if it exists  *)
  tree : source_tree;
  log_file : file_state;
  gs : gs_result
}.

Definition pdf_exists (w : world) : bool := is_some (pdf_size w).

Inductive outcome (A : Type) :=
| Returns (a : A)
| Raises (e : exn).
Arguments Returns {A} a.
Arguments Raises {A} e.

(** Stateful code that may raise. *)
Definition M (A : Type) := state -> outcome A * state.

Definition ret {A} (a : A) : M A := fun s => (Returns a, s).

Definition bind {A B} (m : M A) (f : A -> M B) : M B :=
  fun s => match m s with
           | (Returns a, s1) => f a s1
           | (Raises e, s1) => (Raises e, s1)
           end.

Definition raise {A} (e : exn) : M A := fun s => (Raises e, s).

Notation "x <- m ;; k" := (bind m (fun x => k))
  (at level 61, m at next level, right associativity).
Notation "m ;; k" := (bind m (fun _ => k))
  (at level 61, right associativity).

(** [try: body finally: cleanup] *)
Definition try_finally {A} (body : M A) (cleanup : M unit) : M A :=
  fun s => match body s with
           | (r, s1) => match cleanup s1 with
                        | (Returns _, s2) => (r, s2)
                        | (Raises e, s2) => (Raises e, s2)
                        end
           end.

(** [try: body except ...]: [handler e] is the clause that catches [e]. *)
Definition try_except {A} (body : M A) (handler : exn -> option (M A)) : M A :=
  fun s => match body s with
           | (Returns a, s1) => (Returns a, s1)
           | (Raises e, s1) => match handler e with
                               | Some h => h s1
                               | None => (Raises e, s1)
                               end
           end.

Definition emit (e : event) : M unit :=
  fun s => (Returns tt,
            {| current_process := current_process s; spinner := spinner s;
               child := child s; trace := trace s ++ [e] |}).

Definition tprint (msg : string) : M unit := emit (Print msg).

Definition get_current_process : M (option handle) :=
  fun s => (Returns (current_process s), s).

Definition set_current_process (h : option handle) : M unit :=
  fun s => (Returns tt,
            {| current_process := h; spinner := spinner s;
               child := child s; trace := trace s |}).

Definition get_spinner : M (option bool) := fun s => (Returns (spinner s), s).

Definition set_spinner (sp : option bool) : M unit :=
  fun s => (Returns tt,
            {| current_process := current_process s; spinner := sp;
               child := child s; trace := trace s |}).

Definition set_child (st : child_status) : M unit :=
  fun s => (Returns tt,
            {| current_process := current_process s; spinner := spinner s;
               child := Some st; trace := trace s |}).

(** [spinner = CompilationSpinner(); spinner.start(...)] *)
Definition spinner_start : M unit :=
  set_spinner (Some true) ;; emit SpinnerStart.

(** [if spinner: spinner.stop()] *)
Definition spinner_stop : M unit :=
  sp <- get_spinner ;;
  match sp with
  | Some _ => set_spinner (Some false) ;; emit SpinnerStop
  | None => ret tt
  end.

(** [process.kill()] *)
Definition kill : M unit := set_child Killed ;; emit Kill.

(** [signal_handler]: what Ctrl+C runs; it leaves through [sys.exit(130)]. *)
Definition signal_handler {A} (w : world) : M A :=
  tprint "Received interrupt signal (Ctrl+C)" ;;
  spinner_stop ;;
  cp <- get_current_process ;;
  match cp with
  | Some _ =>
      tprint "Terminating compilation process..." ;;
      emit Terminate ;;
      if exits_on_terminate w then
        set_child Terminated ;; tprint "Process terminated gracefully"
      else
        tprint "Process didn't terminate gracefully, forcing kill..." ;;
        kill ;; tprint "Process killed"
  | None => ret tt
  end ;;
  tprint "Compilation cancelled by user" ;;
  raise (SystemExit 130).

(** The bound of [communicate(timeout=6000)], in seconds. *)
Definition timeout : N := 6000.

Definition interrupted_before (w : world) (seconds : N) : bool :=
  match sigint_after w with
  | Some t => (t <? seconds)%N
  | None => false
  end.

(** [current_process.communicate(timeout=6000)]: the return code and the
    captured streams, [TimeoutExpired] once the bound is exceeded (the
    child is left running), or the signal handler if Ctrl+C comes first.
    The pipes were opened with [text=True]: once the child has exited,
    what it wrote is decoded, strictly, and [UnicodeDecodeError] is raised
    if it is not text. *)
Definition communicate (w : world) : M (Z * str * str) :=
  match latexmk_run w with
  | Finishes seconds returncode stdout stderr =>
      if (seconds <=? timeout)%N then
        if interrupted_before w seconds then signal_handler w
        else set_child (Exited returncode) ;; ret (returncode, stdout, stderr)
      else
        if interrupted_before w timeout then signal_handler w
        else raise TimeoutExpired
  | Garbles seconds returncode =>
      if (seconds <=? timeout)%N then
        if interrupted_before w seconds then signal_handler w
        else set_child (Exited returncode) ;; raise Exception
      else
        if interrupted_before w timeout then signal_handler w
        else raise TimeoutExpired
  | Hangs =>
      if interrupted_before w timeout then signal_handler w
      else raise TimeoutExpired
  end.

(** [current_process = subprocess.Popen([...])] *)
Definition popen (w : world) : M unit :=
  if latexmk_found w then
    set_child Running ;; emit Launch ;; set_current_process (Some latexmk)
  else raise Exception.

(** [compile_main_tex()] *)
Definition compile_main_tex (w : world) : M bool :=
  try_except
    (if negb (main_tex_exists w) then
       tprint "main.tex not found in current directory" ;; ret false
     else
       (if mkdir_ok w then ret tt else raise Exception) ;;
       tprint "Starting compilation of main.tex..." ;;
       tprint "Press Ctrl+C to cancel compilation at any time" ;;
       spinner_start ;;
       result <- try_finally
                   (popen w ;; communicate w)
                   (spinner_stop ;; set_current_process None) ;;
       let '(returncode, _, stderr) := result in
       if (returncode =? 0)%Z then
         tprint "Successfully compiled main.tex" ;;
         if pdf_exists w then
           tprint "PDF created: output/main.pdf" ;; ret true
         else
           tprint "PDF file not found in output directory" ;; ret true
       else
         tprint "Failed to compile main.tex" ;;
         match stderr with
         | _ :: _ => tprint "Error output:" ;; emit (PrintText stderr)
         | [] => ret tt
         end ;;
         ret false)
    (fun e =>
       match e with
       | TimeoutExpired =>
           Some (cp <- get_current_process ;;
                 match cp with
                 | Some _ => kill
                 | None => ret tt
                 end ;;
                 tprint "Timeout compiling main.tex" ;;
                 ret false)
       | KeyboardInterrupt =>
           Some (tprint "Compilation interrupted" ;; ret false)
       | Exception =>
           Some (tprint "Exception compiling main.tex" ;; ret false)
       | SystemExit _ => None
       end).

(** [convert_to_pdfa()].  Its [except] clauses catch [CalledProcessError]
    and [FileNotFoundError]; another exception of [subprocess.run] leaves
    the function, and so does the division of the size ratio by the size
    of an empty input.  The caveat it prints about a size increase
    compares floating-point numbers and is not recorded. *)
Definition convert_to_pdfa (w : world) : M bool :=
  match pdf_size w with
  | None => tprint "Input PDF not found: output/main.pdf" ;; ret false
  | Some original_size =>
      tprint "Starting PDF/A-3b conversion" ;;
      match gs w with
      | GsNotFound => tprint "Tool not found" ;; ret false
      | GsFails => tprint "Conversion failed" ;; ret false
      | GsSucceeds None => tprint "Output file not created" ;; ret false
      | GsSucceeds (Some final_size) =>
          if (original_size =? 0)%N then raise Exception
          else tprint "Conversion complete" ;; ret true
      | GsRaises => raise Exception
      end
  end.

(** A world in which latexmk never finishes. *)
Definition hanging_world : world :=
  {| main_tex_exists := true; mkdir_ok := true; latexmk_found := true;
     latexmk_run := Hangs; sigint_after := None; exits_on_terminate := true;
     pdf_size := None; tree := Files []; log_file := Absent;
     gs := GsNotFound |}.

(** A world in which latexmk exits with code zero after a minute and has
    written no PDF. *)
Definition quick_world : world :=
  {| main_tex_exists := true; mkdir_ok := true; latexmk_found := true;
     latexmk_run := Finishes 60 0 [] []; sigint_after := None;
     exits_on_terminate := true; pdf_size := None; tree := Files [];
     log_file := Absent; gs := GsNotFound |}.


(** ** Regular expressions: the matcher *)

(** A Unicode database in which no character outside ASCII is cased,
    alphanumeric or a digit; the concrete runs below use it, on ASCII
    texts, where the database is never consulted. *)
Definition uncased (c : char) : char := c.
Definition unclassified (c : char) : bool := false.

Section Unicode.

(** The interpreter's Unicode database outside ASCII: case mappings and the
    alphanumeric and decimal-digit classes.  Every definition and theorem
    of this section holds for whatever these tables are. *)
Variable unicode_tolower unicode_toupper : char -> char.
Variable unicode_isalnum unicode_isdecimal : char -> bool.

Definition tolower (c : char) : char :=
  if (c <? 128)%N then (if is_ascii_upper c then c + 32 else c)%N
  else unicode_tolower c.

Definition toupper (c : char) : char :=
  if (c <? 128)%N then (if is_ascii_lower c then c - 32 else c)%N
  else unicode_toupper c.

Definition isalnum (c : char) : bool :=
  if (c <? 128)%N then is_ascii_letter c || is_ascii_digit c
  else unicode_isalnum c.

Definition isdecimal (c : char) : bool :=
  if (c <? 128)%N then is_ascii_digit c else unicode_isdecimal c.

(** [_sre.unicode_iscased] *)
Definition iscased (c : char) : bool :=
  negb (c =? tolower c)%N || negb (c =? toupper c)%N.

(** [sre_compile._equivalences]: characters that share a lower case although
    [tolower] keeps them apart. *)
Definition equivalences : list (list char) :=
  [ [0x69; 0x131]; [0x73; 0x17f]; [0xb5; 0x3bc]; [0x345; 0x3b9; 0x1fbe];
    [0x390; 0x1fd3]; [0x3b0; 0x1fe3]; [0x3b2; 0x3d0]; [0x3b5; 0x3f5];
    [0x3b8; 0x3d1]; [0x3ba; 0x3f0]; [0x3c0; 0x3d6]; [0x3c1; 0x3f1];
    [0x3c2; 0x3c3]; [0x3c6; 0x3d5]; [0x1e61; 0x1e9b]; [0xfb05; 0xfb06] ]%N.

Definition fixes (lo : char) : list char :=
  flat_map (fun t => if contains lo t
                     then filter (fun j => negb (j =? lo)%N) t else [])
           equivalences.

(** The flags the script passes: [re.IGNORECASE], [re.DOTALL] or none. *)
Record flags := { ignorecase : bool; dotall : bool }.

Definition no_flags := {| ignorecase := false; dotall := false |}.
Definition IGNORECASE := {| ignorecase := true; dotall := false |}.
Definition DOTALL := {| ignorecase := false; dotall := true |}.

Definition category_match (k : category) (c : char) : bool :=
  match k with
  | CatDigit => isdecimal c
  | CatWord => isalnum c || (c =? 95)%N
  end.

(** A lowered text character against a lowered pattern character. *)
Definition lower_match (lo x : char) : bool :=
  (x =? lo)%N || contains x (fixes lo).

Definition literal_match (fl : flags) (l c : char) : bool :=
  if ignorecase fl && iscased l then lower_match (tolower l) (tolower c)
  else (c =? l)%N.

Definition item_cased (it : set_item) : bool :=
  match it with
  | SLit l => iscased l
  | SCat _ => false
  end.

(** Membership in a set.  Under [re.IGNORECASE] the compiler lowers the
    literals of the set and adds their equivalents
    ([_optimize_charset]); the text character is lowered as well when some
    literal of the set is cased. *)
Definition set_member (fl : flags) (items : list set_item) (c : char) : bool :=
  if ignorecase fl then
    let x := if existsb item_cased items then tolower c else c in
    existsb (fun it => match it with
                       | SLit l => lower_match (tolower l) x
                       | SCat k => category_match k x
                       end) items
  else
    existsb (fun it => match it with
                       | SLit l => (c =? l)%N
                       | SCat k => category_match k c
                       end) items.

Definition atom_match (fl : flags) (a : atom) (c : char) : bool :=
  match a with
  | ALit l => literal_match fl l c
  | AAny => dotall fl || negb (c =? 10)%N
  | ACat k => category_match k c
  | ASet negate items => xorb negate (set_member fl items c)
  end.

(** Group spans, most recent first: group number, start and end. *)
Definition caps := list (nat * (nat * nat)).

Fixpoint lookup_cap (n : nat) (c : caps) : option (nat * nat) :=
  match c with
  | [] => None
  | (k, span) :: t => if k =? n then Some span else lookup_cap n t
  end.

(** What is left to match after a piece: position, text from there on and
    groups so far. *)
Definition cont := nat -> str -> caps -> option (nat * caps).

Definition stop_repeat (min : nat) (pos : nat) (s : str) (c : caps) (k : cont)
  : option (nat * caps) :=
  match min with
  | 0 => k pos s c
  | S _ => None
  end.

(** [a*], [a+]: as many as possible first, then one fewer, ... *)
Fixpoint repeat_greedy (fl : flags) (a : atom) (min : nat) (pos : nat)
    (s : str) (c : caps) (k : cont) {struct s} : option (nat * caps) :=
  match s with
  | x :: t =>
      if atom_match fl a x then
        match repeat_greedy fl a (pred min) (S pos) t c k with
        | Some res => Some res
        | None => stop_repeat min pos s c k
        end
      else stop_repeat min pos s c k
  | [] => stop_repeat min pos s c k
  end.

(** [a*?], [a+?]: as few as possible first. *)
Fixpoint repeat_lazy (fl : flags) (a : atom) (min : nat) (pos : nat)
    (s : str) (c : caps) (k : cont) {struct s} : option (nat * caps) :=
  match stop_repeat min pos s c k with
  | Some res => Some res
  | None =>
      match s with
      | x :: t =>
          if atom_match fl a x
          then repeat_lazy fl a (pred min) (S pos) t c k
          else None
      | [] => None
      end
  end.

(** The backtracking matcher: [r] at position [pos], where the text from
    there on is [s], then [k]. *)
Fixpoint rmatch (fl : flags) (r : regex) (pos : nat) (s : str) (c : caps)
    (k : cont) {struct r} : option (nat * caps) :=
  match r with
  | REmpty => k pos s c
  | RChar a =>
      match s with
      | x :: t => if atom_match fl a x then k (S pos) t c else None
      | [] => None
      end
  | RRepeat a min greedy =>
      if greedy then repeat_greedy fl a min pos s c k
      else repeat_lazy fl a min pos s c k
  | ROpt r1 greedy =>
      if greedy then
        match rmatch fl r1 pos s c k with
        | Some res => Some res
        | None => k pos s c
        end
      else
        match k pos s c with
        | Some res => Some res
        | None => rmatch fl r1 pos s c k
        end
  | RSeq r1 r2 =>
      rmatch fl r1 pos s c (fun p t c1 => rmatch fl r2 p t c1 k)
  | RAlt r1 r2 =>
      match rmatch fl r1 pos s c k with
      | Some res => Some res
      | None => rmatch fl r2 pos s c k
      end
  | RGroup n r1 =>
      rmatch fl r1 pos s c (fun p t c1 => k p t ((n, (pos, p)) :: c1))
  | RNotAhead r1 =>
      match rmatch fl r1 pos s c (fun p _ c1 => Some (p, c1)) with
      | Some _ => None
      | None => k pos s c
      end
  end.

(** A match object: the span of the whole match and of its groups. *)
Record match_object := { m_start : nat; m_end : nat; m_caps : caps }.

(** One attempt at [pos].  After an empty match the scanner must advance:
    the attempt at the same position may not end where it starts. *)
Definition match_at (fl : flags) (r : regex) (must_advance : bool)
    (pos : nat) (s : str) : option match_object :=
  match rmatch fl r pos s []
          (fun p _ c => if must_advance && (p =? pos) then None
                        else Some (p, c)) with
  | Some (e, c) => Some {| m_start := pos; m_end := e; m_caps := c |}
  | None => None
  end.

(** [re.search]: the first position with a match. *)
Fixpoint search_from (fl : flags) (r : regex) (pos : nat) (s : str)
  : option match_object :=
  match match_at fl r false pos s with
  | Some mt => Some mt
  | None =>
      match s with
      | _ :: t => search_from fl r (S pos) t
      | [] => None
      end
  end.

Definition search (p : pattern) (fl : flags) (s : str) : option match_object :=
  search_from fl (re_ast p) 0 s.

(** [re.finditer]: the matches from left to right, none overlapping; [skip]
    characters are still covered by the match found last. *)
Fixpoint scan (fl : flags) (r : regex) (pos : nat) (s : str) (skip : nat)
    {struct s} : list match_object :=
  let next (skip' : nat) :=
    match s with
    | _ :: t => scan fl r (S pos) t skip'
    | [] => []
    end in
  match skip with
  | S k => next k
  | 0 =>
      match match_at fl r false pos s with
      | Some mt =>
          if m_end mt =? pos then
            mt :: match match_at fl r true pos s with
                  | Some mt' => mt' :: next (m_end mt' - pos - 1)
                  | None => next 0
                  end
          else mt :: next (m_end mt - pos - 1)
      | None => next 0
      end
  end.

Definition finditer (p : pattern) (fl : flags) (s : str) : list match_object :=
  scan fl (re_ast p) 0 s 0.

(** [match.group(n)] on the text [s] that was searched; [None] is Python's
    [None], for a group that took no part in the match. *)
Definition group (s : str) (mt : match_object) (n : nat) : option str :=
  match n with
  | 0 => Some (slice s (m_start mt) (m_end mt))
  | _ => match lookup_cap n (m_caps mt) with
         | Some (i, j) => Some (slice s i j)
         | None => None
         end
  end.

(** [re.findall] for a pattern with at most one group: the group's text if
    there is one (empty when it took no part), else the whole match. *)
Definition findall (p : pattern) (fl : flags) (s : str) : list str :=
  map (fun mt =>
         match re_groups p with
         | 0 => slice s (m_start mt) (m_end mt)
         | _ => match group s mt 1 with
                | Some g => g
                | None => []
                end
         end) (finditer p fl s).

(** ** Log Analyzer *)

(** A diagnostic record: the dictionary with keys ['line'], ['text'] and
    ['full_line'] that [parse_warnings] appends. *)
Record diagnostic := { line : nat; text : str; full_line : str }.

Definition warning_patterns : list pattern :=
  [ the (re_compile (u "LaTeX Warning: (.+)"));
    the (re_compile (u "Package \w+ Warning: (.+)"));
    the (re_compile (u "Warning--(.+)"));
    the (re_compile (u "LaTeX Warning: Reference `(.+)\' on page \d+ undefined"));
    the (re_compile (u "LaTeX Warning: Citation `(.+)\' on page \d+ undefined"));
    the (re_compile (u "Package hyperref Warning: (.+)"));
    the (re_compile (u "Package babel Warning: (.+)"));
    the (re_compile (u "Package inputenc Warning: (.+)"));
    the (re_compile (u "Package fancyhdr Warning: (.+)"));
    the (re_compile (u "Package geometry Warning: (.+)")) ].

Definition auxiliary_patterns : list pattern :=
  [ the (re_compile (u "(Overfull \\hbox.+)"));
    the (re_compile (u "(Underfull \\hbox.+)"));
    the (re_compile (u "(Overfull \\vbox.+)"));
    the (re_compile (u "(Underfull \\vbox.+)")) ].

Definition exclude_patterns : list pattern :=
  [ the (re_compile (u "LaTeX Font Info:"));
    the (re_compile (u "Package .* Info:"));
    the (re_compile (u "File: .* Graphic file"));
    the (re_compile (u "Document Class:"));
    the (re_compile (u "\\openout\d+"));
    the (re_compile (u "For additional information on amsmath")) ].

(** [any(re.search(exclude_pattern, line, re.IGNORECASE) for ...)] *)
Definition should_exclude (line : str) : bool :=
  existsb (fun exclude_pattern => is_some (search exclude_pattern IGNORECASE line))
          exclude_patterns.

(** [match.group(1) if match.groups() else match.group(0)] *)
Definition captured (p : pattern) (s : str) (mt : match_object) : option str :=
  if 0 <? re_groups p then group s mt 1 else group s mt 0.

(** [for match in matches] of the auxiliary pass.  [None]: [.strip()] was
    called on Python's [None] and raised. *)
Fixpoint auxiliary_matches (p : pattern) (line_num : nat) (line : str)
    (matches : list match_object)
    (auxiliary_info : list diagnostic) (is_auxiliary : bool)
  : option (list diagnostic * bool) :=
  match matches with
  | [] => Some (auxiliary_info, is_auxiliary)
  | mt :: rest =>
      match captured p line mt with
      | Some aux_text =>
          auxiliary_matches p line_num line rest
            (auxiliary_info ++
               [{| line := line_num; text := strip aux_text; full_line := line |}])
            true
      | None => None
      end
  end.

(** [for pattern in auxiliary_patterns] *)
Fixpoint auxiliary_pass (patterns : list pattern) (line_num : nat) (line : str)
    (auxiliary_info : list diagnostic) (is_auxiliary : bool)
  : option (list diagnostic * bool) :=
  match patterns with
  | [] => Some (auxiliary_info, is_auxiliary)
  | p :: rest =>
      match auxiliary_matches p line_num line (finditer p IGNORECASE line)
              auxiliary_info is_auxiliary with
      | Some (auxiliary_info', is_auxiliary') =>
          auxiliary_pass rest line_num line auxiliary_info' is_auxiliary'
      | None => None
      end
  end.

(** [for match in matches] of the warning pass. *)
Fixpoint warning_matches (p : pattern) (line_num : nat) (line : str)
    (matches : list match_object) (warnings : list diagnostic)
  : option (list diagnostic) :=
  match matches with
  | [] => Some warnings
  | mt :: rest =>
      match captured p line mt with
      | Some warning_text =>
          warning_matches p line_num line rest
            (warnings ++
               [{| line := line_num; text := strip warning_text; full_line := line |}])
      | None => None
      end
  end.

(** [for pattern in warning_patterns] *)
Fixpoint warning_pass (patterns : list pattern) (line_num : nat) (line : str)
    (warnings : list diagnostic) : option (list diagnostic) :=
  match patterns with
  | [] => Some warnings
  | p :: rest =>
      match warning_matches p line_num line (finditer p IGNORECASE line)
              warnings with
      | Some warnings' => warning_pass rest line_num line warnings'
      | None => None
      end
  end.

(** The body of [for line_num, line in enumerate(lines, 1)]. *)
Definition parse_line (line_num : nat) (raw : str)
    (warnings auxiliary_info : list diagnostic)
  : option (list diagnostic * list diagnostic) :=
  let line := strip raw in
  if should_exclude line then Some (warnings, auxiliary_info)
  else
    match auxiliary_pass auxiliary_patterns line_num line auxiliary_info false with
    | Some (auxiliary_info', is_auxiliary) =>
        if negb is_auxiliary then
          match warning_pass warning_patterns line_num line warnings with
          | Some warnings' => Some (warnings', auxiliary_info')
          | None => None
          end
        else Some (warnings, auxiliary_info')
    | None => None
    end.

Fixpoint parse_lines (lines : list (nat * str))
    (warnings auxiliary_info : list diagnostic)
  : option (list diagnostic * list diagnostic) :=
  match lines with
  | [] => Some (warnings, auxiliary_info)
  | (line_num, raw) :: rest =>
      match parse_line line_num raw warnings auxiliary_info with
      | Some (warnings', auxiliary_info') =>
          parse_lines rest warnings' auxiliary_info'
      | None => None
      end
  end.

(** [parse_warnings(log_content)]: the pair [(warnings, auxiliary_info)];
    [None] if the function raised. *)
Definition parse_warnings (log_content : str)
  : option (list diagnostic * list diagnostic) :=
  parse_lines (enumerate 1 (split_lines log_content)) [] [].

(** [count_and_display_warnings()]: the pair of counts it returns, given
    [output/main.log].  Between parsing and returning the function only
    prints (grouping the records for display), which changes neither count;
    printing is taken not to fail.  Any exception is caught by
    [except Exception] and gives [(0, 0)]. *)
Definition count_and_display_warnings (log_file : file_state) : nat * nat :=
  match log_file with
  | Absent => (0, 0)
  | Unreadable => (0, 0)
  | Content log_content =>
      match parse_warnings log_content with
      | Some (warnings, auxiliary_info) =>
          (List.length warnings, List.length auxiliary_info)
      | None => (0, 0)
      end
  end.

(** ** Pattern Extractor *)

(** *** Equations *)

(** The dictionary [equation_types], in insertion order. *)
Definition dict := list (str * nat).

Definition equation_types : dict :=
  [ (u "equation", 0); (u "equation*", 0); (u "align", 0); (u "align*", 0);
    (u "gather", 0); (u "gather*", 0); (u "multline", 0); (u "multline*", 0) ].

Definition keys (d : dict) : list str := map fst d.
Definition values (d : dict) : list nat := map snd d.

Fixpoint dict_get (key : str) (d : dict) : nat :=
  match d with
  | [] => 0
  | (k, v) :: t => if str_eqb k key then v else dict_get key t
  end.

(** [d[key] += n] for a key of [d]. *)
Fixpoint dict_add (key : str) (n : nat) (d : dict) : dict :=
  match d with
  | [] => []
  | (k, v) :: t => if str_eqb k key then (k, v + n) :: t
                   else (k, v) :: dict_add key n t
  end.

(** The pattern text the f-strings build for [env_type]. *)
Definition equation_pattern (env_type : str) : str :=
  if contains (ch "*") env_type
  then u "\\begin{" ++ re_escape env_type ++ u "}"
  else u "\\begin{" ++ env_type ++ u "}(?!\*)".

(** [re.findall(pattern, content)] on a pattern text; [None] is [re.error]. *)
Definition re_findall (pattern_text : str) (fl : flags) (content : str)
  : option (list str) :=
  match re_compile pattern_text with
  | Some p => Some (findall p fl content)
  | None => None
  end.

(** [for env_type in equation_types.keys()] on one file.  An exception
    leaves the loop; the dictionary keeps what was added before it. *)
Fixpoint scan_equations (env_types : list str) (content : str) (d : dict)
  : dict :=
  match env_types with
  | [] => d
  | env_type :: rest =>
      match re_findall (equation_pattern env_type) no_flags content with
      | Some found =>
          scan_equations rest content (dict_add env_type (List.length found) d)
      | None => d
      end
  end.

(** [for tex_file in tex_files] with its [try ... except Exception: continue]. *)
Fixpoint equation_counts (tex_files : list source_file) (d : dict) : dict :=
  match tex_files with
  | [] => d
  | Unreadable_source :: rest => equation_counts rest d
  | Readable content :: rest =>
      equation_counts rest (scan_equations (keys d) content d)
  end.

(** [count_equations_detailed()]: the total it returns. *)
Definition count_equations_detailed (tree : source_tree) : nat :=
  match tree with
  | GlobError => 0
  | Files tex_files =>
      list_sum (values (equation_counts tex_files equation_types))
  end.

(** *** Figures, tables and plots *)

(** The keys of the dictionary [counts]. *)
Inductive count_key :=
| figures_with_subfigures | figures_without_subfigures | total_subfigures
| tables_with_subtables | tables_without_subtables | total_subtables
| plots_with_subplots | plots_without_subplots | total_subplots
| tikzpictures_with_plots | tikzpictures_without_plots
| pgfplots_with_subplots | pgfplots_without_subplots
| total_addplots | standalone_graphics.

Definition count_key_eqb (a b : count_key) : bool :=
  match a, b with
  | figures_with_subfigures, figures_with_subfigures
  | figures_without_subfigures, figures_without_subfigures
  | total_subfigures, total_subfigures
  | tables_with_subtables, tables_with_subtables
  | tables_without_subtables, tables_without_subtables
  | total_subtables, total_subtables
  | plots_with_subplots, plots_with_subplots
  | plots_without_subplots, plots_without_subplots
  | total_subplots, total_subplots
  | tikzpictures_with_plots, tikzpictures_with_plots
  | tikzpictures_without_plots, tikzpictures_without_plots
  | pgfplots_with_subplots, pgfplots_with_subplots
  | pgfplots_without_subplots, pgfplots_without_subplots
  | total_addplots, total_addplots
  | standalone_graphics, standalone_graphics => true
  | _, _ => false
  end.

(** The dictionary [counts]: every key is present from the start. *)
Definition counts := count_key -> nat.

Definition counts_zero : counts := fun _ => 0.

(** [counts[key] += n] *)
Definition incr (key : count_key) (n : nat) (c : counts) : counts :=
  fun k => if count_key_eqb k key then c k + n else c k.

Definition figure_pattern : pattern :=
  the (re_compile (u "\\begin\{figure\}(.*?)\\end\{figure\}")).
Definition figure_star_pattern : pattern :=
  the (re_compile (u "\\begin\{figure\*\}(.*?)\\end\{figure\*\}")).
Definition table_pattern : pattern :=
  the (re_compile (u "\\begin\{table\}(.*?)\\end\{table\}")).
Definition table_star_pattern : pattern :=
  the (re_compile (u "\\begin\{table\*\}(.*?)\\end\{table\*\}")).
Definition plot_pattern : pattern :=
  the (re_compile (u "\\begin\{plot\}(.*?)\\end\{plot\}")).
Definition tikz_pattern : pattern :=
  the (re_compile (u "\\begin\{tikzpicture\}(.*?)\\end\{tikzpicture\}")).
Definition axis_pattern : pattern :=
  the (re_compile (u "\\begin\{axis\}(.*?)\\end\{axis\}")).

Definition subfigure_begin : pattern := the (re_compile (u "\\begin\{subfigure\}")).
Definition subtable_begin : pattern := the (re_compile (u "\\begin\{subtable\}")).
Definition subplot_begin : pattern := the (re_compile (u "\\begin\{subplot\}")).
Definition plot_command : pattern := the (re_compile (u "\\addplot|\\plot(?!s)")).
Definition addplot_command : pattern := the (re_compile (u "\\addplot")).
Definition includegraphics_command : pattern :=
  the (re_compile (u "\\includegraphics(?:\[[^\]]*\])?\{[^}]+\}")).

(** The loop the source writes once per container pattern:
[[
    for x_content in x_matches:
        n = len(re.findall(inner, x_content))
        if n > 0:
            counts[with_key] += 1
            counts[total_key] += n
        else:
            counts[without_key] += 1
]] *)
Fixpoint tally (inner : pattern) (with_key without_key total_key : count_key)
    (matches : list str) (c : counts) : counts :=
  match matches with
  | [] => c
  | x_content :: rest =>
      let n := List.length (findall inner no_flags x_content) in
      tally inner with_key without_key total_key rest
        (if 0 <? n then incr total_key n (incr with_key 1 c)
         else incr without_key 1 c)
  end.

(** The body of [for tex_file in tex_files] on the text of one file. *)
Definition scan_file (content : str) (c : counts) : counts :=
  let c := tally subfigure_begin
             figures_with_subfigures figures_without_subfigures total_subfigures
             (findall figure_pattern DOTALL content) c in
  let c := tally subfigure_begin
             figures_with_subfigures figures_without_subfigures total_subfigures
             (findall figure_star_pattern DOTALL content) c in
  let c := tally subtable_begin
             tables_with_subtables tables_without_subtables total_subtables
             (findall table_pattern DOTALL content) c in
  let c := tally subtable_begin
             tables_with_subtables tables_without_subtables total_subtables
             (findall table_star_pattern DOTALL content) c in
  let c := tally subplot_begin
             plots_with_subplots plots_without_subplots total_subplots
             (findall plot_pattern DOTALL content) c in
  let c := tally plot_command
             tikzpictures_with_plots tikzpictures_without_plots total_addplots
             (findall tikz_pattern DOTALL content) c in
  let c := tally addplot_command
             pgfplots_with_subplots pgfplots_without_subplots total_addplots
             (findall axis_pattern DOTALL content) c in
  incr standalone_graphics
       (List.length (findall includegraphics_command no_flags content)) c.

(** [for tex_file in tex_files] with its [try ... except Exception: continue]:
    the only step of the body that can raise is reading the file. *)
Fixpoint scan_files (tex_files : list source_file) (c : counts) : counts :=
  match tex_files with
  | [] => c
  | Unreadable_source :: rest => scan_files rest c
  | Readable content :: rest => scan_files rest (scan_file content c)
  end.

(** The dictionary [count_figures_and_tables()] returns. *)
Record summary := {
  figures : nat;
  r_figures_with_subfigures : nat;
  r_total_subfigures : nat;
  tables : nat;
  r_tables_with_subtables : nat;
  r_total_subtables : nat;
  custom_plots : nat;
  r_plots_with_subplots : nat;
  r_total_subplots : nat;
  plot_containers : nat;
  tikz_pgf_plots : nat;
  total_plot_commands : nat;
  graphics : nat
}.

Definition summary_zero : summary :=
  {| figures := 0; r_figures_with_subfigures := 0; r_total_subfigures := 0;
     tables := 0; r_tables_with_subtables := 0; r_total_subtables := 0;
     custom_plots := 0; r_plots_with_subplots := 0; r_total_subplots := 0;
     plot_containers := 0; tikz_pgf_plots := 0; total_plot_commands := 0;
     graphics := 0 |}.

(** "Calculate totals" and the returned dictionary. *)
Definition summarize (c : counts) : summary :=
  let total_figures := c figures_with_subfigures + c figures_without_subfigures in
  let total_tables := c tables_with_subtables + c tables_without_subtables in
  let total_custom_plots := c plots_with_subplots + c plots_without_subplots in
  let total_tikz_pgf_plots := c tikzpictures_with_plots + c pgfplots_with_subplots in
  let total_plot_containers :=
    c tikzpictures_with_plots + c tikzpictures_without_plots +
    c pgfplots_with_subplots + c pgfplots_without_subplots +
    total_custom_plots in
  {| figures := total_figures;
     r_figures_with_subfigures := c figures_with_subfigures;
     r_total_subfigures := c total_subfigures;
     tables := total_tables;
     r_tables_with_subtables := c tables_with_subtables;
     r_total_subtables := c total_subtables;
     custom_plots := total_custom_plots;
     r_plots_with_subplots := c plots_with_subplots;
     r_total_subplots := c total_subplots;
     plot_containers := total_plot_containers;
     tikz_pgf_plots := total_tikz_pgf_plots;
     total_plot_commands := c total_addplots;
     graphics := c standalone_graphics |}.

(** [count_figures_and_tables()] *)
Definition count_figures_and_tables (tree : source_tree) : summary :=
  match tree with
  | GlobError => summary_zero
  | Files tex_files => summarize (scan_files tex_files counts_zero)
  end.

(** ** The driver *)

(** [if b: m] *)
Definition when (b : bool) (m : M unit) : M unit := if b then m else ret tt.

Definition report (label : string) (values : list nat) : M unit :=
  emit (Report label values).

(** The three lines of the summary for figures, tables and custom plots:
    the total, the containers with sub-elements, the others. *)
Definition report_containers (total with_sub subs : nat)
    (l_total l_with l_alone : string) : M unit :=
  when (0 <? total)
    (report l_total [total] ;;
     when (0 <? with_sub) (report l_with [with_sub; subs]) ;;
     when (0 <? total - with_sub) (report l_alone [total - with_sub])).

(** [main()], with [pdfa] the command-line flag [--pdfa].  Ctrl+C runs
    [signal_handler], which [main] installs first and which stays
    installed to the end: a Ctrl+C that comes after the wait for latexmk,
    while the script scans, analyses the log or converts, ends the run at
    once with status 130.  The steps after the wait have no duration
    here, so that no world holds such a run: [main] is the run as far as
    it goes without a Ctrl+C after the wait, and what is proved of the
    exit status of a whole run is proved of the runs without Ctrl+C.  The
    rules, the line with the elapsed time and the status lines of the
    analysis functions themselves are not recorded. *)
Definition main (w : world) (pdfa : bool) : M unit :=
  tprint "LaTeX Main Document Compiler" ;;
  success <- compile_main_tex w ;;
  when success (tprint "Analyzing document structure...") ;;
  let equation_count :=
    if success then count_equations_detailed (tree w) else 0 in
  let figure_counts := count_figures_and_tables (tree w) in
  tprint "Analyzing compilation output..." ;;
  let '(warning_count, aux_count) := count_and_display_warnings (log_file w) in
  tprint "COMPILATION SUMMARY" ;;
  tprint "File: main.tex" ;;
  when (success && (0 <? equation_count))
       (report "Total equations" [equation_count]) ;;
  report_containers (figures figure_counts)
    (r_figures_with_subfigures figure_counts) (r_total_subfigures figure_counts)
    "Total figures" "Figures with subfigures" "Standalone figures" ;;
  report_containers (tables figure_counts)
    (r_tables_with_subtables figure_counts) (r_total_subtables figure_counts)
    "Total tables" "Tables with subtables" "Standalone tables" ;;
  report_containers (custom_plots figure_counts)
    (r_plots_with_subplots figure_counts) (r_total_subplots figure_counts)
    "Total custom plots" "Plots with subplots" "Standalone plots" ;;
  when (0 <? plot_containers figure_counts)
       (report "Total plot containers" [plot_containers figure_counts] ;;
        when (0 <? tikz_pgf_plots figure_counts)
             (report "TikZ/PGF plots" [tikz_pgf_plots figure_counts])) ;;
  when (0 <? graphics figure_counts)
       (report "Total graphics commands" [graphics figure_counts]) ;;
  report "Warnings" [warning_count] ;;
  report "Layout notifications" [aux_count] ;;
  if success then
    (if 0 <? warning_count then
       tprint "Compilation completed successfully (with warnings)"
     else if 0 <? aux_count then
       tprint "Compilation completed successfully (with layout notifications)"
     else tprint "Compilation completed successfully!") ;;
    when pdfa
      (tprint "Pre-Converting to PDF/A..." ;;
       convert_sucess <- convert_to_pdfa w ;;
       if convert_sucess
       then tprint "PDF/A pre-conversion completed successfully!"
       else tprint "PDF/A pre-conversion failed!") ;;
    raise (SystemExit 0)
  else
    tprint "Compilation failed!" ;;
    raise (SystemExit 1).

(** The exit status of the interpreter: that of [sys.exit], 1 after an
    exception that nothing catches, 130 after [KeyboardInterrupt]. *)
Definition status_of {A} (o : outcome A) : nat :=
  match o with
  | Returns _ => 0
  | Raises (SystemExit code) => code
  | Raises KeyboardInterrupt => 130
  | Raises _ => 1
  end.

(** The exit status of the interpreter after running [m] as the script. *)
Definition exit_status (m : M unit) : nat := status_of (fst (m initial_state)).

(** ** Notions the properties are stated with *)

(** Group [n] lies on every path through [r]: whenever [r] matches, group
    [n] took part. *)
Fixpoint always_sets (n : nat) (r : regex) : bool :=
  match r with
  | RGroup k r1 => (k =? n) || always_sets n r1
  | RSeq r1 r2 => always_sets n r1 || always_sets n r2
  | RAlt r1 r2 => always_sets n r1 && always_sets n r2
  | _ => false
  end.

(** A pattern without character sets. *)
Definition atom_set_free (a : atom) : bool :=
  match a with
  | ASet _ _ => false
  | _ => true
  end.

Fixpoint set_free (r : regex) : bool :=
  match r with
  | REmpty => true
  | RChar a => atom_set_free a
  | RRepeat a _ _ => atom_set_free a
  | ROpt r1 _ => set_free r1
  | RSeq r1 r2 => set_free r1 && set_free r2
  | RAlt r1 r2 => set_free r1 && set_free r2
  | RGroup _ r1 => set_free r1
  | RNotAhead r1 => set_free r1
  end.

(** The patterns on which [match.group(1) if match.groups() else
    match.group(0)] is never [None]. *)
Definition well_grouped (p : pattern) : bool :=
  (re_groups p =? 0) || always_sets 1 (re_ast p).

Definition captured_text (p : pattern) (s : str) (mt : match_object) : str :=
  match captured p s mt with
  | Some t => t
  | None => []
  end.

(** The record of one match. *)
Definition make_record (p : pattern) (line_num : nat) (line : str)
    (mt : match_object) : diagnostic :=
  {| line := line_num; text := strip (captured_text p line mt);
     full_line := line |}.

(** The records one pass appends for one line: a record per pattern and
    per match, in that order. *)
Definition records (patterns : list pattern) (line_num : nat) (line : str)
  : list diagnostic :=
  flat_map (fun p => map (make_record p line_num line)
                         (finditer p IGNORECASE line))
           patterns.

(** Some pattern of the list matches somewhere in the line, letter case
    ignored. *)
Definition matches_any (patterns : list pattern) (line : str) : bool :=
  existsb (fun p => is_some (search p IGNORECASE line)) patterns.

(** The Warning and the AuxiliaryLayoutNotice records of one physical line. *)
Definition line_warnings (line_num : nat) (raw : str) : list diagnostic :=
  if should_exclude (strip raw) then []
  else if matches_any auxiliary_patterns (strip raw) then []
  else records warning_patterns line_num (strip raw).

Definition line_auxiliary (line_num : nat) (raw : str) : list diagnostic :=
  if should_exclude (strip raw) then []
  else records auxiliary_patterns line_num (strip raw).

(** Texts that differ at most in the case of ASCII letters. *)
Definition ascii_fold (c : char) : char :=
  if is_ascii_upper c then (c + 32)%N else c.

Definition fold_case (s : str) : str := map ascii_fold s.

Definition same_letters (c c' : char) : Prop := ascii_fold c = ascii_fold c'.

Definition same_record (d d' : diagnostic) : Prop :=
  line d = line d' /\
  fold_case (text d) = fold_case (text d') /\
  fold_case (full_line d) = fold_case (full_line d').

(** Two texts of the same length whose characters differ in case only. *)
Definition same_text (s s' : str) : Prop := Forall2 same_letters s s'.

(** Continuations that do not tell the two texts apart. *)
Definition same_cont (k k' : cont) : Prop :=
  forall p t t' c, same_text t t' -> k p t c = k' p t' c.

(** The log of the scenario: a LaTeX warning about an undefined reference,
    then an overfull-box notice. *)
Definition scenario_log : str :=
  u "LaTeX Warning: Reference `fig:1' on page 3 undefined" ++ [10%N] ++
  u "Overfull \hbox (5.2pt too wide) in paragraph at lines 10--12".

(** [s.startswith(p)] *)
Fixpoint starts_with (p s : str) : bool :=
  match p, s with
  | [], _ => true
  | a :: p', b :: s' => (a =? b)%N && starts_with p' s'
  | _ :: _, [] => false
  end.

(** The places of [s] at which [p] occurs. *)
Fixpoint occurrences (p s : str) : nat :=
  match s with
  | [] => 0
  | _ :: t => (if starts_with p s then 1 else 0) + occurrences p t
  end.

(** The begin-markers of a label family in a text: the occurrences of
    [\begin{family}] and of [\begin{family*}]. *)
Definition begin_markers (family : str) (content : str) : nat :=
  occurrences (u "\begin{" ++ family ++ u "}") content +
  occurrences (u "\begin{" ++ family ++ u "*}") content.

(** The label families with a starred and a non-starred spelling. *)
Definition label_families : list str :=
  [u "equation"; u "align"; u "gather"; u "multline"].

(** The literal characters that every match of [r] begins with, when
    letter case is not ignored. *)
Fixpoint literal_prefix (r : regex) : str :=
  match r with
  | RChar (ALit c) => [c]
  | RSeq (RChar (ALit c)) r2 => c :: literal_prefix r2
  | _ => []
  end.

(** Two texts that agree as far as both go. *)
Fixpoint compatible (a b : str) : bool :=
  match a, b with
  | x :: a', y :: b' => (x =? y)%N && compatible a' b'
  | _, _ => true
  end.

(** The containers of one kind that the scan matches in a tree: the
    matches of the kind's container patterns in the files it could read. *)
Fixpoint containers (patterns : list pattern) (tex_files : list source_file)
  : nat :=
  match tex_files with
  | [] => 0
  | Unreadable_source :: rest => containers patterns rest
  | Readable content :: rest =>
      list_sum (map (fun p => List.length (findall p DOTALL content)) patterns)
      + containers patterns rest
  end.

(** The five kinds of container the scan tallies, with the keys of their
    two tallies and the patterns that match their blocks. *)
Inductive container_kind := Figure | Table | CustomPlot | TikzPicture | Axis.

Definition with_key (kind : container_kind) : count_key :=
  match kind with
  | Figure => figures_with_subfigures
  | Table => tables_with_subtables
  | CustomPlot => plots_with_subplots
  | TikzPicture => tikzpictures_with_plots
  | Axis => pgfplots_with_subplots
  end.

Definition without_key (kind : container_kind) : count_key :=
  match kind with
  | Figure => figures_without_subfigures
  | Table => tables_without_subtables
  | CustomPlot => plots_without_subplots
  | TikzPicture => tikzpictures_without_plots
  | Axis => pgfplots_without_subplots
  end.

Definition container_patterns (kind : container_kind) : list pattern :=
  match kind with
  | Figure => [figure_pattern; figure_star_pattern]
  | Table => [table_pattern; table_star_pattern]
  | CustomPlot => [plot_pattern]
  | TikzPicture => [tikz_pattern]
  | Axis => [axis_pattern]
  end.

(** The two files of the scenario. *)
Definition figure_with_two_subfigures : str :=
  u "\begin{figure}...\begin{subfigure}...\end{subfigure}\begin{subfigure}...\end{subfigure}\end{figure}".

Definition figure_alone : str := u "\begin{figure}...\end{figure}".

(** The files of a tree; none if the enumeration failed. *)
Definition files_of (tree : source_tree) : list source_file :=
  match tree with
  | GlobError => []
  | Files tex_files => tex_files
  end.

(** No file was found, or every file failed. *)
Definition nothing_read (tree : source_tree) : Prop :=
  match tree with
  | GlobError => True
  | Files tex_files => Forall (fun f => f = Unreadable_source) tex_files
  end.

(** A text that holds none of the constructs that the Pattern Extractor
    counts: scanned on its own, it leaves every count at zero. *)
Definition holds_nothing (content : str) : Prop :=
  count_figures_and_tables (Files [Readable content]) = summary_zero /\
  count_equations_detailed (Files [Readable content]) = 0.

(** A file that adds nothing to the counts: it failed, or it holds none
    of the counted constructs. *)
Definition adds_nothing (f : source_file) : Prop :=
  match f with
  | Unreadable_source => True
  | Readable content => holds_nothing content
  end.

(** [w] with another state of [output/main.log]. *)
Definition with_log (w : world) (l : file_state) : world :=
  {| main_tex_exists := main_tex_exists w; mkdir_ok := mkdir_ok w;
     latexmk_found := latexmk_found w; latexmk_run := latexmk_run w;
     sigint_after := sigint_after w;
     exits_on_terminate := exits_on_terminate w; pdf_size := pdf_size w;
     tree := tree w; log_file := l; gs := gs w |}.

(** latexmk is still running when the bound of [communicate] is reached. *)
Definition exceeds_timeout (b : behaviour) : Prop :=
  match b with
  | Finishes seconds _ _ _ => (timeout < seconds)%N
  | Garbles seconds _ => (timeout < seconds)%N
  | Hangs => True
  end.

(** A state with the globals and the child as given and with more
    events. *)
Definition extend (s : state) (cp : option handle) (sp : option bool)
    (ch : option child_status) (events : list event) : state :=
  {| current_process := cp; spinner := sp; child := ch;
     trace := trace s ++ events |}.

(** The exit status that follows from the outcome of the compilation. *)
Definition status_after (w : world) (pdfa : bool) (o : outcome bool) : nat :=
  match o with
  | Returns true =>
      if pdfa then
        match fst (convert_to_pdfa w initial_state) with
        | Returns _ => 0
        | Raises e => status_of (@Raises unit e)
        end
      else 0
  | Returns false => 1
  | Raises e => status_of (@Raises unit e)
  end.

(** Code that only prints: it returns, whatever the state, and the trace
    it leaves extends the trace it found. *)
Definition quiet (m : M unit) : Prop :=
  forall s, exists s' events,
    m s = (Returns tt, s') /\ trace s' = trace s ++ events.

(** Code that never takes an event back. *)
Definition grows {A} (m : M A) : Prop :=
  forall s, exists events, trace (snd (m s)) = trace s ++ events.

(** The state in which [main] calls [compile_main_tex]. *)
Definition state_at_compile : state :=
  extend initial_state None None None [Print "LaTeX Main Document Compiler"].

(** latexmk can be started: [main.tex] is there, [output/] could be made
    and the program was found. *)
Definition ready (w : world) : bool :=
  main_tex_exists w && mkdir_ok w && latexmk_found w.

(** How long [communicate] waits for latexmk: until it exits, or until the
    bound. *)
Definition waiting_time (b : behaviour) : N :=
  match b with
  | Finishes seconds _ _ _ => N.min seconds timeout
  | Garbles seconds _ => N.min seconds timeout
  | Hangs => timeout
  end.

(** Ctrl+C comes while [communicate] waits. *)
Definition interrupted (w : world) : bool :=
  interrupted_before w (waiting_time (latexmk_run w)).

(** What [signal_handler] does to a child that it finds running. *)
Definition stopping (w : world) : list event :=
  if exits_on_terminate w then [Print "Process terminated gracefully"]
  else [Print "Process didn't terminate gracefully, forcing kill...";
        Kill; Print "Process killed"].

Definition stopped (w : world) : child_status :=
  if exits_on_terminate w then Terminated else Killed.

(** The launches of latexmk in a trace. *)
Definition is_launch (e : event) : bool :=
  match e with
  | Launch => true
  | _ => false
  end.

Definition launches (events : list event) : nat :=
  List.length (filter is_launch events).



(** A world in which Ctrl+C comes ten seconds after the launch and latexmk
    ignores [terminate()]. *)
Definition stubborn_world : world :=
  {| main_tex_exists := true; mkdir_ok := true; latexmk_found := true;
     latexmk_run := Hangs; sigint_after := Some 10%N;
     exits_on_terminate := false; pdf_size := None; tree := Files [];
     log_file := Absent; gs := GsNotFound |}.








(** [d] with its line number moved down by [n] lines. *)
Definition shift (n : nat) (d : diagnostic) : diagnostic :=
  {| line := n + line d; text := text d; full_line := full_line d |}.

(** [t] is a piece of [s]: [t in s]. *)
Definition part_of (t s : str) : Prop :=
  exists before after, s = before ++ t ++ after.

(** Two physical lines that the passes do not tell apart. *)
Definition same_stripped (raw raw' : str) : Prop := strip raw = strip raw'.

(** The pattern that matches the text [l], then [r]. *)
Fixpoint lit_then (l : str) (r : regex) : regex :=
  match l with
  | [] => r
  | c :: t => RSeq (RChar (ALit c)) (lit_then t r)
  end.

(** The pattern of a text without special characters: the text itself. *)
Definition literal (l : str) : regex := lit_then l REmpty.

(** The suffixes of [s], [s] itself included, that satisfy [P]. *)
Fixpoint hits (P : str -> bool) (s : str) : nat :=
  match s with
  | [] => 0
  | _ :: t => (if P s then 1 else 0) + hits P t
  end.

(** [p] occurs at the start of [s] and the character [x] does not follow
    it. *)
Definition starts_unless (p : str) (x : char) (s : str) : bool :=
  starts_with p s && negb (starts_with [x] (skipn (List.length p) s)).

(** The places of [s] at which [p] occurs with no [x] right after it. *)
Definition occurrences_unless (p : str) (x : char) (s : str) : nat :=
  hits (starts_unless p x) s.

(** The first character of [l] occurs nowhere else in [l]: two
    occurrences of [l] in a text never overlap. *)
Definition head_unique (l : str) : bool :=
  match l with
  | [] => false
  | c :: t => negb (contains c t)
  end.

(** The texts of the files that could be read. *)
Fixpoint readable (tex_files : list source_file) : list str :=
  match tex_files with
  | [] => []
  | Unreadable_source :: rest => readable rest
  | Readable content :: rest => content :: readable rest
  end.

(** What one file adds to the count of [env_type]. *)
Definition equation_matches (env_type : str) (content : str) : nat :=
  match re_findall (equation_pattern env_type) no_flags content with
  | Some found => List.length found
  | None => 0
  end.

(** [key in d] *)
Definition has_key (key : str) (d : dict) : bool :=
  existsb (fun k => str_eqb k key) (keys d).

(** The sum of two summaries, entry by entry. *)
Definition summary_add (a b : summary) : summary :=
  {| figures := figures a + figures b;
     r_figures_with_subfigures :=
       r_figures_with_subfigures a + r_figures_with_subfigures b;
     r_total_subfigures := r_total_subfigures a + r_total_subfigures b;
     tables := tables a + tables b;
     r_tables_with_subtables :=
       r_tables_with_subtables a + r_tables_with_subtables b;
     r_total_subtables := r_total_subtables a + r_total_subtables b;
     custom_plots := custom_plots a + custom_plots b;
     r_plots_with_subplots := r_plots_with_subplots a + r_plots_with_subplots b;
     r_total_subplots := r_total_subplots a + r_total_subplots b;
     plot_containers := plot_containers a + plot_containers b;
     tikz_pgf_plots := tikz_pgf_plots a + tikz_pgf_plots b;
     total_plot_commands := total_plot_commands a + total_plot_commands b;
     graphics := graphics a + graphics b |}.

(** The pattern of the sub-elements that the scan looks for inside the
    containers of a kind, and the key under which it adds them up. *)
Definition sub_elements (kind : container_kind) : pattern :=
  match kind with
  | Figure => subfigure_begin
  | Table => subtable_begin
  | CustomPlot => subplot_begin
  | TikzPicture => plot_command
  | Axis => addplot_command
  end.

Definition total_key (kind : container_kind) : count_key :=
  match kind with
  | Figure => total_subfigures
  | Table => total_subtables
  | CustomPlot => total_subplots
  | TikzPicture | Axis => total_addplots
  end.

(** The sub-elements in the body of one container. *)
Definition sub_count (kind : container_kind) (body : str) : nat :=
  List.length (findall (sub_elements kind) no_flags body).

(** The bodies of the containers of a kind that the scan matches in the
    files it could read, in the order in which it tallies them. *)
Definition bodies (kind : container_kind) (tex_files : list source_file)
  : list str :=
  flat_map (fun content =>
              flat_map (fun p => findall p DOTALL content)
                       (container_patterns kind))
           (readable tex_files).

(** A step of the scan that only adds to the counts it finds: what it
    leaves is what it found plus what it leaves when it starts from all
    zeros. *)
Definition additive (F : counts -> counts) : Prop :=
  forall c k, F c k = c k + F counts_zero k.

(** Where [e] first occurs in [s]: [s.find(e)], with [None] for [-1]. *)
Fixpoint first_occurrence (e s : str) : option nat :=
  if starts_with e s then Some 0
  else match s with
       | [] => None
       | _ :: t => match first_occurrence e t with
                   | Some i => Some (S i)
                   | None => None
                   end
       end.

(** The pattern [b(.*?)e] of a block between two markers. *)
Definition block (b e : str) : regex :=
  lit_then b (RSeq (RGroup 1 (RSeq (RRepeat AAny 0 false) REmpty)) (literal e)).

(** The container patterns with their begin-markers and end-markers. *)
Definition container_markers : list (pattern * str * str) :=
  [ (figure_pattern, u "\begin{figure}", u "\end{figure}");
    (figure_star_pattern, u "\begin{figure*}", u "\end{figure*}");
    (table_pattern, u "\begin{table}", u "\end{table}");
    (table_star_pattern, u "\begin{table*}", u "\end{table*}");
    (plot_pattern, u "\begin{plot}", u "\end{plot}");
    (tikz_pattern, u "\begin{tikzpicture}", u "\end{tikzpicture}");
    (axis_pattern, u "\begin{axis}", u "\end{axis}") ].

(** * What [tprint] does to a message

    [tprint] replaces four marks by themselves in colour, one mark after
    the other, before it prints the message behind the time of day. *)

(** [arg_str.replace(old, new)], for an [old] of one character. *)
Definition replace_char (old : char) (new : str) (arg_str : str) : str :=
  flat_map (fun c => if (c =? old)%N then new else [c]) arg_str.

(** An escape sequence: the character 033 and what follows it. *)
Definition escape (code : string) : str := 27%N :: u code.

Definition check_mark : char := 0x2713%N.
Definition x_mark : char := 0x2717%N.
Definition warning_symbol : char := 0x26A0%N.
Definition skip_symbol : char := 0x23ED%N.

(** The four replacements of the loop over [args]. *)
Definition colored (arg : str) : str :=
  let arg_str := arg in
  let arg_str :=
    replace_char check_mark
      (escape "[92m" ++ [check_mark] ++ escape "[0m") arg_str in
  let arg_str :=
    replace_char x_mark
      (escape "[91m" ++ [x_mark] ++ escape "[0m") arg_str in
  let arg_str :=
    replace_char warning_symbol
      (escape "[93m" ++ [warning_symbol] ++ escape "[0m") arg_str in
  let arg_str :=
    replace_char skip_symbol
      (escape "[94m" ++ [skip_symbol] ++ escape "[0m") arg_str in
  arg_str.

(** The colour of a mark, if the character is one. *)
Definition colour_of (c : char) : option string :=
  if (c =? check_mark)%N then Some "[92m"%string
  else if (c =? x_mark)%N then Some "[91m"%string
  else if (c =? warning_symbol)%N then Some "[93m"%string
  else if (c =? skip_symbol)%N then Some "[94m"%string
  else None.

(** A character in its colour. *)
Definition paint (c : char) : str :=
  match colour_of c with
  | Some code => escape code ++ [c] ++ escape "[0m"
  | None => [c]
  end.

(** The marks of a text, in order. *)
Definition marks (s : str) : list char :=
  filter (fun c => match colour_of c with Some _ => true | None => false end) s.

(** * What the Log Analyzer displays

    [count_and_display_warnings] files the records under types, in
    dictionaries of lists that keep the order of insertion, and prints
    the size of each type. *)

(** [str.lower()] of a text that is not all ASCII: a table of the
    interpreter. *)
Variable unicode_lower : str -> str.

Definition is_ascii (s : str) : bool := forallb (fun c => (c <? 128)%N) s.

(** [s.lower()] *)
Definition lower (s : str) : str :=
  if is_ascii s then map ascii_fold s else unicode_lower s.

(** [t in s], for two texts. *)
Fixpoint is_in (t s : str) : bool :=
  starts_with t s ||
  match s with
  | [] => false
  | _ :: rest => is_in t rest
  end.

(** The type under which a warning is filed. *)
Definition warning_type (warning : diagnostic) : string :=
  if is_in (u "undefined") (lower (text warning)) then "Undefined references"
  else if is_in (u "citation") (lower (text warning)) then "Citation issues"
  else if is_in (u "hyperref") (lower (full_line warning)) then "Hyperref warnings"
  else if is_in (u "package") (lower (full_line warning)) then "Package warnings"
  else "General warnings".

(** The type under which a layout notice is filed. *)
Definition aux_type (aux : diagnostic) : string :=
  if is_in (u "Overfull") (text aux) then "Overfull boxes"
  else if is_in (u "Underfull") (text aux) then "Underfull boxes"
  else "Other layout".

(** A dictionary from types to lists of records. *)
Definition types := list (string * list diagnostic).

(** [if key not in d: d[key] = []] and [d[key].append(x)] *)
Fixpoint file_under (key : string) (x : diagnostic) (d : types) : types :=
  match d with
  | [] => [(key, [x])]
  | (k, xs) :: rest =>
      if String.eqb k key then (k, xs ++ [x]) :: rest
      else (k, xs) :: file_under key x rest
  end.

(** [for warning in warnings] *)
Definition warning_types (warnings : list diagnostic) : types :=
  fold_left (fun d warning => file_under (warning_type warning) warning d)
            warnings [].

(** [for aux in auxiliary_info] *)
Definition aux_types (auxiliary_info : list diagnostic) : types :=
  fold_left (fun d aux => file_under (aux_type aux) aux d) auxiliary_info [].

(** A line of the display: a fixed line, a line with a label and a
    number, or a line with a text of the log. *)
Inductive shown :=
| Heading (msg : string)
| Counted (label : string) (n : nat)
| Item (text : str).

(** [for warning_type, type_warnings in warning_types.items()]: the size
    of each type. *)
Definition type_sizes (d : types) : list shown :=
  map (fun entry => Counted (fst entry) (List.length (snd entry))) d.

(** The details of the warnings: the first two of each type, and how many
    more there are. *)
Definition warning_details (d : types) : list shown :=
  flat_map (fun entry =>
              let type_warnings := snd entry in
              Heading (fst entry)
              :: map (fun warning => Item (text warning)) (firstn 2 type_warnings)
              ++ (if 2 <? List.length type_warnings
                  then [Counted "... and more" (List.length type_warnings - 2)]
                  else []))
           d.

(** The details of the layout notices: the first two of each type, cut
    after 80 characters. *)
Definition layout_details (d : types) : list shown :=
  flat_map (fun entry =>
              map (fun aux => Item (firstn 80 (text aux) ++ u "..."))
                  (firstn 2 (snd entry)))
           d.

(** What [count_and_display_warnings] prints about the two lists. *)
Definition display (warnings auxiliary_info : list diagnostic) : list shown :=
  (match warnings with
   | _ :: _ =>
       Counted "Found warnings" (List.length warnings)
       :: type_sizes (warning_types warnings)
       ++ (if 0 <? List.length warnings
           then Heading "Warning details (first 2 per type):"
                :: warning_details (warning_types warnings)
           else [])
   | [] => [Heading "No warnings found!"]
   end)
  ++
  (match auxiliary_info with
   | _ :: _ =>
       Counted "Found layout notifications" (List.length auxiliary_info)
       :: type_sizes (aux_types auxiliary_info)
       ++ (if List.length auxiliary_info <=? 5
           then Heading "Layout details:"
                :: layout_details (aux_types auxiliary_info)
           else [])
   | [] => [Heading "No layout issues found!"]
   end).

(** What [count_and_display_warnings] prints, given [output/main.log]. *)
Definition displayed (log_file : file_state) : list shown :=
  match log_file with
  | Absent => [Heading "Log file not found - cannot analyze warnings"]
  | Unreadable => [Heading "Error analyzing warnings"]
  | Content log_content =>
      match parse_warnings log_content with
      | Some (warnings, auxiliary_info) => display warnings auxiliary_info
      | None => [Heading "Error analyzing warnings"]
      end
  end.

(** The sizes of the types of a dictionary. *)
Definition sizes (d : types) : list nat :=
  map (fun entry => List.length (snd entry)) d.

(** The records of a list that are filed under a type. *)
Definition of_type (type_of : diagnostic -> string) (key : string)
    (records : list diagnostic) : list diagnostic :=
  filter (fun x => String.eqb (type_of x) key) records.

(** A dictionary in which the records of a list are filed: its types are
    distinct, each holds the records of its type, in their order, and no
    type is empty or missing. *)
Definition filed (type_of : diagnostic -> string) (d : types)
    (records : list diagnostic) : Prop :=
  NoDup (map fst d) /\
  (forall k xs, In (k, xs) d ->
     xs <> [] /\ xs = of_type type_of k records) /\
  (forall y, In y records -> In (type_of y) (map fst d)).

(** * Properties *)

(** ** The matcher *)

Lemma lookup_cap_cons n k span c :
  lookup_cap n ((k, span) :: c) = if k =? n then Some span else lookup_cap n c.
Proof. reflexivity. Qed.

Lemma repeat_greedy_result fl a k : forall s min pos c res,
  repeat_greedy fl a min pos s c k = Some res ->
  exists p t, k p t c = Some res.
Proof.
  induction s as [|x t IH]; intros min pos c res H; simpl in H.
  - destruct min; simpl in H; [eauto | discriminate].
  - destruct (atom_match fl a x).
    + destruct (repeat_greedy fl a (pred min) (S pos) t c k) eqn:E.
      * inversion H; subst. eapply IH; eauto.
      * destruct min; simpl in H; [eauto | discriminate].
    + destruct min; simpl in H; [eauto | discriminate].
Qed.

Lemma repeat_lazy_result fl a k : forall s min pos c res,
  repeat_lazy fl a min pos s c k = Some res ->
  exists p t, k p t c = Some res.
Proof.
  induction s as [|x t IH]; intros min pos c res H; simpl in H.
  - destruct min; simpl in H.
    + destruct (k pos [] c) eqn:E; [inversion H; subst; eauto | discriminate].
    + discriminate.
  - destruct (stop_repeat min pos (x :: t) c k) eqn:E.
    + inversion H; subst. destruct min; simpl in E; [eauto | discriminate].
    + destruct (atom_match fl a x); [eapply IH; eauto | discriminate].
Qed.

(** Where a match succeeds, the continuation was reached with every group
    that was set before, and with every group that lies on all paths. *)
Lemma rmatch_result fl : forall r pos s c k res,
  rmatch fl r pos s c k = Some res ->
  exists p t c1,
    k p t c1 = Some res /\
    forall n, lookup_cap n c <> None \/ always_sets n r = true ->
              lookup_cap n c1 <> None.
Proof.
  induction r as [ | a | a min greedy | r1 IH1 greedy | r1 IH1 r2 IH2
                 | r1 IH1 r2 IH2 | g r1 IH1 | r1 IH1 ];
    intros pos s c k res H; simpl in H.
  - exists pos, s, c. split; [assumption|]. intros n [Hn|Hn]; [assumption|discriminate].
  - destruct s as [|x t]; [discriminate|].
    destruct (atom_match fl a x); [|discriminate].
    exists (S pos), t, c. split; [assumption|].
    intros n [Hn|Hn]; [assumption|discriminate].
  - assert (exists p t, k p t c = Some res) as (p & t & Hk).
    { destruct greedy; [eapply repeat_greedy_result | eapply repeat_lazy_result]; eauto. }
    exists p, t, c. split; [assumption|].
    intros n [Hn|Hn]; [assumption|discriminate].
  - assert (rmatch fl r1 pos s c k = Some res \/ k pos s c = Some res) as [H1|H1].
    { destruct greedy.
      - destruct (rmatch fl r1 pos s c k); [left; assumption | right; assumption].
      - destruct (k pos s c); [right; assumption | left; assumption]. }
    + destruct (IH1 _ _ _ _ _ H1) as (p & t & c1 & Hk & Hc).
      exists p, t, c1. split; [assumption|].
      intros n [Hn|Hn]; [apply Hc; left; assumption | discriminate].
    + exists pos, s, c. split; [assumption|].
      intros n [Hn|Hn]; [assumption|discriminate].
  - destruct (IH1 _ _ _ _ _ H) as (p1 & t1 & c1 & Hk1 & Hc1).
    destruct (IH2 _ _ _ _ _ Hk1) as (p2 & t2 & c2 & Hk2 & Hc2).
    exists p2, t2, c2. split; [assumption|].
    intros n [Hn|Hn].
    + apply Hc2. left. apply Hc1. left. assumption.
    + simpl in Hn. apply orb_true_iff in Hn. destruct Hn as [Hn|Hn].
      * apply Hc2. left. apply Hc1. right. assumption.
      * apply Hc2. right. assumption.
  - assert (rmatch fl r1 pos s c k = Some res \/ rmatch fl r2 pos s c k = Some res)
      as [H1|H1].
    { destruct (rmatch fl r1 pos s c k); [left; assumption | right; assumption]. }
    + destruct (IH1 _ _ _ _ _ H1) as (p & t & c1 & Hk & Hc).
      exists p, t, c1. split; [assumption|].
      intros n [Hn|Hn]; apply Hc; [left; assumption|].
      simpl in Hn. apply andb_true_iff in Hn. right. apply Hn.
    + destruct (IH2 _ _ _ _ _ H1) as (p & t & c1 & Hk & Hc).
      exists p, t, c1. split; [assumption|].
      intros n [Hn|Hn]; apply Hc; [left; assumption|].
      simpl in Hn. apply andb_true_iff in Hn. right. apply Hn.
  - destruct (IH1 _ _ _ _ _ H) as (p & t & c1 & Hk & Hc).
    exists p, t, ((g, (pos, p)) :: c1). split; [assumption|].
    intros n Hn. rewrite lookup_cap_cons.
    destruct (g =? n) eqn:E; [discriminate|].
    apply Hc. destruct Hn as [Hn|Hn]; [left; assumption|].
    simpl in Hn. rewrite E in Hn. right. assumption.
  - destruct (rmatch fl r1 pos s c (fun p _ c1 => Some (p, c1))); [discriminate|].
    exists pos, s, c. split; [assumption|].
    intros n [Hn|Hn]; [assumption|discriminate].
Qed.

(** A match object of a pattern carries the groups that lie on all paths. *)
Lemma match_at_groups fl r adv pos s mt n :
  match_at fl r adv pos s = Some mt ->
  always_sets n r = true ->
  lookup_cap n (m_caps mt) <> None.
Proof.
  unfold match_at. intros H Hn.
  destruct (rmatch fl r pos s [] _) as [[e c]|] eqn:E; [|discriminate].
  inversion H; subst; clear H. simpl.
  destruct (rmatch_result _ _ _ _ _ _ _ E) as (p & t & c1 & Hk & Hc).
  destruct (adv && (p =? pos)); [discriminate|].
  inversion Hk; subst. apply Hc. right. assumption.
Qed.

Lemma scan_groups fl r n :
  always_sets n r = true ->
  forall s pos skip,
    Forall (fun mt => lookup_cap n (m_caps mt) <> None) (scan fl r pos s skip).
Proof.
  intros Hn. induction s as [|x t IH]; intros pos skip.
  - simpl. destruct skip; [|constructor].
    destruct (match_at fl r false pos []) as [mt|] eqn:E; [|constructor].
    destruct (m_end mt =? pos).
    + constructor; [eapply match_at_groups; eauto|].
      destruct (match_at fl r true pos []) as [mt'|] eqn:E'; [|constructor].
      constructor; [eapply match_at_groups; eauto | constructor].
    + constructor; [eapply match_at_groups; eauto | constructor].
  - simpl. destruct skip; [|apply IH].
    destruct (match_at fl r false pos (x :: t)) as [mt|] eqn:E; [|apply IH].
    destruct (m_end mt =? pos).
    + constructor; [eapply match_at_groups; eauto|].
      destruct (match_at fl r true pos (x :: t)) as [mt'|] eqn:E'; [|apply IH].
      constructor; [eapply match_at_groups; eauto | apply IH].
    + constructor; [eapply match_at_groups; eauto | apply IH].
Qed.

(** [re.finditer] yields a match exactly when [re.search] finds one. *)
Lemma scan_nil_iff_search fl r : forall s pos,
  scan fl r pos s 0 = [] <-> search_from fl r pos s = None.
Proof.
  induction s as [|x t IH]; intros pos; simpl.
  - destruct (match_at fl r false pos []) as [mt|].
    + split; [|discriminate]. destruct (m_end mt =? pos); discriminate.
    + tauto.
  - destruct (match_at fl r false pos (x :: t)) as [mt|].
    + split; [|discriminate]. destruct (m_end mt =? pos); discriminate.
    + apply IH.
Qed.

Lemma finditer_nil_iff_search p fl s :
  finditer p fl s = [] <-> search p fl s = None.
Proof. apply scan_nil_iff_search. Qed.

(** ** The Log Analyzer, line by line *)

Lemma finditer_captured p fl line :
  well_grouped p = true ->
  Forall (fun mt => captured p line mt = Some (captured_text p line mt))
         (finditer p fl line).
Proof.
  unfold well_grouped, captured_text, captured, finditer. intros H.
  destruct (re_groups p) as [|g] eqn:G; simpl in *.
  - apply Forall_forall. intros mt _. reflexivity.
  - eapply Forall_impl; [|apply (scan_groups fl _ _ H)].
    intros mt Hmt. simpl in Hmt. unfold group.
    destruct (lookup_cap 1 (m_caps mt)) as [[i j]|]; [reflexivity|].
    exfalso. apply Hmt. reflexivity.
Qed.

Lemma auxiliary_matches_spec p n line : forall ms info flag,
  Forall (fun mt => captured p line mt = Some (captured_text p line mt)) ms ->
  auxiliary_matches p n line ms info flag
  = Some (info ++ map (make_record p n line) ms,
          match ms with [] => flag | _ :: _ => true end).
Proof.
  induction ms as [|mt ms IH]; intros info flag H; simpl.
  - rewrite app_nil_r. reflexivity.
  - inversion H as [|? ? Hm Hms]; subst. rewrite Hm.
    rewrite (IH _ _ Hms). rewrite <- app_assoc. simpl.
    destruct ms; reflexivity.
Qed.

Lemma warning_matches_spec p n line : forall ms acc,
  Forall (fun mt => captured p line mt = Some (captured_text p line mt)) ms ->
  warning_matches p n line ms acc = Some (acc ++ map (make_record p n line) ms).
Proof.
  induction ms as [|mt ms IH]; intros acc H; simpl.
  - rewrite app_nil_r. reflexivity.
  - inversion H as [|? ? Hm Hms]; subst. rewrite Hm.
    rewrite (IH _ Hms). rewrite <- app_assoc. reflexivity.
Qed.

Lemma finditer_is_some p fl s :
  match finditer p fl s with [] => false | _ :: _ => true end
  = is_some (search p fl s).
Proof.
  destruct (finditer p fl s) eqn:E; destruct (search p fl s) eqn:E'; try reflexivity.
  - apply finditer_nil_iff_search in E. congruence.
  - apply finditer_nil_iff_search in E'. congruence.
Qed.

Lemma auxiliary_pass_spec n line : forall patterns info flag,
  forallb well_grouped patterns = true ->
  auxiliary_pass patterns n line info flag
  = Some (info ++ records patterns n line, flag || matches_any patterns line).
Proof.
  induction patterns as [|p ps IH]; intros info flag H; simpl.
  - rewrite app_nil_r, orb_false_r. reflexivity.
  - simpl in H. apply andb_true_iff in H. destruct H as [Hp Hps].
    rewrite (auxiliary_matches_spec _ _ _ _ _ _ (finditer_captured p IGNORECASE line Hp)).
    rewrite (IH _ _ Hps). unfold records. simpl.
    rewrite <- app_assoc. f_equal. f_equal.
    pose proof (finditer_is_some p IGNORECASE line) as E.
    destruct (finditer p IGNORECASE line); rewrite <- E.
    + reflexivity.
    + rewrite orb_true_r. reflexivity.
Qed.

Lemma warning_pass_spec n line : forall patterns acc,
  forallb well_grouped patterns = true ->
  warning_pass patterns n line acc = Some (acc ++ records patterns n line).
Proof.
  induction patterns as [|p ps IH]; intros acc H; simpl.
  - rewrite app_nil_r. reflexivity.
  - simpl in H. apply andb_true_iff in H. destruct H as [Hp Hps].
    rewrite (warning_matches_spec _ _ _ _ _ (finditer_captured p IGNORECASE line Hp)).
    rewrite (IH _ Hps). unfold records. simpl.
    rewrite <- app_assoc. reflexivity.
Qed.

(** In every pattern of the two passes group 1 lies on all paths. *)
Lemma auxiliary_patterns_grouped : forallb well_grouped auxiliary_patterns = true.
Proof. vm_compute. reflexivity. Qed.

Lemma warning_patterns_grouped : forallb well_grouped warning_patterns = true.
Proof. vm_compute. reflexivity. Qed.

Lemma parse_line_spec n raw warnings auxiliary_info :
  parse_line n raw warnings auxiliary_info
  = Some (warnings ++ line_warnings n raw,
          auxiliary_info ++ line_auxiliary n raw).
Proof.
  unfold parse_line, line_warnings, line_auxiliary.
  destruct (should_exclude (strip raw)).
  - rewrite !app_nil_r. reflexivity.
  - rewrite (auxiliary_pass_spec _ _ _ _ _ auxiliary_patterns_grouped).
    cbv beta iota. rewrite orb_false_l.
    destruct (matches_any auxiliary_patterns (strip raw)); cbv beta iota delta [negb].
    + rewrite app_nil_r. reflexivity.
    + rewrite (warning_pass_spec _ _ _ _ warning_patterns_grouped). reflexivity.
Qed.

Lemma parse_lines_spec : forall lines warnings auxiliary_info,
  parse_lines lines warnings auxiliary_info
  = Some (warnings ++ flat_map (fun nl => line_warnings (fst nl) (snd nl)) lines,
          auxiliary_info ++ flat_map (fun nl => line_auxiliary (fst nl) (snd nl)) lines).
Proof.
  induction lines as [|[n raw] rest IH]; intros warnings auxiliary_info; simpl.
  - rewrite !app_nil_r. reflexivity.
  - rewrite parse_line_spec, IH, <- !app_assoc. reflexivity.
Qed.

(** [parse_warnings] never raises, and its two lists are the records of
    the lines, in order. *)
Lemma parse_warnings_spec log_content :
  parse_warnings log_content
  = Some (flat_map (fun nl => line_warnings (fst nl) (snd nl))
                   (enumerate 1 (split_lines log_content)),
          flat_map (fun nl => line_auxiliary (fst nl) (snd nl))
                   (enumerate 1 (split_lines log_content))).
Proof. unfold parse_warnings. rewrite parse_lines_spec. reflexivity. Qed.

Lemma in_enumerate {A} (xs : list A) : forall start n x,
  In (n, x) (enumerate start xs) <->
  start <= n /\ nth_error xs (n - start) = Some x.
Proof.
  induction xs as [|y t IH]; intros start n x; simpl.
  - split; [tauto|]. intros [_ H]. destruct (n - start); discriminate.
  - rewrite IH. split.
    + intros [H|[H1 H2]].
      * inversion H; subst. rewrite Nat.sub_diag. split; [lia|reflexivity].
      * split; [lia|]. replace (n - start) with (S (n - S start)) by lia.
        assumption.
    + intros [H1 H2]. destruct (n - start) as [|k] eqn:E.
      * left. simpl in H2. inversion H2; subst. f_equal. lia.
      * right. split; [lia|]. simpl in H2.
        replace (n - S start) with k by lia. assumption.
Qed.

Lemma records_line patterns n s d : In d (records patterns n s) -> line d = n.
Proof.
  unfold records. intros H. apply in_flat_map in H. destruct H as (p & _ & H).
  apply in_map_iff in H. destruct H as (mt & H & _). subst. reflexivity.
Qed.

Lemma line_warnings_line n raw d : In d (line_warnings n raw) -> line d = n.
Proof.
  unfold line_warnings. destruct (should_exclude (strip raw)); [intros []|].
  destruct (matches_any auxiliary_patterns (strip raw)); [intros []|].
  apply records_line.
Qed.

Lemma line_auxiliary_line n raw d : In d (line_auxiliary n raw) -> line d = n.
Proof.
  unfold line_auxiliary. destruct (should_exclude (strip raw)); [intros []|].
  apply records_line.
Qed.

(** The records that carry line number [i + 1] are those of the line at
    index [i]. *)
Lemma records_of_line (f : nat -> str -> list diagnostic) lines i raw d :
  (forall n r x, In x (f n r) -> line x = n) ->
  nth_error lines i = Some raw ->
  In d (flat_map (fun nl => f (fst nl) (snd nl)) (enumerate 1 lines)) ->
  line d = S i ->
  In d (f (S i) raw).
Proof.
  intros Hf Hnth Hin Hline.
  apply in_flat_map in Hin. destruct Hin as ([n r] & Hnr & Hd). simpl in Hd.
  pose proof (Hf _ _ _ Hd) as E. rewrite Hline in E. subst n.
  apply in_enumerate in Hnr. destruct Hnr as [_ Hnr].
  replace (S i - 1) with i in Hnr by lia. congruence.
Qed.

Lemma matches_any_record patterns n s :
  matches_any patterns s = true ->
  exists d, In d (records patterns n s) /\ line d = n /\ full_line d = s.
Proof.
  unfold matches_any, records. intros H.
  apply existsb_exists in H. destruct H as (p & Hp & Hs).
  rewrite <- finditer_is_some in Hs.
  destruct (finditer p IGNORECASE s) as [|mt ms] eqn:E; [discriminate|].
  exists (make_record p n s mt). repeat split.
  apply in_flat_map. exists p. split; [assumption|]. rewrite E. left. reflexivity.
Qed.

(** C2 (where the code departs from it).  For the log above
    [parse_warnings] returns two Warning records, both for line 1, and one
    AuxiliaryLayoutNotice record for line 2, where the scenario has one
    Warning.  The warning pass appends a record for every signature that
    matches, and its signatures overlap: the general [LaTeX Warning: (.+)]
    captures the message of the first line, and the undefined-reference
    form then captures its label as a second warning.  In the same way a
    line of [Package hyperref Warning:] matches the general package
    signature and the one for hyperref, and is recorded twice, as two
    records that are the same. *)
Theorem scenario_log_two_warnings_one_notice :
  (exists w1 w2 a1,
     parse_warnings scenario_log = Some ([w1; w2], [a1]) /\
     line w1 = 1 /\ text w1 = u "Reference `fig:1' on page 3 undefined" /\
     line w2 = 1 /\ text w2 = u "fig:1" /\
     line a1 = 2 /\
     text a1 = u "Overfull \hbox (5.2pt too wide) in paragraph at lines 10--12") /\
  (exists w1,
     parse_warnings (u "Package hyperref Warning: Token not allowed")
     = Some ([w1; w1], []) /\
     line w1 = 1 /\ text w1 = u "Token not allowed").
Proof.
  split.
  - eexists _, _, _. split; [vm_compute; reflexivity|].
    repeat split.
  - eexists. split; [vm_compute; reflexivity|].
    repeat split.
Qed.

(** C6 (as the code behaves).  Take any log and any of its lines (the
    line at index [i] carries line number [i + 1]).  If an
    Overfull/Underfull box pattern matches the line as the passes see it,
    after [line = line.strip()], then [parse_warnings] returns no Warning
    record for that line, whatever warning signature the line matches;
    and unless the exclusion pass dropped the line, it returns an
    AuxiliaryLayoutNotice record for it.  (A box pattern that matches the
    line only with the white space around it does not count: the passes
    never see that white space.) *)
Theorem auxiliary_line_is_never_a_warning (log_content : str) (i : nat) (raw : str) :
  nth_error (split_lines log_content) i = Some raw ->
  matches_any auxiliary_patterns (strip raw) = true ->
  exists warnings auxiliary_info,
    parse_warnings log_content = Some (warnings, auxiliary_info) /\
    (forall d, In d warnings -> line d <> S i) /\
    (should_exclude (strip raw) = false ->
     exists d, In d auxiliary_info /\ line d = S i /\ full_line d = strip raw).
Proof.
  intros Hnth Haux. rewrite parse_warnings_spec. eexists _, _.
  split; [reflexivity|]. split.
  - intros d Hd Hline.
    pose proof (records_of_line line_warnings _ _ _ _ line_warnings_line
                  Hnth Hd Hline) as H.
    unfold line_warnings in H. rewrite Haux in H.
    destruct (should_exclude (strip raw)); destruct H.
  - intros Hex.
    destruct (matches_any_record _ (S i) _ Haux) as (d & Hd & Hline & Hfull).
    exists d. repeat split; try assumption.
    apply in_flat_map. exists (S i, raw). split.
    + apply in_enumerate. split; [lia|].
      replace (S i - 1) with i by lia. assumption.
    + simpl. unfold line_auxiliary. rewrite Hex. assumption.
Qed.

(** C7.  Take any log and any of its lines.  If one of the exclusion
    signatures matches the line as the passes see it, stripped of
    surrounding whitespace and in any letter case, then [parse_warnings]
    returns no record for that line, neither among the Warnings nor among
    the AuxiliaryLayoutNotices. *)
Theorem excluded_line_yields_no_record (log_content : str) (i : nat) (raw : str) :
  nth_error (split_lines log_content) i = Some raw ->
  matches_any exclude_patterns (strip raw) = true ->
  exists warnings auxiliary_info,
    parse_warnings log_content = Some (warnings, auxiliary_info) /\
    forall d, In d (warnings ++ auxiliary_info) -> line d <> S i.
Proof.
  intros Hnth Hex. rewrite parse_warnings_spec. eexists _, _.
  split; [reflexivity|].
  intros d Hd Hline. apply in_app_or in Hd. destruct Hd as [Hd|Hd].
  - pose proof (records_of_line line_warnings _ _ _ _ line_warnings_line
                  Hnth Hd Hline) as H.
    unfold line_warnings, should_exclude in H. fold (matches_any exclude_patterns (strip raw)) in H.
    rewrite Hex in H. destruct H.
  - pose proof (records_of_line line_auxiliary _ _ _ _ line_auxiliary_line
                  Hnth Hd Hline) as H.
    unfold line_auxiliary, should_exclude in H. fold (matches_any exclude_patterns (strip raw)) in H.
    rewrite Hex in H. destruct H.
Qed.

(** ** Letter case *)

(** Settle the comparisons that the hypotheses decide. *)
Ltac settle_one :=
  match goal with
  | |- context [(?a <=? ?b)%N] =>
      first [ replace (a <=? b)%N with true
                by (symmetry; apply N.leb_le; lia)
            | replace (a <=? b)%N with false
                by (symmetry; apply N.leb_gt; lia) ]
  | |- context [(?a <? ?b)%N] =>
      first [ replace (a <? b)%N with true
                by (symmetry; apply N.ltb_lt; lia)
            | replace (a <? b)%N with false
                by (symmetry; apply N.ltb_ge; lia) ]
  | |- context [(?a =? ?b)%N] =>
      first [ replace (a =? b)%N with true
                by (symmetry; apply N.eqb_eq; lia)
            | replace (a =? b)%N with false
                by (symmetry; apply N.eqb_neq; lia) ]
  end.

Ltac settle := repeat (settle_one; simpl).

Lemma ascii_upper_range c :
  is_ascii_upper c = true <-> (65 <= c <= 90)%N.
Proof.
  unfold is_ascii_upper. rewrite andb_true_iff, !N.leb_le. tauto.
Qed.

Lemma ascii_lower_range c :
  is_ascii_lower c = true <-> (97 <= c <= 122)%N.
Proof.
  unfold is_ascii_lower. rewrite andb_true_iff, !N.leb_le. tauto.
Qed.

Lemma ascii_letter_range c :
  is_ascii_letter c = true <-> (65 <= c <= 90 \/ 97 <= c <= 122)%N.
Proof.
  unfold is_ascii_letter.
  rewrite orb_true_iff, ascii_upper_range, ascii_lower_range. tauto.
Qed.

Lemma same_letters_cases c c' :
  same_letters c c' ->
  c = c' \/ (is_ascii_letter c = true /\ is_ascii_letter c' = true).
Proof.
  unfold same_letters, ascii_fold. intros H. rewrite !ascii_letter_range.
  destruct (is_ascii_upper c) eqn:U; destruct (is_ascii_upper c') eqn:U';
    try (apply ascii_upper_range in U); try (apply ascii_upper_range in U').
  - right. lia.
  - destruct (N.eq_dec c c'); [left; assumption | right; lia].
  - destruct (N.eq_dec c c'); [left; assumption | right; lia].
  - left. assumption.
Qed.

Lemma tolower_ascii_letter c :
  is_ascii_letter c = true -> tolower c = ascii_fold c.
Proof.
  intros L. apply ascii_letter_range in L. unfold tolower.
  replace (c <? 128)%N with true by (symmetry; apply N.ltb_lt; lia).
  reflexivity.
Qed.

Lemma tolower_same c c' : same_letters c c' -> tolower c = tolower c'.
Proof.
  intros H. destruct (same_letters_cases _ _ H) as [E|(L & L')];
    [subst; reflexivity|].
  rewrite !tolower_ascii_letter by assumption. exact H.
Qed.

Lemma uncased_not_letter l : iscased l = false -> is_ascii_letter l = false.
Proof.
  intros H. destruct (is_ascii_letter l) eqn:L; [|reflexivity].
  apply ascii_letter_range in L. revert H.
  unfold iscased, tolower, toupper, is_ascii_upper, is_ascii_lower.
  destruct L as [L|L]; settle; intros H; discriminate H.
Qed.

Lemma eqb_same l c c' :
  is_ascii_letter l = false -> same_letters c c' ->
  (c =? l)%N = (c' =? l)%N.
Proof.
  intros Hl H. destruct (same_letters_cases _ _ H) as [E|(L & L')];
    [subst; reflexivity|].
  destruct (N.eqb_spec c l); [subst; congruence|].
  destruct (N.eqb_spec c' l); [subst; congruence|reflexivity].
Qed.

Lemma isalnum_same c c' : same_letters c c' -> isalnum c = isalnum c'.
Proof.
  intros H. destruct (same_letters_cases _ _ H) as [E|(L & L')];
    [subst; reflexivity|].
  unfold isalnum. rewrite L, L'.
  apply ascii_letter_range in L. apply ascii_letter_range in L'.
  destruct L, L'; settle; reflexivity.
Qed.

Lemma isdecimal_same c c' : same_letters c c' -> isdecimal c = isdecimal c'.
Proof.
  intros H. destruct (same_letters_cases _ _ H) as [E|(L & L')];
    [subst; reflexivity|].
  apply ascii_letter_range in L. apply ascii_letter_range in L'.
  unfold isdecimal, is_ascii_digit.
  destruct L, L'; settle; reflexivity.
Qed.

Lemma isspace_letter c : is_ascii_letter c = true -> isspace c = false.
Proof.
  intros L. apply ascii_letter_range in L. unfold isspace.
  destruct L; settle; reflexivity.
Qed.

Lemma isspace_same c c' : same_letters c c' -> isspace c = isspace c'.
Proof.
  intros H. destruct (same_letters_cases _ _ H) as [E|(L & L')];
    [subst; reflexivity|].
  rewrite !isspace_letter by assumption. reflexivity.
Qed.

Lemma category_match_same k c c' :
  same_letters c c' -> category_match k c = category_match k c'.
Proof.
  intros H. destruct k; simpl.
  - apply isdecimal_same; assumption.
  - rewrite (isalnum_same _ _ H). f_equal. apply eqb_same; [reflexivity|assumption].
Qed.

Lemma existsb_same {A} (f g : A -> bool) (l : list A) :
  (forall x, In x l -> f x = g x) -> existsb f l = existsb g l.
Proof.
  induction l as [|x t IH]; intros H; simpl; [reflexivity|].
  rewrite (H x (or_introl eq_refl)), IH; [reflexivity|].
  intros y Hy. apply H. right. assumption.
Qed.

(** Under [re.IGNORECASE] a one-character matcher does not tell apart two
    characters that differ in case only. *)
Lemma atom_match_same fl a c c' :
  ignorecase fl = true -> atom_set_free a = true -> same_letters c c' ->
  atom_match fl a c = atom_match fl a c'.
Proof.
  intros I F H. destruct a as [l| |k|negate items]; simpl.
  - unfold literal_match. rewrite I. simpl.
    destruct (iscased l) eqn:Hl.
    + rewrite (tolower_same _ _ H). reflexivity.
    + apply eqb_same; [apply uncased_not_letter|]; assumption.
  - f_equal. f_equal. apply eqb_same; [reflexivity|assumption].
  - apply category_match_same; assumption.
  - discriminate F.
Qed.

Lemma fold_case_same_text s : forall s',
  fold_case s = fold_case s' <-> same_text s s'.
Proof.
  induction s as [|c t IH]; intros [|c' t']; simpl; split; intros H;
    try discriminate; try constructor; try reflexivity;
    try (inversion H; fail).
  - inversion H. assumption.
  - inversion H. apply IH. assumption.
  - inversion H as [|? ? ? ? Hc Ht]; subst.
    unfold same_letters in Hc. rewrite Hc.
    f_equal. apply IH. assumption.
Qed.

Section IgnoreCase.

Variable fl : flags.
Hypothesis ignoring : ignorecase fl = true.

Lemma stop_repeat_same min pos s s' c k k' :
  same_cont k k' -> same_text s s' ->
  stop_repeat min pos s c k = stop_repeat min pos s' c k'.
Proof. intros Hk Hs. destruct min; simpl; [apply Hk; assumption|reflexivity]. Qed.

Lemma repeat_greedy_same a k k' :
  atom_set_free a = true ->
  same_cont k k' ->
  forall s s', same_text s s' ->
  forall min pos c,
    repeat_greedy fl a min pos s c k = repeat_greedy fl a min pos s' c k'.
Proof.
  intros F Hk s s' Hs.
  induction Hs as [|x x' t t' Hx Ht IH]; intros min pos c; simpl.
  - apply stop_repeat_same; [assumption|constructor].
  - rewrite (atom_match_same fl a _ _ ignoring F Hx), IH.
    rewrite (stop_repeat_same min pos (x :: t) (x' :: t') c k k' Hk)
      by (constructor; assumption).
    reflexivity.
Qed.

Lemma repeat_lazy_same a k k' :
  atom_set_free a = true ->
  same_cont k k' ->
  forall s s', same_text s s' ->
  forall min pos c,
    repeat_lazy fl a min pos s c k = repeat_lazy fl a min pos s' c k'.
Proof.
  intros F Hk s s' Hs.
  induction Hs as [|x x' t t' Hx Ht IH]; intros min pos c; simpl.
  - rewrite (stop_repeat_same min pos [] [] c k k' Hk) by constructor.
    reflexivity.
  - rewrite (stop_repeat_same min pos (x :: t) (x' :: t') c k k' Hk)
      by (constructor; assumption).
    rewrite (atom_match_same fl a _ _ ignoring F Hx), IH. reflexivity.
Qed.

(** Under [re.IGNORECASE] the matcher gives the same spans on two texts
    that differ in case only. *)
Lemma rmatch_same : forall r pos s s' c k k',
  set_free r = true ->
  same_cont k k' -> same_text s s' ->
  rmatch fl r pos s c k = rmatch fl r pos s' c k'.
Proof.
  induction r as [ | a | a min greedy | r1 IH1 greedy | r1 IH1 r2 IH2
                 | r1 IH1 r2 IH2 | g r1 IH1 | r1 IH1 ];
    intros pos s s' c k k' F Hk Hs; simpl in F |- *.
  - apply Hk; assumption.
  - destruct Hs as [|x x' t t' Hx Ht]; [reflexivity|].
    rewrite (atom_match_same fl a _ _ ignoring F Hx).
    destruct (atom_match fl a x'); [apply Hk; assumption|reflexivity].
  - destruct greedy;
      [apply repeat_greedy_same | apply repeat_lazy_same]; assumption.
  - rewrite (IH1 pos s s' c k k' F Hk Hs), (Hk pos s s' c Hs). reflexivity.
  - apply andb_true_iff in F. destruct F as [F1 F2].
    apply IH1; [assumption| |assumption].
    intros p t t' c1 Ht. apply IH2; assumption.
  - apply andb_true_iff in F. destruct F as [F1 F2].
    rewrite (IH1 pos s s' c k k' F1 Hk Hs), (IH2 pos s s' c k k' F2 Hk Hs).
    reflexivity.
  - apply IH1; [assumption| |assumption].
    intros p t t' c1 Ht. apply Hk; assumption.
  - rewrite (IH1 pos s s' c (fun p _ c1 => Some (p, c1))
                 (fun p _ c1 => Some (p, c1)))
      by (try assumption; intros p t t' c1 _; reflexivity).
    rewrite (Hk pos s s' c Hs). reflexivity.
Qed.

Lemma match_at_same r adv pos s s' :
  set_free r = true ->
  same_text s s' -> match_at fl r adv pos s = match_at fl r adv pos s'.
Proof.
  intros F Hs. unfold match_at.
  rewrite (rmatch_same r pos s s' []
             (fun p _ c => if adv && (p =? pos) then None else Some (p, c))
             (fun p _ c => if adv && (p =? pos) then None else Some (p, c)))
    by (try assumption; intros p t t' c1 _; reflexivity).
  reflexivity.
Qed.

Lemma search_from_same r s s' :
  set_free r = true ->
  same_text s s' ->
  forall pos, search_from fl r pos s = search_from fl r pos s'.
Proof.
  intros F Hs. induction Hs as [|x x' t t' Hx Ht IH]; intros pos; simpl.
  - reflexivity.
  - rewrite (match_at_same r false pos (x :: t) (x' :: t') F)
      by (constructor; assumption).
    rewrite IH. reflexivity.
Qed.

Lemma scan_same r s s' :
  set_free r = true ->
  same_text s s' ->
  forall pos skip, scan fl r pos s skip = scan fl r pos s' skip.
Proof.
  intros F Hs. induction Hs as [|x x' t t' Hx Ht IH]; intros pos skip; simpl.
  - reflexivity.
  - rewrite !(match_at_same r _ pos (x :: t) (x' :: t') F)
      by (constructor; assumption).
    destruct skip; [|apply IH].
    destruct (match_at fl r false pos (x' :: t')) as [mt|]; [|apply IH].
    destruct (m_end mt =? pos).
    + destruct (match_at fl r true pos (x' :: t')); rewrite IH; reflexivity.
    + rewrite IH. reflexivity.
Qed.

End IgnoreCase.

Lemma same_text_app a a' b b' :
  same_text a a' -> same_text b b' -> same_text (a ++ b) (a' ++ b').
Proof.
  intros Ha Hb. induction Ha; simpl; [assumption|constructor; assumption].
Qed.

Lemma same_text_rev a a' : same_text a a' -> same_text (rev a) (rev a').
Proof.
  intros Ha. induction Ha; simpl; [constructor|].
  apply same_text_app; [assumption|]. constructor; [assumption|constructor].
Qed.

Lemma same_text_lstrip a a' : same_text a a' -> same_text (lstrip a) (lstrip a').
Proof.
  intros Ha. induction Ha as [|x x' t t' Hx Ht IH]; simpl; [constructor|].
  rewrite (isspace_same _ _ Hx).
  destruct (isspace x'); [assumption|constructor; assumption].
Qed.

Lemma same_text_strip a a' : same_text a a' -> same_text (strip a) (strip a').
Proof.
  intros Ha. unfold strip, rstrip.
  apply same_text_rev, same_text_lstrip, same_text_rev, same_text_lstrip.
  assumption.
Qed.

Lemma same_text_skipn a a' : same_text a a' ->
  forall n, same_text (skipn n a) (skipn n a').
Proof.
  intros Ha. induction Ha; intros [|n]; simpl;
    try constructor; try assumption. apply IHHa.
Qed.

Lemma same_text_firstn a a' : same_text a a' ->
  forall n, same_text (firstn n a) (firstn n a').
Proof.
  intros Ha. induction Ha; intros [|n]; simpl;
    try constructor; try assumption. apply IHHa.
Qed.

Lemma same_text_slice a a' i j :
  same_text a a' -> same_text (slice a i j) (slice a' i j).
Proof.
  intros Ha. unfold slice. apply same_text_firstn, same_text_skipn. assumption.
Qed.

Lemma same_text_split_lines a a' :
  same_text a a' -> Forall2 same_text (split_lines a) (split_lines a').
Proof.
  intros Ha. induction Ha as [|x x' t t' Hx Ht IH]; simpl.
  - constructor; constructor.
  - rewrite (eqb_same 10%N _ _ eq_refl Hx).
    destruct (x' =? 10)%N.
    + constructor; [constructor|assumption].
    + destruct IH as [|l l' ls ls' Hl Hls].
      * constructor; [|constructor]. constructor; [assumption|constructor].
      * constructor; [|assumption]. constructor; assumption.
Qed.

Lemma finditer_same p s s' :
  set_free (re_ast p) = true ->
  same_text s s' -> finditer p IGNORECASE s = finditer p IGNORECASE s'.
Proof. intros F H. apply scan_same; [reflexivity|assumption|assumption]. Qed.

Lemma search_same p s s' :
  set_free (re_ast p) = true ->
  same_text s s' -> search p IGNORECASE s = search p IGNORECASE s'.
Proof. intros F H. apply search_from_same; [reflexivity|assumption|assumption]. Qed.

Lemma matches_any_same patterns s s' :
  forallb (fun p => set_free (re_ast p)) patterns = true ->
  same_text s s' -> matches_any patterns s = matches_any patterns s'.
Proof.
  intros F H. unfold matches_any. apply existsb_same.
  intros p Hp. rewrite (search_same p s s'); [reflexivity| |assumption].
  rewrite forallb_forall in F. apply F. assumption.
Qed.

Lemma captured_text_same p s s' mt :
  same_text s s' ->
  same_text (captured_text p s mt) (captured_text p s' mt).
Proof.
  intros H. unfold captured_text, captured, group.
  destruct (0 <? re_groups p).
  - destruct (lookup_cap 1 (m_caps mt)) as [[i j]|];
      [apply same_text_slice; assumption | constructor].
  - apply same_text_slice; assumption.
Qed.

Lemma make_record_same p n s s' mt :
  same_text s s' -> same_record (make_record p n s mt) (make_record p n s' mt).
Proof.
  intros H. unfold same_record, make_record; simpl.
  split; [reflexivity|]. split; apply fold_case_same_text.
  - apply same_text_strip, captured_text_same. assumption.
  - assumption.
Qed.

Lemma Forall2_map_same {A B} (R : B -> B -> Prop) (f g : A -> B) (l : list A) :
  (forall x, R (f x) (g x)) -> Forall2 R (map f l) (map g l).
Proof. intros H. induction l; simpl; constructor; auto. Qed.

Lemma records_same patterns n s s' :
  forallb (fun p => set_free (re_ast p)) patterns = true ->
  same_text s s' ->
  Forall2 same_record (records patterns n s) (records patterns n s').
Proof.
  intros F H. unfold records.
  induction patterns as [|p ps IH]; simpl; [constructor|].
  simpl in F. apply andb_true_iff in F. destruct F as [Fp Fps].
  apply Forall2_app; [|apply IH; assumption].
  rewrite (finditer_same p s s' Fp H).
  apply Forall2_map_same. intros mt. apply make_record_same. assumption.
Qed.

(** No pattern of the three passes has a character set. *)
Lemma exclude_patterns_set_free :
  forallb (fun p => set_free (re_ast p)) exclude_patterns = true.
Proof. vm_compute. reflexivity. Qed.

Lemma auxiliary_patterns_set_free :
  forallb (fun p => set_free (re_ast p)) auxiliary_patterns = true.
Proof. vm_compute. reflexivity. Qed.

Lemma warning_patterns_set_free :
  forallb (fun p => set_free (re_ast p)) warning_patterns = true.
Proof. vm_compute. reflexivity. Qed.

Lemma line_warnings_same n raw raw' :
  same_text raw raw' ->
  Forall2 same_record (line_warnings n raw) (line_warnings n raw').
Proof.
  intros H. pose proof (same_text_strip _ _ H) as Hs.
  unfold line_warnings, should_exclude.
  fold (matches_any exclude_patterns (strip raw)).
  fold (matches_any exclude_patterns (strip raw')).
  rewrite (matches_any_same exclude_patterns _ _ exclude_patterns_set_free Hs).
  rewrite (matches_any_same auxiliary_patterns _ _ auxiliary_patterns_set_free Hs).
  destruct (matches_any exclude_patterns (strip raw')); [constructor|].
  destruct (matches_any auxiliary_patterns (strip raw')); [constructor|].
  apply records_same; [apply warning_patterns_set_free|assumption].
Qed.

Lemma line_auxiliary_same n raw raw' :
  same_text raw raw' ->
  Forall2 same_record (line_auxiliary n raw) (line_auxiliary n raw').
Proof.
  intros H. pose proof (same_text_strip _ _ H) as Hs.
  unfold line_auxiliary, should_exclude.
  fold (matches_any exclude_patterns (strip raw)).
  fold (matches_any exclude_patterns (strip raw')).
  rewrite (matches_any_same exclude_patterns _ _ exclude_patterns_set_free Hs).
  destruct (matches_any exclude_patterns (strip raw')); [constructor|].
  apply records_same; [apply auxiliary_patterns_set_free|assumption].
Qed.

Lemma lines_same (f : nat -> str -> list diagnostic) lines lines' :
  (forall n raw raw', same_text raw raw' ->
                      Forall2 same_record (f n raw) (f n raw')) ->
  Forall2 same_text lines lines' ->
  forall start,
    Forall2 same_record
      (flat_map (fun nl => f (fst nl) (snd nl)) (enumerate start lines))
      (flat_map (fun nl => f (fst nl) (snd nl)) (enumerate start lines')).
Proof.
  intros Hf H. induction H as [|l l' ls ls' Hl Hls IH]; intros start; simpl.
  - constructor.
  - apply Forall2_app; [apply Hf; assumption | apply IH].
Qed.

(** C10.  Every pass of [parse_warnings] ignores letter case.  If two logs
    differ only in the case of ASCII letters, the function returns for both
    the same number of Warning records and the same number of
    AuxiliaryLayoutNotice records, record by record with the same line
    number and with texts that again differ in case only: the exclusion
    pass drops the same lines, the auxiliary pass and the warning pass
    find the same matches.  So a lower-case [latex warning: ...] line
    gives a Warning record, an upper-case [OVERFULL \HBOX ...] line gives
    an AuxiliaryLayoutNotice record and not a Warning, and an exclusion
    signature in another case ([latex font info:]) still drops its line. *)
Theorem parse_warnings_ignores_case :
  (forall log_content log_content' : str,
     fold_case log_content = fold_case log_content' ->
     exists warnings auxiliary_info warnings' auxiliary_info',
       parse_warnings log_content = Some (warnings, auxiliary_info) /\
       parse_warnings log_content' = Some (warnings', auxiliary_info') /\
       Forall2 same_record warnings warnings' /\
       Forall2 same_record auxiliary_info auxiliary_info') /\
  (exists w, parse_warnings (u "latex warning: Label(s) may have changed.")
             = Some ([w], []) /\
             text w = u "Label(s) may have changed.") /\
  (exists a, parse_warnings (u "latex warning: OVERFULL \HBOX (5.2pt too wide)")
             = Some ([], [a])) /\
  parse_warnings (u "latex font info: latex warning: x") = Some ([], []) /\
  parse_warnings (u "LaTeX Warning: x" ++ [10%N] ++ u "\OPENOUT3 Warning--y")
  = parse_warnings (u "LaTeX Warning: x").
Proof.
  split; [|split; [|split; [|split]]].
  - intros log_content log_content' H.
    apply fold_case_same_text in H. apply same_text_split_lines in H.
    rewrite !parse_warnings_spec. eexists _, _, _, _.
    split; [reflexivity|]. split; [reflexivity|]. split.
    + apply lines_same; [apply line_warnings_same | assumption].
    + apply lines_same; [apply line_auxiliary_same | assumption].
  - eexists. split; vm_compute; reflexivity.
  - eexists. vm_compute. reflexivity.
  - vm_compute. reflexivity.
  - vm_compute. reflexivity.
Qed.

(** ** The Pattern Extractor *)

Lemma incr_same key n c : incr key n c key = c key + n.
Proof. unfold incr. destruct key; reflexivity. Qed.

Lemma incr_other key n c k :
  count_key_eqb k key = false -> incr key n c k = c k.
Proof. unfold incr. intros ->. reflexivity. Qed.

(** A tally loop leaves every key but its own three alone. *)
Lemma tally_frame inner w wo total k : forall matches c,
  count_key_eqb k w = false -> count_key_eqb k wo = false ->
  count_key_eqb k total = false ->
  tally inner w wo total matches c k = c k.
Proof.
  induction matches as [|x rest IH]; intros c Hw Hwo Ht; simpl; [reflexivity|].
  rewrite IH by assumption.
  destruct (0 <? List.length (findall inner no_flags x)).
  - rewrite !incr_other by assumption. reflexivity.
  - rewrite incr_other by assumption. reflexivity.
Qed.

(** Each container adds one to exactly one of the two tallies. *)
Lemma tally_sum inner w wo total : forall matches c,
  count_key_eqb w wo = false -> count_key_eqb wo w = false ->
  count_key_eqb w total = false -> count_key_eqb wo total = false ->
  tally inner w wo total matches c w + tally inner w wo total matches c wo
  = c w + c wo + List.length matches.
Proof.
  induction matches as [|x rest IH]; intros c H1 H2 H3 H4; simpl; [lia|].
  rewrite IH by assumption.
  destruct (0 <? List.length (findall inner no_flags x)).
  - rewrite (incr_other total _ _ w H3), (incr_other total _ _ wo H4).
    rewrite incr_same, (incr_other w _ _ wo H2). lia.
  - rewrite incr_same, (incr_other wo _ _ w H1). lia.
Qed.

Lemma scan_file_sum kind content c :
  scan_file content c (with_key kind) + scan_file content c (without_key kind)
  = c (with_key kind) + c (without_key kind)
    + list_sum (map (fun p => List.length (findall p DOTALL content))
                    (container_patterns kind)).
Proof.
  unfold scan_file.
  destruct kind; cbn [with_key without_key container_patterns map list_sum];
    rewrite !incr_other by reflexivity;
    repeat first
      [ match goal with
        | |- context [tally ?i ?w ?wo ?t ?ms ?c0 ?k] =>
            rewrite (tally_frame i w wo t k ms c0) by reflexivity
        end
      | rewrite tally_sum by reflexivity ];
    unfold list_sum; cbn [fold_right]; lia.
Qed.

Lemma scan_files_sum kind : forall tex_files c,
  scan_files tex_files c (with_key kind)
  + scan_files tex_files c (without_key kind)
  = c (with_key kind) + c (without_key kind)
    + containers (container_patterns kind) tex_files.
Proof.
  induction tex_files as [|[|content] rest IH]; intros c; simpl.
  - lia.
  - apply IH.
  - rewrite IH, scan_file_sum. lia.
Qed.

(** C5.  For every tree of source files and each of the five container
    kinds, the "with sub-elements" and the "without sub-elements" tallies
    add up to the number of containers of that kind that the scan matched,
    and the totals that [count_figures_and_tables] returns are these
    numbers.  For the tree of the scenario, one file with a figure that
    holds two subfigures and one file with a figure that holds none:
    [figures_with_subfigures] is 1, [total_subfigures] is 2,
    [figures_without_subfigures] is 1 and the total of figures is 2. *)
Theorem with_and_without_add_up_to_the_containers :
  (forall kind tex_files,
     scan_files tex_files counts_zero (with_key kind)
     + scan_files tex_files counts_zero (without_key kind)
     = containers (container_patterns kind) tex_files) /\
  (forall tree,
     let r := count_figures_and_tables tree in
     let tex_files := files_of tree in
     figures r = containers (container_patterns Figure) tex_files /\
     tables r = containers (container_patterns Table) tex_files /\
     custom_plots r = containers (container_patterns CustomPlot) tex_files /\
     plot_containers r = containers (container_patterns TikzPicture) tex_files
                         + containers (container_patterns Axis) tex_files
                         + containers (container_patterns CustomPlot) tex_files) /\
  (let tex_files := [Readable figure_with_two_subfigures; Readable figure_alone] in
   let c := scan_files tex_files counts_zero in
   c figures_with_subfigures = 1 /\ c total_subfigures = 2 /\
   c figures_without_subfigures = 1 /\
   figures (count_figures_and_tables (Files tex_files)) = 2).
Proof.
  split; [|split].
  - intros kind tex_files. rewrite scan_files_sum. reflexivity.
  - intros [|tex_files] r tex_files'; subst r tex_files';
      [repeat split|].
    unfold count_figures_and_tables, summarize, files_of;
      cbn [figures tables custom_plots plot_containers].
    pose proof (scan_files_sum Figure tex_files counts_zero) as HF.
    pose proof (scan_files_sum Table tex_files counts_zero) as HT.
    pose proof (scan_files_sum CustomPlot tex_files counts_zero) as HP.
    pose proof (scan_files_sum TikzPicture tex_files counts_zero) as HK.
    pose proof (scan_files_sum Axis tex_files counts_zero) as HA.
    cbn [with_key without_key] in *. unfold counts_zero in *.
    repeat split; lia.
  - vm_compute. repeat split.
Qed.

Lemma scan_files_app : forall before after c,
  scan_files (before ++ after) c = scan_files after (scan_files before c).
Proof.
  induction before as [|[|content] rest IH]; intros after c; simpl;
    [reflexivity | apply IH | apply IH].
Qed.

Lemma equation_counts_app : forall before after d,
  equation_counts (before ++ after) d
  = equation_counts after (equation_counts before d).
Proof.
  induction before as [|[|content] rest IH]; intros after d; simpl;
    [reflexivity | apply IH | apply IH].
Qed.

Lemma scan_files_unreadable : forall tex_files c,
  Forall (fun f => f = Unreadable_source) tex_files ->
  scan_files tex_files c = c.
Proof.
  induction tex_files as [|f rest IH]; intros c H; [reflexivity|].
  inversion H as [|? ? Hf Hrest]; subst. simpl. apply IH. assumption.
Qed.

Lemma equation_counts_unreadable : forall tex_files d,
  Forall (fun f => f = Unreadable_source) tex_files ->
  equation_counts tex_files d = d.
Proof.
  induction tex_files as [|f rest IH]; intros d H; [reflexivity|].
  inversion H as [|? ? Hf Hrest]; subst. simpl. apply IH. assumption.
Qed.

(** The pattern of every equation environment compiles: reading the file
    is the only step of the equation scan that can fail. *)
Lemma equation_patterns_compile :
  forallb (fun env_type => is_some (re_compile (equation_pattern env_type)))
          (keys equation_types) = true.
Proof. vm_compute. reflexivity. Qed.

Lemma rmatch_literal_prefix fl :
  ignorecase fl = false ->
  forall r pos s c k res,
    rmatch fl r pos s c k = Some res ->
    starts_with (literal_prefix r) s = true.
Proof.
  intros I.
  induction r as [ | a | a min greedy | r1 IH1 greedy | r1 IH1 r2 IH2
                 | r1 IH1 r2 IH2 | g r1 IH1 | r1 IH1 ];
    intros pos s c k res H; try reflexivity.
  - destruct a as [l| | |]; try reflexivity.
    simpl in *. destruct s as [|x t]; [discriminate|].
    unfold literal_match in H. rewrite I in H. simpl in H.
    destruct (N.eqb_spec x l); [|discriminate].
    subst. rewrite N.eqb_refl. reflexivity.
  - destruct r1 as [ | [l| | |] | | | | | | ]; try reflexivity.
    simpl in *. destruct s as [|x t]; [discriminate|].
    unfold literal_match in H. rewrite I in H. simpl in H.
    destruct (N.eqb_spec x l); [|discriminate].
    subst. rewrite N.eqb_refl. simpl. eapply IH2. eassumption.
Qed.

Lemma match_at_literal_prefix fl r adv pos s mt :
  ignorecase fl = false ->
  match_at fl r adv pos s = Some mt ->
  m_start mt = pos /\ starts_with (literal_prefix r) s = true.
Proof.
  intros I H. unfold match_at in H.
  destruct (rmatch fl r pos s [] _) as [[e c]|] eqn:E; [|discriminate].
  inversion H; subst; simpl. split; [reflexivity|].
  eapply rmatch_literal_prefix; eassumption.
Qed.

(** Every match that the scan yields begins, at its start, with the
    literal prefix of the pattern. *)
Lemma scan_literal_prefix fl r :
  ignorecase fl = false ->
  forall s pos skip mt,
    In mt (scan fl r pos s skip) ->
    pos <= m_start mt /\
    starts_with (literal_prefix r) (skipn (m_start mt - pos) s) = true.
Proof.
  intros I.
  assert (forall adv pos s mt, match_at fl r adv pos s = Some mt ->
            pos <= m_start mt /\
            starts_with (literal_prefix r) (skipn (m_start mt - pos) s) = true)
    as Here.
  { intros adv pos s mt H.
    destruct (match_at_literal_prefix _ _ _ _ _ _ I H) as [-> Hp].
    rewrite Nat.sub_diag. simpl. split; [lia|assumption]. }
  assert (forall (t : str) x pos mt,
            S pos <= m_start mt /\
            starts_with (literal_prefix r) (skipn (m_start mt - S pos) t) = true ->
            pos <= m_start mt /\
            starts_with (literal_prefix r)
                        (skipn (m_start mt - pos) (x :: t)) = true)
    as Later.
  { intros t x pos mt [Hle Hp]. split; [lia|].
    replace (m_start mt - pos) with (S (m_start mt - S pos)) by lia.
    exact Hp. }
  induction s as [|x t IH]; intros pos skip mt H; simpl in H.
  - destruct skip; [|destruct H].
    destruct (match_at fl r false pos []) as [m0|] eqn:E; [|destruct H].
    destruct (m_end m0 =? pos).
    + destruct H as [<-|H]; [eapply Here; eassumption|].
      destruct (match_at fl r true pos []) as [m1|] eqn:E1; [|destruct H].
      destruct H as [<-|[]]. eapply Here; eassumption.
    + destruct H as [<-|[]]. eapply Here; eassumption.
  - destruct skip; [|apply Later, (IH _ _ _ H)].
    destruct (match_at fl r false pos (x :: t)) as [m0|] eqn:E;
      [|apply Later, (IH _ _ _ H)].
    destruct (m_end m0 =? pos).
    + destruct H as [<-|H]; [eapply Here; eassumption|].
      destruct (match_at fl r true pos (x :: t)) as [m1|] eqn:E1;
        [|apply Later, (IH _ _ _ H)].
      destruct H as [<-|H]; [eapply Here; eassumption|].
      apply Later, (IH _ _ _ H).
    + destruct H as [<-|H]; [eapply Here; eassumption|].
      apply Later, (IH _ _ _ H).
Qed.

Lemma starts_with_compatible a b : forall s,
  starts_with a s = true -> starts_with b s = true -> compatible a b = true.
Proof.
  revert b. induction a as [|x a IH]; intros [|y b] s Ha Hb; try reflexivity.
  destruct s as [|z s]; [discriminate|]. simpl in *.
  apply andb_true_iff in Ha. destruct Ha as [Hx Ha].
  apply andb_true_iff in Hb. destruct Hb as [Hy Hb].
  apply N.eqb_eq in Hx. apply N.eqb_eq in Hy. subst.
  rewrite N.eqb_refl. simpl. eapply IH; eassumption.
Qed.

(** Two patterns with incompatible literal prefixes never match at the
    same place. *)
Lemma incompatible_patterns_disjoint p q content m1 m2 :
  compatible (literal_prefix (re_ast p)) (literal_prefix (re_ast q)) = false ->
  In m1 (finditer p no_flags content) ->
  In m2 (finditer q no_flags content) ->
  m_start m1 <> m_start m2.
Proof.
  intros Hc H1 H2 E.
  destruct (scan_literal_prefix no_flags _ eq_refl _ _ _ _ H1) as [_ P1].
  destruct (scan_literal_prefix no_flags _ eq_refl _ _ _ _ H2) as [_ P2].
  rewrite E in P1.
  rewrite (starts_with_compatible _ _ _ P1 P2) in Hc. discriminate.
Qed.

(** C4 (where the code departs from it).  In the text [\begin{equation}*]
    there is one begin-marker of the equation family, the non-starred one.
    The scan counts it neither as [equation], whose pattern refuses a
    marker that a star follows, nor as [equation*]: both counts and the
    total stay zero.  The negative lookahead for a star stands after the
    closing brace, where the starred spelling never has its star.  The two
    counts are disjoint all the same: in no text do the pattern of a
    family and the pattern of its starred spelling match at the same
    place; and a marker that no star follows is counted once, under its
    own spelling. *)
Theorem begin_marker_before_a_star_is_not_counted :
  (forall family p p_star content m1 m2,
     In family label_families ->
     re_compile (equation_pattern family) = Some p ->
     re_compile (equation_pattern (family ++ u "*")) = Some p_star ->
     In m1 (finditer p no_flags content) ->
     In m2 (finditer p_star no_flags content) ->
     m_start m1 <> m_start m2) /\
  (let content := u "\begin{equation}*" in
   let d := equation_counts [Readable content] equation_types in
   begin_markers (u "equation") content = 1 /\
   dict_get (u "equation") d = 0 /\
   dict_get (u "equation*") d = 0 /\
   count_equations_detailed (Files [Readable content]) = 0) /\
  (let content := u "\begin{equation}x\begin{equation*}y" in
   let d := equation_counts [Readable content] equation_types in
   begin_markers (u "equation") content = 2 /\
   dict_get (u "equation") d = 1 /\
   dict_get (u "equation*") d = 1 /\
   count_equations_detailed (Files [Readable content]) = 2).
Proof.
  split; [|vm_compute; repeat split].
  intros family p p_star content m1 m2 Hf Hp Hs.
  apply incompatible_patterns_disjoint.
  simpl in Hf.
  repeat (destruct Hf as [<-|Hf];
          [vm_compute in Hp, Hs; injection Hp as <-; injection Hs as <-;
           reflexivity|]).
  destruct Hf.
Qed.

(** ** The Process Supervisor *)

Ltac run_script :=
  repeat (progress (
    cbv [compile_main_tex try_except try_finally bind ret raise tprint emit
         popen spinner_start spinner_stop kill signal_handler
         get_current_process set_current_process get_spinner set_spinner
         set_child pdf_exists is_some negb extend];
    cbn [current_process spinner child trace fst snd])).

(** A run in which latexmk is launched and is still running when the bound
    of [communicate] is reached. *)
Lemma compile_main_tex_timeout (w : world) (s0 : state) :
  main_tex_exists w = true -> mkdir_ok w = true -> latexmk_found w = true ->
  exceeds_timeout (latexmk_run w) -> interrupted_before w timeout = false ->
  compile_main_tex w s0
  = (Returns false,
     extend s0 None (Some false) (Some Running)
       [Print "Starting compilation of main.tex...";
        Print "Press Ctrl+C to cancel compilation at any time";
        SpinnerStart; Launch; SpinnerStop;
        Print "Timeout compiling main.tex"]).
Proof.
  intros H1 H2 H3 H4 H5.
  assert (communicate w = raise TimeoutExpired) as Hc.
  { unfold communicate.
    destruct (latexmk_run w) as [seconds rc out err|seconds rc|].
    - simpl in H4. apply N.leb_gt in H4. rewrite H4, H5. reflexivity.
    - simpl in H4. apply N.leb_gt in H4. rewrite H4, H5. reflexivity.
    - rewrite H5. reflexivity. }
  unfold compile_main_tex, popen. rewrite H1, H2, H3, Hc.
  run_script. rewrite <- !app_assoc. reflexivity.
Qed.

(** A run in which latexmk is launched and exits in time, uninterrupted. *)
Lemma compile_main_tex_exit (w : world) (s0 : state) seconds returncode stdout stderr :
  main_tex_exists w = true -> mkdir_ok w = true -> latexmk_found w = true ->
  latexmk_run w = Finishes seconds returncode stdout stderr ->
  (seconds <= timeout)%N -> interrupted_before w seconds = false ->
  compile_main_tex w s0
  = if (returncode =? 0)%Z then
      (Returns true,
       extend s0 None (Some false) (Some (Exited returncode))
         [Print "Starting compilation of main.tex...";
          Print "Press Ctrl+C to cancel compilation at any time";
          SpinnerStart; Launch; SpinnerStop;
          Print "Successfully compiled main.tex";
          Print (if pdf_exists w then "PDF created: output/main.pdf"
                 else "PDF file not found in output directory")])
    else
      (Returns false,
       extend s0 None (Some false) (Some (Exited returncode))
         ([Print "Starting compilation of main.tex...";
           Print "Press Ctrl+C to cancel compilation at any time";
           SpinnerStart; Launch; SpinnerStop;
           Print "Failed to compile main.tex"]
          ++ match stderr with
             | _ :: _ => [Print "Error output:"; PrintText stderr]
             | [] => []
             end)).
Proof.
  intros H1 H2 H3 H4 H5 H6.
  assert (communicate w
          = (set_child (Exited returncode) ;; ret (returncode, stdout, stderr)))
    as Hc.
  { unfold communicate. rewrite H4. apply N.leb_le in H5. rewrite H5, H6.
    reflexivity. }
  unfold compile_main_tex, popen. rewrite H1, H2, H3, Hc.
  destruct (returncode =? 0)%Z eqn:Hr.
  - unfold pdf_exists. destruct (pdf_size w); run_script; rewrite Hr;
      run_script; rewrite <- !app_assoc; reflexivity.
  - destruct stderr as [|x stderr']; run_script; rewrite Hr; run_script;
      rewrite <- !app_assoc; reflexivity.
Qed.

(** A run in which latexmk is launched and exits in time, uninterrupted,
    and what it wrote is not text. *)
Lemma compile_main_tex_garbled (w : world) (s0 : state) seconds returncode :
  main_tex_exists w = true -> mkdir_ok w = true -> latexmk_found w = true ->
  latexmk_run w = Garbles seconds returncode ->
  (seconds <= timeout)%N -> interrupted_before w seconds = false ->
  compile_main_tex w s0
  = (Returns false,
     extend s0 None (Some false) (Some (Exited returncode))
       [Print "Starting compilation of main.tex...";
        Print "Press Ctrl+C to cancel compilation at any time";
        SpinnerStart; Launch; SpinnerStop;
        Print "Exception compiling main.tex"]).
Proof.
  intros H1 H2 H3 H4 H5 H6.
  assert (communicate w = (set_child (Exited returncode) ;; raise Exception))
    as Hc.
  { unfold communicate. rewrite H4. apply N.leb_le in H5. rewrite H5, H6.
    reflexivity. }
  unfold compile_main_tex, popen. rewrite H1, H2, H3, Hc.
  run_script. rewrite <- !app_assoc. reflexivity.
Qed.

Lemma convert_outcome_any_state w s s' :
  fst (convert_to_pdfa w s) = fst (convert_to_pdfa w s').
Proof.
  unfold convert_to_pdfa. destruct (pdf_size w) as [n|]; [|reflexivity].
  destruct (gs w) as [| |[f|]|]; try reflexivity.
  destruct (n =? 0)%N; reflexivity.
Qed.

Lemma quiet_ret : quiet (ret tt).
Proof. intros s. exists s, []. rewrite app_nil_r. split; reflexivity. Qed.

Lemma quiet_emit e : quiet (emit e).
Proof. intros s. eexists _, [e]. split; reflexivity. Qed.

Lemma quiet_tprint msg : quiet (tprint msg).
Proof. apply quiet_emit. Qed.

Lemma quiet_report label values : quiet (report label values).
Proof. apply quiet_emit. Qed.

Lemma quiet_bind m k : quiet m -> quiet k -> quiet (m ;; k).
Proof.
  intros Hm Hk s. unfold bind.
  destruct (Hm s) as (s1 & e1 & -> & T1).
  destruct (Hk s1) as (s2 & e2 & -> & T2).
  exists s2, (e1 ++ e2). split; [reflexivity|].
  rewrite T2, T1, app_assoc. reflexivity.
Qed.

Lemma quiet_when b m : quiet m -> quiet (when b m).
Proof. intros H. destruct b; [exact H | apply quiet_ret]. Qed.

Lemma quiet_if (b : bool) m1 m2 :
  quiet m1 -> quiet m2 -> quiet (if b then m1 else m2).
Proof. intros H1 H2. destruct b; assumption. Qed.

Create HintDb quiet.
#[local] Hint Resolve quiet_ret quiet_emit quiet_tprint quiet_report
  quiet_bind quiet_when quiet_if : quiet.

Lemma quiet_report_containers total with_sub subs l1 l2 l3 :
  quiet (report_containers total with_sub subs l1 l2 l3).
Proof. unfold report_containers. auto 10 with quiet. Qed.

#[local] Hint Resolve quiet_report_containers : quiet.

(** What follows code that only prints is run, in a state with the events
    so far. *)
Lemma bind_quiet {A} m (k : unit -> M A) s :
  quiet m ->
  exists s', bind m k s = k tt s' /\ forall e, In e (trace s) -> In e (trace s').
Proof.
  intros H. unfold bind. destruct (H s) as (s' & events & -> & T).
  exists s'. split; [reflexivity|].
  intros e He. rewrite T. apply in_or_app. left. assumption.
Qed.

Lemma bind_assoc {A B C} (m : M A) (k1 : A -> M B) (k2 : B -> M C) s :
  bind (bind m k1) k2 s = bind m (fun x => bind (k1 x) k2) s.
Proof. unfold bind. destruct (m s) as [[a|e] s1]; reflexivity. Qed.

Ltac skip_prints :=
  repeat match goal with
         | |- context [bind ?m ?k ?s] =>
             let H := fresh in
             let K := fresh "Kept" in
             let s' := fresh "s" in
             destruct (bind_quiet m k s ltac:(auto 10 with quiet))
               as (s' & H & K);
             rewrite H; clear H
         end.

Lemma grows_quiet m : quiet m -> grows m.
Proof.
  intros H s. destruct (H s) as (s' & events & -> & T). exists events. exact T.
Qed.

Lemma grows_raise {A} e : grows (@raise A e).
Proof. intros s. exists []. rewrite app_nil_r. reflexivity. Qed.

Lemma grows_ret {A} (a : A) : grows (ret a).
Proof. intros s. exists []. rewrite app_nil_r. reflexivity. Qed.

Lemma grows_bind {A B} (m : M A) (k : A -> M B) :
  grows m -> (forall a, grows (k a)) -> grows (bind m k).
Proof.
  intros Hm Hk s. unfold bind. destruct (Hm s) as [e1 T1].
  destruct (m s) as [[a|x] s1]; simpl in T1.
  - destruct (Hk a s1) as [e2 T2]. exists (e1 ++ e2).
    rewrite T2, T1, app_assoc. reflexivity.
  - exists e1. exact T1.
Qed.

Lemma grows_if {A} (b : bool) (m1 m2 : M A) :
  grows m1 -> grows m2 -> grows (if b then m1 else m2).
Proof. intros H1 H2. destruct b; assumption. Qed.

Lemma grows_convert_to_pdfa w : grows (convert_to_pdfa w).
Proof.
  unfold convert_to_pdfa.
  destruct (pdf_size w) as [n|]; [|auto using grows_bind, grows_quiet, grows_ret with quiet].
  apply grows_bind; [apply grows_quiet; auto with quiet|]. intros _.
  destruct (gs w) as [| |[f|]|];
    try (apply grows_bind; [apply grows_quiet; auto with quiet|];
         intros _; apply grows_ret);
    try apply grows_raise.
  destruct (n =? 0)%N; [apply grows_raise|].
  apply grows_bind; [apply grows_quiet; auto with quiet|].
  intros _; apply grows_ret.
Qed.

(** Unless Ctrl+C comes, [compile_main_tex] returns. *)
Lemma compile_main_tex_returns w s :
  sigint_after w = None ->
  exists b s', compile_main_tex w s = (Returns b, s').
Proof.
  intros H.
  unfold compile_main_tex, popen, communicate, interrupted_before, pdf_exists.
  rewrite H.
  destruct (main_tex_exists w); [|run_script; do 2 eexists; reflexivity].
  destruct (mkdir_ok w); [|run_script; do 2 eexists; reflexivity].
  destruct (latexmk_found w); [|run_script; do 2 eexists; reflexivity].
  destruct (latexmk_run w) as [seconds rc out err|seconds rc|];
    [ |destruct (seconds <=? timeout)%N; run_script; do 2 eexists; reflexivity
      |run_script; do 2 eexists; reflexivity].
  destruct (seconds <=? timeout)%N; [|run_script; do 2 eexists; reflexivity].
  destruct (rc =? 0)%Z eqn:Hr.
  - destruct (pdf_size w); run_script; rewrite Hr; run_script;
      do 2 eexists; reflexivity.
  - destruct err; run_script; rewrite Hr; run_script;
      do 2 eexists; reflexivity.
Qed.

(** The exit status of [main] is decided by the compilation and, with
    [--pdfa], by whether the conversion raises; what the scans and the log
    analysis find has no part in it. *)
Lemma main_exit_status w pdfa :
  exit_status (main w pdfa)
  = status_after w pdfa (fst (compile_main_tex w state_at_compile)).
Proof.
  unfold exit_status, main.
  generalize (count_equations_detailed (tree w)) as equation_count.
  generalize (count_figures_and_tables (tree w)) as figure_counts.
  destruct (count_and_display_warnings (log_file w)) as [warning_count aux_count].
  intros figure_counts equation_count.
  match goal with
  | |- context [bind (tprint ?msg) ?k initial_state] =>
      change (bind (tprint msg) k initial_state) with (k tt state_at_compile)
  end.
  cbv beta.
  match goal with
  | |- context [bind (compile_main_tex w) ?k ?s] =>
      change (bind (compile_main_tex w) k s)
        with (match compile_main_tex w s with
              | (Returns a, s1) => k a s1
              | (Raises e, s1) => (Raises e, s1)
              end)
  end.
  destruct (compile_main_tex w _) as [[[|]|e] s2]; cbn [fst status_after].
  - skip_prints. destruct pdfa.
    + unfold when. rewrite !bind_assoc. skip_prints. rewrite !bind_assoc.
      match goal with
      | |- context [bind (convert_to_pdfa w) ?k ?s] =>
          change (bind (convert_to_pdfa w) k s)
            with (match convert_to_pdfa w s with
                  | (Returns a, s1) => k a s1
                  | (Raises e, s1) => (Raises e, s1)
                  end);
          rewrite <- (convert_outcome_any_state w s initial_state);
          destruct (convert_to_pdfa w s) as [[[|]|x] ?]
      end; cbn [fst]; skip_prints; reflexivity.
    + reflexivity.
  - skip_prints. reflexivity.
  - reflexivity.
Qed.

Lemma quiet_then {A} m (k : unit -> M A) s e :
  quiet m ->
  (forall s', In e (trace (snd (k tt s')))) ->
  In e (trace (snd (bind m k s))).
Proof.
  intros Hm Hk. unfold bind. destruct (Hm s) as (s' & events & -> & _).
  apply Hk.
Qed.

Lemma emit_then {A} e (k : unit -> M A) s :
  grows (k tt) -> In e (trace (snd (bind (emit e) k s))).
Proof.
  intros Hk. unfold bind, emit.
  match goal with |- context [k tt ?s1] => destruct (Hk s1) as [events T] end.
  rewrite T. simpl. apply in_or_app. left. apply in_or_app. right.
  left. reflexivity.
Qed.

#[local] Hint Resolve grows_quiet grows_raise grows_ret grows_bind grows_if
  grows_convert_to_pdfa : quiet.

(** Unless Ctrl+C comes, the summary of [main] carries the two counts that
    [count_and_display_warnings] returned. *)
Lemma main_reports_log_counts w pdfa :
  sigint_after w = None ->
  In (Report "Warnings" [fst (count_and_display_warnings (log_file w))])
     (trace (snd (main w pdfa initial_state))) /\
  In (Report "Layout notifications"
             [snd (count_and_display_warnings (log_file w))])
     (trace (snd (main w pdfa initial_state))).
Proof.
  intros H. unfold main.
  generalize (count_equations_detailed (tree w)) as equation_count.
  generalize (count_figures_and_tables (tree w)) as figure_counts.
  destruct (count_and_display_warnings (log_file w)) as [warning_count aux_count].
  intros figure_counts equation_count. cbn [fst snd].
  match goal with
  | |- context [bind (tprint ?msg) ?k initial_state] =>
      change (bind (tprint msg) k initial_state) with (k tt state_at_compile)
  end.
  cbv beta.
  match goal with
  | |- context [bind (compile_main_tex w) ?k ?s] =>
      change (bind (compile_main_tex w) k s)
        with (match compile_main_tex w s with
              | (Returns a, s1) => k a s1
              | (Raises e, s1) => (Raises e, s1)
              end)
  end.
  destruct (compile_main_tex_returns w state_at_compile H) as (b & s2 & ->).
  cbv beta iota zeta.
  split;
    repeat first
      [ apply emit_then; unfold when; auto 12 with quiet
      | apply quiet_then; [solve [auto 10 with quiet] | intros ?; cbv beta] ].
Qed.

(** C1 (where the code departs from it).  When latexmk runs past the bound
    of 6000 seconds, [compile_main_tex] stops the progress indicator,
    reports the timeout and returns [False], and [main] exits with status
    1; but the process is not killed.  The [finally] block clears
    [current_process] before the handler of [TimeoutExpired] runs, so the
    handler finds no handle, skips [kill()], and latexmk is left running. *)
Theorem timeout_leaves_the_process_running (w : world) (s0 : state) :
  main_tex_exists w = true -> mkdir_ok w = true -> latexmk_found w = true ->
  exceeds_timeout (latexmk_run w) -> interrupted_before w timeout = false ->
  exists s,
    compile_main_tex w s0 = (Returns false, s) /\
    trace s = trace s0 ++
              [Print "Starting compilation of main.tex...";
               Print "Press Ctrl+C to cancel compilation at any time";
               SpinnerStart; Launch; SpinnerStop;
               Print "Timeout compiling main.tex"] /\
    spinner s = Some false /\
    current_process s = None /\
    child s = Some Running /\
    forall pdfa, exit_status (main w pdfa) = 1.
Proof.
  intros H1 H2 H3 H4 H5. eexists.
  split; [apply compile_main_tex_timeout; assumption|].
  do 4 (split; [reflexivity|]).
  intros pdfa. rewrite main_exit_status.
  rewrite compile_main_tex_timeout by assumption. reflexivity.
Qed.


(** C8.  When [output/main.log] does not exist, [count_and_display_warnings]
    returns the pair (0, 0): no warning, no auxiliary notice, and no
    exception.  The run goes on: its summary reports zero warnings and
    zero layout notifications (unless Ctrl+C ends the compilation before),
    and its exit status is the one it has with any other log. *)
Theorem missing_log_gives_zero_counts :
  count_and_display_warnings Absent = (0, 0) /\
  (forall (w : world) (pdfa : bool),
     sigint_after w = None ->
     let s := snd (main (with_log w Absent) pdfa initial_state) in
     In (Report "Warnings" [0]) (trace s) /\
     In (Report "Layout notifications" [0]) (trace s)) /\
  (forall (w : world) (pdfa : bool) (l : file_state),
     exit_status (main (with_log w Absent) pdfa)
     = exit_status (main (with_log w l) pdfa)).
Proof.
  split; [reflexivity|]. split.
  - intros w pdfa H s.
    exact (main_reports_log_counts (with_log w Absent) pdfa H).
  - intros w pdfa l. rewrite !main_exit_status. reflexivity.
Qed.

(** ** The Process Supervisor, path by path *)

Lemma communicate_interrupted w :
  interrupted w = true -> communicate w = signal_handler w.
Proof.
  unfold interrupted, waiting_time, communicate.
  destruct (latexmk_run w) as [seconds rc out err|seconds rc|];
    [ | |intros ->; reflexivity];
    (destruct (N.leb_spec seconds timeout) as [H|H];
     [ rewrite N.min_l by assumption; intros ->; reflexivity
     | rewrite N.min_r by lia; intros ->; reflexivity ]).
Qed.

Lemma uninterrupted_before_exit w seconds rc out err :
  latexmk_run w = Finishes seconds rc out err -> (seconds <= timeout)%N ->
  interrupted w = false -> interrupted_before w seconds = false.
Proof.
  unfold interrupted, waiting_time. intros -> H.
  rewrite N.min_l by assumption. trivial.
Qed.

Lemma uninterrupted_before_garbled w seconds rc :
  latexmk_run w = Garbles seconds rc -> (seconds <= timeout)%N ->
  interrupted w = false -> interrupted_before w seconds = false.
Proof.
  unfold interrupted, waiting_time. intros -> H.
  rewrite N.min_l by assumption. trivial.
Qed.

Lemma uninterrupted_before_timeout w :
  exceeds_timeout (latexmk_run w) ->
  interrupted w = false -> interrupted_before w timeout = false.
Proof.
  unfold interrupted, waiting_time.
  destruct (latexmk_run w) as [seconds rc out err|seconds rc|]; simpl;
    [ | |trivial];
    intros H; rewrite N.min_r by lia; trivial.
Qed.

(** A run in which Ctrl+C comes while latexmk is running. *)
Lemma compile_main_tex_interrupted (w : world) (s0 : state) :
  main_tex_exists w = true -> mkdir_ok w = true -> latexmk_found w = true ->
  interrupted w = true ->
  compile_main_tex w s0
  = (Raises (SystemExit 130),
     extend s0 None (Some false) (Some (stopped w))
       ([Print "Starting compilation of main.tex...";
         Print "Press Ctrl+C to cancel compilation at any time";
         SpinnerStart; Launch;
         Print "Received interrupt signal (Ctrl+C)"; SpinnerStop;
         Print "Terminating compilation process..."; Terminate]
        ++ stopping w
        ++ [Print "Compilation cancelled by user"; SpinnerStop])).
Proof.
  intros H1 H2 H3 H4.
  unfold compile_main_tex, popen. rewrite H1, H2, H3.
  rewrite (communicate_interrupted w H4).
  unfold stopping, stopped.
  destruct (exits_on_terminate w) eqn:E; run_script; rewrite E; run_script;
    rewrite <- !app_assoc; reflexivity.
Qed.

(** The runs in which latexmk is not started. *)
Lemma compile_main_tex_no_source (w : world) (s0 : state) :
  main_tex_exists w = false ->
  compile_main_tex w s0
  = (Returns false,
     extend s0 (current_process s0) (spinner s0) (child s0)
       [Print "main.tex not found in current directory"]).
Proof. intros H. unfold compile_main_tex. rewrite H. reflexivity. Qed.

Lemma compile_main_tex_no_directory (w : world) (s0 : state) :
  main_tex_exists w = true -> mkdir_ok w = false ->
  compile_main_tex w s0
  = (Returns false,
     extend s0 (current_process s0) (spinner s0) (child s0)
       [Print "Exception compiling main.tex"]).
Proof. intros H1 H2. unfold compile_main_tex. rewrite H1, H2. reflexivity. Qed.

Lemma compile_main_tex_no_latexmk (w : world) (s0 : state) :
  main_tex_exists w = true -> mkdir_ok w = true -> latexmk_found w = false ->
  compile_main_tex w s0
  = (Returns false,
     extend s0 None (Some false) (child s0)
       [Print "Starting compilation of main.tex...";
        Print "Press Ctrl+C to cancel compilation at any time";
        SpinnerStart; SpinnerStop;
        Print "Exception compiling main.tex"]).
Proof.
  intros H1 H2 H3. unfold compile_main_tex, popen. rewrite H1, H2, H3.
  run_script. rewrite <- !app_assoc. reflexivity.
Qed.

(** Every run of [compile_main_tex] takes one of nine paths. *)
Ltac paths w s0 :=
  let Htex := fresh "Htex" in
  let Hdir := fresh "Hdir" in
  let Hfound := fresh "Hfound" in
  let Hint := fresh "Hint" in
  let Hrun := fresh "Hrun" in
  let Hsec := fresh "Hsec" in
  let seconds := fresh "seconds" in
  let rc := fresh "rc" in
  let out := fresh "out" in
  let err := fresh "err" in
  destruct (main_tex_exists w) eqn:Htex;
  [ destruct (mkdir_ok w) eqn:Hdir;
    [ destruct (latexmk_found w) eqn:Hfound;
      [ destruct (interrupted w) eqn:Hint;
        [ rewrite (compile_main_tex_interrupted w s0 Htex Hdir Hfound Hint)
        | destruct (latexmk_run w) as [seconds rc out err|seconds rc|] eqn:Hrun;
          [ destruct (N.leb_spec seconds timeout) as [Hsec|Hsec];
            [ rewrite (compile_main_tex_exit w s0 seconds rc out err
                         Htex Hdir Hfound Hrun Hsec
                         (uninterrupted_before_exit w seconds rc out err
                            Hrun Hsec Hint))
            | rewrite (compile_main_tex_timeout w s0 Htex Hdir Hfound
                         ltac:(rewrite Hrun; exact Hsec)
                         (uninterrupted_before_timeout w
                            ltac:(rewrite Hrun; exact Hsec) Hint)) ]
          | destruct (N.leb_spec seconds timeout) as [Hsec|Hsec];
            [ rewrite (compile_main_tex_garbled w s0 seconds rc
                         Htex Hdir Hfound Hrun Hsec
                         (uninterrupted_before_garbled w seconds rc
                            Hrun Hsec Hint))
            | rewrite (compile_main_tex_timeout w s0 Htex Hdir Hfound
                         ltac:(rewrite Hrun; exact Hsec)
                         (uninterrupted_before_timeout w
                            ltac:(rewrite Hrun; exact Hsec) Hint)) ]
          | rewrite (compile_main_tex_timeout w s0 Htex Hdir Hfound
                       ltac:(rewrite Hrun; exact I)
                       (uninterrupted_before_timeout w
                          ltac:(rewrite Hrun; exact I) Hint)) ] ]
      | rewrite (compile_main_tex_no_latexmk w s0 Htex Hdir Hfound) ]
    | rewrite (compile_main_tex_no_directory w s0 Htex Hdir) ]
  | rewrite (compile_main_tex_no_source w s0 Htex) ].

(** X1.  When Ctrl+C comes while latexmk is running, [signal_handler]
    stops the progress indicator, sends [terminate()] and, if the child
    does not exit within the grace period, [kill()]: the child is never
    left running.  [compile_main_tex] is left by [sys.exit(130)], its
    [finally] block clears [current_process], and [main] ends there, with
    exit status 130 and no summary. *)
Theorem interrupt_stops_the_child (w : world) (s0 : state) :
  main_tex_exists w = true -> mkdir_ok w = true -> latexmk_found w = true ->
  interrupted w = true ->
  exists s,
    compile_main_tex w s0 = (Raises (SystemExit 130), s) /\
    trace s = trace s0 ++
              [Print "Starting compilation of main.tex...";
               Print "Press Ctrl+C to cancel compilation at any time";
               SpinnerStart; Launch;
               Print "Received interrupt signal (Ctrl+C)"; SpinnerStop;
               Print "Terminating compilation process..."; Terminate]
              ++ stopping w
              ++ [Print "Compilation cancelled by user"; SpinnerStop] /\
    child s = Some (if exits_on_terminate w then Terminated else Killed) /\
    current_process s = None /\
    spinner s = Some false /\
    forall pdfa,
      exit_status (main w pdfa) = 130 /\
      snd (main w pdfa initial_state)
      = snd (compile_main_tex w state_at_compile).
Proof.
  intros H1 H2 H3 H4. eexists.
  split; [apply compile_main_tex_interrupted; assumption|].
  do 4 (split; [reflexivity|]).
  intros pdfa. split.
  - rewrite main_exit_status.
    rewrite compile_main_tex_interrupted by assumption. reflexivity.
  - unfold main.
    match goal with
    | |- context [bind (tprint ?msg) ?k initial_state] =>
        change (bind (tprint msg) k initial_state) with (k tt state_at_compile)
    end.
    cbv beta. unfold bind at 1.
    rewrite compile_main_tex_interrupted by assumption. reflexivity.
Qed.


(** X3.  [compile_main_tex] returns [True] only if latexmk was started,
    exited within the time bound with return code zero, and no Ctrl+C came
    before. *)
Theorem success_only_after_exit_code_zero (w : world) (s0 : state) :
  fst (compile_main_tex w s0) = Returns true ->
  ready w = true /\ interrupted w = false /\
  exists seconds stdout stderr,
    latexmk_run w = Finishes seconds 0 stdout stderr /\
    (seconds <= timeout)%N.
Proof.
  unfold ready. paths w s0; cbn [fst]; try discriminate.
  destruct (Z.eqb_spec rc 0) as [->|]; [|discriminate].
  intros _. repeat split. eauto.
Qed.

(** X4.  One call of [compile_main_tex] starts latexmk at most once, and
    only when [main.tex] exists, the output directory could be made and
    the program was found. *)
Theorem latexmk_is_launched_once_if_ready (w : world) (s0 : state) :
  launches (trace (snd (compile_main_tex w s0)))
  = launches (trace s0) + (if ready w then 1 else 0).
Proof.
  unfold ready, launches.
  paths w s0; try destruct (rc =? 0)%Z; try destruct err;
    unfold stopping; try destruct (exits_on_terminate w);
    cbn [snd extend trace andb]; rewrite filter_app, length_app;
    reflexivity.
Qed.

(** X5.  The child is sent [kill()] in one case only: Ctrl+C came while it
    was running and it did not exit within the grace period after
    [terminate()].  In particular no run sends [kill()] without a
    [terminate()] before it. *)
Theorem kill_only_after_terminate_failed (w : world) :
  In Kill (trace (snd (compile_main_tex w initial_state))) <->
  ready w = true /\ interrupted w = true /\ exits_on_terminate w = false.
Proof.
  unfold ready.
  paths w initial_state; try destruct (rc =? 0)%Z; try destruct err;
    unfold stopping; try destruct (exits_on_terminate w);
    cbn [snd extend trace andb initial_state app In];
    (split;
     [ intros H; repeat (destruct H as [H|H]; [discriminate H|]); try destruct H;
       repeat split
     | intros (? & ? & ?); try discriminate; tauto ]).
Qed.


(** ** The driver, line by line *)

























(** ** The Log Analyzer, record by record *)

Lemma records_full_line patterns n s d :
  In d (records patterns n s) -> full_line d = s.
Proof.
  unfold records. intros H. apply in_flat_map in H. destruct H as (p & _ & H).
  apply in_map_iff in H. destruct H as (mt & H & _). subst. reflexivity.
Qed.

Lemma records_text patterns n s d :
  In d (records patterns n s) ->
  exists p mt, text d = strip (captured_text p s mt).
Proof.
  unfold records. intros H. apply in_flat_map in H. destruct H as (p & _ & H).
  apply in_map_iff in H. destruct H as (mt & H & _). subst.
  exists p, mt. reflexivity.
Qed.

(** Every record of a line comes from one of the two passes over the
    line as stripped. *)
Lemma line_records n raw d :
  In d (line_warnings n raw ++ line_auxiliary n raw) ->
  In d (records warning_patterns n (strip raw)) \/
  In d (records auxiliary_patterns n (strip raw)).
Proof.
  unfold line_warnings, line_auxiliary. intros H.
  destruct (should_exclude (strip raw)); [destruct H|].
  apply in_app_or in H. destruct H as [H|H]; [|right; exact H].
  destruct (matches_any auxiliary_patterns (strip raw)); [destruct H|].
  left. exact H.
Qed.

Lemma in_parsed log_content d :
  In d (flat_map (fun nl => line_warnings (fst nl) (snd nl))
                 (enumerate 1 (split_lines log_content))
        ++ flat_map (fun nl => line_auxiliary (fst nl) (snd nl))
                    (enumerate 1 (split_lines log_content))) ->
  exists n raw,
    1 <= n /\ nth_error (split_lines log_content) (n - 1) = Some raw /\
    In d (line_warnings n raw ++ line_auxiliary n raw).
Proof.
  intros H. apply in_app_or in H.
  destruct H as [H|H]; apply in_flat_map in H;
    destruct H as ([n raw] & Hn & Hd); simpl in Hd;
    apply in_enumerate in Hn; destruct Hn as [Hle Hnth];
    exists n, raw; (split; [exact Hle|]); (split; [exact Hnth|]);
    apply in_or_app; [left | right]; exact Hd.
Qed.

(** X11.  [parse_warnings] never raises, whatever the log: in every
    pattern of its two passes group 1 takes part in every match, so the
    [.strip()] of the captured text is never called on [None].  Every
    record it returns carries the number of a line of the log, counted
    from 1, and that line, stripped, as its [full_line]. *)
Theorem records_point_at_their_lines (log_content : str) :
  exists warnings auxiliary_info,
    parse_warnings log_content = Some (warnings, auxiliary_info) /\
    forall d, In d (warnings ++ auxiliary_info) ->
      1 <= line d <= List.length (split_lines log_content) /\
      exists raw,
        nth_error (split_lines log_content) (line d - 1) = Some raw /\
        full_line d = strip raw.
Proof.
  rewrite parse_warnings_spec. eexists _, _. split; [reflexivity|].
  intros d H. apply in_parsed in H. destruct H as (n & raw & Hle & Hnth & H).
  assert (line d = n /\ full_line d = strip raw) as [Hline Hfull].
  { apply line_records in H.
    destruct H as [H|H]; (split; [eapply records_line | eapply records_full_line]);
      exact H. }
  rewrite Hline. split.
  - split; [exact Hle|].
    assert (n - 1 < List.length (split_lines log_content))
      by (apply nth_error_Some; congruence).
    lia.
  - exists raw. split; assumption.
Qed.

Lemma lstrip_suffix s : exists spaces, s = spaces ++ lstrip s.
Proof.
  induction s as [|c t [spaces IH]]; simpl.
  - exists []. reflexivity.
  - destruct (isspace c).
    + exists (c :: spaces). simpl. f_equal. exact IH.
    + exists []. reflexivity.
Qed.

Lemma rstrip_prefix s : exists spaces, s = rstrip s ++ spaces.
Proof.
  unfold rstrip. destruct (lstrip_suffix (rev s)) as [spaces H].
  exists (rev spaces). rewrite <- rev_app_distr, <- H, rev_involutive.
  reflexivity.
Qed.

Lemma part_of_refl s : part_of s s.
Proof. exists [], []. rewrite app_nil_r. reflexivity. Qed.

Lemma part_of_trans a b c : part_of a b -> part_of b c -> part_of a c.
Proof.
  intros (x & y & ->) (x' & y' & ->). exists (x' ++ x), (y ++ y').
  rewrite <- !app_assoc. reflexivity.
Qed.

Lemma part_of_strip s : part_of (strip s) s.
Proof.
  unfold strip. destruct (lstrip_suffix s) as [before H].
  destruct (rstrip_prefix (lstrip s)) as [after H'].
  exists before, after. rewrite <- H'. exact H.
Qed.

Lemma part_of_slice s i j : part_of (slice s i j) s.
Proof.
  unfold slice. exists (firstn i s), (skipn (j - i) (skipn i s)).
  rewrite firstn_skipn. rewrite firstn_skipn. reflexivity.
Qed.

Lemma part_of_nil s : part_of [] s.
Proof. exists [], s. reflexivity. Qed.

Lemma captured_text_part p s mt : part_of (captured_text p s mt) s.
Proof.
  unfold captured_text, captured, group.
  destruct (0 <? re_groups p).
  - destruct (lookup_cap 1 (m_caps mt)) as [[i j]|];
      [apply part_of_slice | apply part_of_nil].
  - apply part_of_slice.
Qed.

Lemma lstrip_lstrip s : lstrip (lstrip s) = lstrip s.
Proof.
  induction s as [|c t IH]; simpl; [reflexivity|].
  destruct (isspace c) eqn:E; [exact IH|]. simpl. rewrite E. reflexivity.
Qed.

Lemma rstrip_rstrip s : rstrip (rstrip s) = rstrip s.
Proof. unfold rstrip. rewrite rev_involutive, lstrip_lstrip. reflexivity. Qed.

(** What [lstrip] leaves starts with a character that is no white space. *)
Lemma lstrip_head s c t : lstrip s = c :: t -> isspace c = false.
Proof.
  induction s as [|x s IH]; simpl; [discriminate|].
  destruct (isspace x) eqn:E; [exact IH|].
  intros H. inversion H; subst. exact E.
Qed.

Lemma lstrip_keeps_end l c r :
  isspace c = false -> exists k, lstrip (l ++ c :: r) = k ++ c :: r.
Proof.
  intros Hc. induction l as [|x l [k IH]]; simpl.
  - rewrite Hc. exists []. reflexivity.
  - destruct (isspace x); [exists k; exact IH|].
    exists (x :: l). reflexivity.
Qed.

(** Taking white space off the end leaves the start as it is. *)
Lemma lstrip_rstrip s : lstrip (rstrip (lstrip s)) = rstrip (lstrip s).
Proof.
  destruct (lstrip s) as [|c t] eqn:E; [reflexivity|].
  pose proof (lstrip_head _ _ _ E) as Hc.
  unfold rstrip. simpl rev.
  destruct (lstrip_keeps_end (rev t) c [] Hc) as [k Hk].
  rewrite Hk, rev_app_distr. simpl. rewrite Hc. reflexivity.
Qed.

Lemma strip_strip s : strip (strip s) = strip s.
Proof. unfold strip. rewrite lstrip_rstrip, rstrip_rstrip. reflexivity. Qed.

(** X12.  The [text] of every record that [parse_warnings] returns is a
    piece of the record's line and has no white space at either end:
    stripping it again changes nothing. *)
Theorem record_text_is_a_stripped_piece_of_its_line (log_content : str) :
  exists warnings auxiliary_info,
    parse_warnings log_content = Some (warnings, auxiliary_info) /\
    forall d, In d (warnings ++ auxiliary_info) ->
      strip (text d) = text d /\ part_of (text d) (full_line d).
Proof.
  rewrite parse_warnings_spec. eexists _, _. split; [reflexivity|].
  intros d H. apply in_parsed in H. destruct H as (n & raw & _ & _ & H).
  apply line_records in H.
  assert (exists p mt, text d = strip (captured_text p (strip raw) mt) /\
                       full_line d = strip raw) as (p & mt & -> & ->).
  { destruct H as [H|H]; destruct (records_text _ _ _ _ H) as (p & mt & E);
      exists p, mt; (split; [exact E | eapply records_full_line; exact H]). }
  split; [apply strip_strip|].
  eapply part_of_trans; [apply part_of_strip | apply captured_text_part].
Qed.

Lemma StronglySorted_app {A} (R : A -> A -> Prop) l1 l2 :
  StronglySorted R l1 -> StronglySorted R l2 ->
  (forall x y, In x l1 -> In y l2 -> R x y) ->
  StronglySorted R (l1 ++ l2).
Proof.
  intros H1 H2 H. induction H1 as [|a l1 Hl1 IH Ha]; simpl; [exact H2|].
  constructor.
  - apply IH. intros x y Hx Hy. apply H; [right; exact Hx | exact Hy].
  - apply Forall_app. split; [exact Ha|].
    apply Forall_forall. intros y Hy. apply H; [left; reflexivity | exact Hy].
Qed.

Lemma StronglySorted_constant (l : list nat) n :
  (forall x, In x l -> x = n) -> StronglySorted le l.
Proof.
  induction l as [|a l IH]; intros H; constructor.
  - apply IH. intros x Hx. apply H. right. exact Hx.
  - apply Forall_forall. intros x Hx.
    rewrite (H a (or_introl eq_refl)), (H x (or_intror Hx)). constructor.
Qed.

Lemma lines_in_order (f : nat -> str -> list diagnostic) :
  (forall n r x, In x (f n r) -> line x = n) ->
  forall lines start,
    StronglySorted le
      (map line (flat_map (fun nl => f (fst nl) (snd nl))
                          (enumerate start lines))) /\
    forall d, In d (flat_map (fun nl => f (fst nl) (snd nl))
                             (enumerate start lines)) -> start <= line d.
Proof.
  intros Hf. induction lines as [|raw rest IH]; intros start; simpl.
  - split; [constructor | intros d []].
  - destruct (IH (S start)) as [Hsorted Hlow]. split.
    + rewrite map_app. apply StronglySorted_app.
      * apply (StronglySorted_constant _ start). intros x Hx.
        apply in_map_iff in Hx. destruct Hx as (d & <- & Hd).
        eapply Hf. exact Hd.
      * exact Hsorted.
      * intros x y Hx Hy.
        apply in_map_iff in Hx. destruct Hx as (d & <- & Hd).
        apply in_map_iff in Hy. destruct Hy as (d' & <- & Hd').
        rewrite (Hf _ _ _ Hd). apply Hlow in Hd'. lia.
    + intros d Hd. apply in_app_or in Hd. destruct Hd as [Hd|Hd].
      * rewrite (Hf _ _ _ Hd). constructor.
      * apply Hlow in Hd. lia.
Qed.

(** X13.  Both lists that [parse_warnings] returns are in the order of
    the log: the line numbers of the records never go down. *)
Theorem records_come_in_line_order (log_content : str) :
  exists warnings auxiliary_info,
    parse_warnings log_content = Some (warnings, auxiliary_info) /\
    StronglySorted le (map line warnings) /\
    StronglySorted le (map line auxiliary_info).
Proof.
  rewrite parse_warnings_spec. eexists _, _. split; [reflexivity|]. split.
  - apply (lines_in_order line_warnings line_warnings_line).
  - apply (lines_in_order line_auxiliary line_auxiliary_line).
Qed.

Lemma split_lines_cons s : exists l ls, split_lines s = l :: ls.
Proof.
  destruct s as [|c t]; simpl; [eauto|].
  destruct (c =? 10)%N; [eauto|]. destruct (split_lines t); eauto.
Qed.

(** A newline ends a line: the lines of [a], then the lines of [b]. *)
Lemma split_lines_app a b :
  split_lines (a ++ 10%N :: b) = split_lines a ++ split_lines b.
Proof.
  induction a as [|c a IH]; simpl; [reflexivity|].
  destruct (c =? 10)%N; [rewrite IH; reflexivity|].
  rewrite IH. destruct (split_lines_cons a) as (l & ls & ->). reflexivity.
Qed.

Lemma enumerate_app {A} (xs ys : list A) : forall start,
  enumerate start (xs ++ ys)
  = enumerate start xs ++ enumerate (List.length xs + start) ys.
Proof.
  induction xs as [|x xs IH]; intros start; simpl; [reflexivity|].
  rewrite IH. do 3 f_equal. lia.
Qed.

Lemma records_shift patterns k n s :
  records patterns (k + n) s = map (shift k) (records patterns n s).
Proof.
  unfold records. induction patterns as [|p ps IH]; simpl; [reflexivity|].
  rewrite map_app, IH, map_map. reflexivity.
Qed.

Lemma line_warnings_shift k n raw :
  line_warnings (k + n) raw = map (shift k) (line_warnings n raw).
Proof.
  unfold line_warnings. destruct (should_exclude (strip raw)); [reflexivity|].
  destruct (matches_any auxiliary_patterns (strip raw)); [reflexivity|].
  apply records_shift.
Qed.

Lemma line_auxiliary_shift k n raw :
  line_auxiliary (k + n) raw = map (shift k) (line_auxiliary n raw).
Proof.
  unfold line_auxiliary. destruct (should_exclude (strip raw)); [reflexivity|].
  apply records_shift.
Qed.

Lemma lines_shift (f : nat -> str -> list diagnostic) k :
  (forall n raw, f (k + n) raw = map (shift k) (f n raw)) ->
  forall lines start,
    flat_map (fun nl => f (fst nl) (snd nl)) (enumerate (k + start) lines)
    = map (shift k)
          (flat_map (fun nl => f (fst nl) (snd nl)) (enumerate start lines)).
Proof.
  intros Hf. induction lines as [|raw rest IH]; intros start; simpl;
    [reflexivity|].
  rewrite map_app, <- Hf. f_equal.
  replace (S (k + start)) with (k + S start) by lia. apply IH.
Qed.

(** X14.  [parse_warnings] keeps nothing from one line to the next: the
    records of a log that continues, after a newline, with another log
    are the records of the first, then the records of the second with
    their line numbers moved down by the lines of the first. *)
Theorem parse_warnings_goes_line_by_line (first second : str) :
  exists w1 a1 w2 a2,
    parse_warnings first = Some (w1, a1) /\
    parse_warnings second = Some (w2, a2) /\
    parse_warnings (first ++ [10%N] ++ second)
    = Some (w1 ++ map (shift (List.length (split_lines first))) w2,
            a1 ++ map (shift (List.length (split_lines first))) a2).
Proof.
  rewrite !parse_warnings_spec. eexists _, _, _, _.
  split; [reflexivity|]. split; [reflexivity|].
  simpl app. rewrite split_lines_app, enumerate_app, !flat_map_app.
  rewrite (lines_shift line_warnings _ (line_warnings_shift _)).
  rewrite (lines_shift line_auxiliary _ (line_auxiliary_shift _)).
  reflexivity.
Qed.

Lemma lines_same_stripped (f : nat -> str -> list diagnostic) :
  (forall n raw raw', same_stripped raw raw' -> f n raw = f n raw') ->
  forall lines lines', Forall2 same_stripped lines lines' ->
  forall start,
    flat_map (fun nl => f (fst nl) (snd nl)) (enumerate start lines)
    = flat_map (fun nl => f (fst nl) (snd nl)) (enumerate start lines').
Proof.
  intros Hf lines lines' H.
  induction H as [|l l' ls ls' Hl Hls IH]; intros start; simpl; [reflexivity|].
  rewrite (Hf _ _ _ Hl), IH. reflexivity.
Qed.

(** X15.  White space around a line of the log makes no difference: two
    logs whose lines are the same once stripped give the same records. *)
Theorem surrounding_white_space_is_ignored (log_content log_content' : str) :
  Forall2 same_stripped (split_lines log_content) (split_lines log_content') ->
  parse_warnings log_content = parse_warnings log_content'.
Proof.
  intros H. rewrite !parse_warnings_spec. f_equal. f_equal.
  - apply lines_same_stripped; [|exact H].
    intros n raw raw' E. unfold line_warnings. rewrite E. reflexivity.
  - apply lines_same_stripped; [|exact H].
    intros n raw raw' E. unfold line_auxiliary. rewrite E. reflexivity.
Qed.

Lemma lstrip_blank s : forallb isspace s = true -> lstrip s = [].
Proof.
  induction s as [|c t IH]; simpl; [reflexivity|].
  intros H. apply andb_true_iff in H. destruct H as [-> H]. apply IH, H.
Qed.

Lemma strip_blank s : forallb isspace s = true -> strip s = [].
Proof. intros H. unfold strip. rewrite lstrip_blank by exact H. reflexivity. Qed.

Lemma split_lines_blank s :
  forallb isspace s = true ->
  Forall (fun l => forallb isspace l = true) (split_lines s).
Proof.
  induction s as [|c t IH]; simpl; intros H.
  - constructor; [reflexivity|constructor].
  - apply andb_true_iff in H. destruct H as [Hc H]. specialize (IH H).
    destruct (c =? 10)%N; [constructor; [reflexivity|exact IH]|].
    destruct IH as [|l ls Hl Hls]; constructor; try constructor.
    + simpl. rewrite Hc. reflexivity.
    + simpl. rewrite Hc, Hl. reflexivity.
    + exact Hls.
Qed.

Lemma blank_line_gives_nothing n :
  line_warnings n [] = [] /\ line_auxiliary n [] = [].
Proof. split; vm_compute; reflexivity. Qed.

Lemma blank_lines_give_nothing (f : nat -> str -> list diagnostic) :
  (forall n raw, strip raw = [] -> f n raw = []) ->
  forall lines start,
    Forall (fun l => forallb isspace l = true) lines ->
    flat_map (fun nl => f (fst nl) (snd nl)) (enumerate start lines) = [].
Proof.
  intros Hf. induction lines as [|l ls IH]; intros start H; simpl;
    [reflexivity|].
  inversion H as [|? ? Hl Hls]; subst.
  rewrite (Hf _ _ (strip_blank _ Hl)), IH by exact Hls. reflexivity.
Qed.

(** X16.  A log with nothing but white space in it, the empty log
    included, gives no record. *)
Theorem blank_log_gives_no_record (log_content : str) :
  forallb isspace log_content = true ->
  parse_warnings log_content = Some ([], []).
Proof.
  intros H. rewrite parse_warnings_spec.
  pose proof (split_lines_blank _ H) as Hl.
  rewrite (blank_lines_give_nothing line_warnings), (blank_lines_give_nothing line_auxiliary);
    try exact Hl; try reflexivity.
  - intros n raw E. unfold line_auxiliary. rewrite E.
    exact (proj2 (blank_line_gives_nothing n)).
  - intros n raw E. unfold line_warnings. rewrite E.
    exact (proj1 (blank_line_gives_nothing n)).
Qed.

(** ** The Pattern Extractor, count by count *)

Lemma str_eqb_eq a b : str_eqb a b = true <-> a = b.
Proof.
  unfold str_eqb. destruct (list_eq_dec N.eq_dec a b); split;
    congruence.
Qed.

Lemma str_eqb_refl a : str_eqb a a = true.
Proof. apply str_eqb_eq. reflexivity. Qed.

(** *** The dictionary of counts *)

Lemma keys_dict_add key n d : keys (dict_add key n d) = keys d.
Proof.
  unfold keys. induction d as [|[k v] d IH]; simpl; [reflexivity|].
  destruct (str_eqb k key); simpl; [reflexivity|]. rewrite IH. reflexivity.
Qed.

(** Adding under a key changes the value found under that key, if it is a
    key of the dictionary, and no other. *)
Lemma dict_get_add key key' n d :
  dict_get key (dict_add key' n d)
  = dict_get key d + (if str_eqb key' key && has_key key d then n else 0).
Proof.
  unfold has_key, keys. induction d as [|[k v] d IH]; simpl.
  - rewrite andb_false_r. reflexivity.
  - destruct (str_eqb k key') eqn:E'; simpl.
    + apply str_eqb_eq in E'. subst k.
      destruct (str_eqb key' key) eqn:E; simpl; lia.
    + destruct (str_eqb k key) eqn:E; simpl.
      * apply str_eqb_eq in E. subst k.
        destruct (str_eqb key' key) eqn:E2; [|simpl; lia].
        apply str_eqb_eq in E2. subst key'.
        rewrite str_eqb_refl in E'. discriminate E'.
      * exact IH.
Qed.

Lemma values_dict_add key n d :
  list_sum (values (dict_add key n d))
  = list_sum (values d) + (if has_key key d then n else 0).
Proof.
  unfold has_key, keys, values. induction d as [|[k v] d IH]; simpl; [lia|].
  destruct (str_eqb k key); simpl; [lia|]. rewrite IH. lia.
Qed.

Lemma has_key_dict_add key key' n d :
  has_key key (dict_add key' n d) = has_key key d.
Proof. unfold has_key. rewrite keys_dict_add. reflexivity. Qed.

(** *** Counting the matches of a pattern of fixed length *)

Lemma rmatch_lit_then fl r k c :
  ignorecase fl = false ->
  forall l pos s,
    rmatch fl (lit_then l r) pos s c k
    = if starts_with l s
      then rmatch fl r (List.length l + pos) (skipn (List.length l) s) c k
      else None.
Proof.
  intros I. induction l as [|a l IH]; intros pos s; [reflexivity|].
  destruct s as [|x t]; [reflexivity|].
  cbn [lit_then rmatch atom_match starts_with List.length skipn].
  unfold literal_match. rewrite I. cbn [andb].
  rewrite (N.eqb_sym x a). destruct (a =? x)%N; [|reflexivity].
  cbn [andb]. rewrite IH. replace (List.length l + S pos) with (S (List.length l) + pos) by lia.
  reflexivity.
Qed.

Lemma starts_with_app l : forall s,
  starts_with l s = true -> s = l ++ skipn (List.length l) s.
Proof.
  induction l as [|a l IH]; intros s H; [reflexivity|].
  destruct s as [|x t]; [discriminate|]. simpl in *.
  apply andb_true_iff in H. destruct H as [E H]. apply N.eqb_eq in E.
  subst. f_equal. apply IH, H.
Qed.

(** An occurrence of [l'] does not start inside an occurrence of [l], if
    the first character of [l'] is none of the characters of [l] after
    the first. *)
Lemma starts_with_inside l l' s i :
  match l, l' with
  | _ :: t, b :: _ => contains b t = false
  | _, _ => False
  end ->
  starts_with l s = true ->
  0 < i < List.length l -> starts_with l' (skipn i s) = false.
Proof.
  intros Hu Hs Hi. destruct l as [|a l]; [destruct Hu|].
  destruct l' as [|b' l']; [destruct Hu|].
  rewrite (starts_with_app _ _ Hs).
  destruct i as [|i]; [lia|]. simpl in Hi. cbn [skipn app].
  rewrite skipn_app.
  destruct (skipn i l) as [|b rest] eqn:E.
  - apply (f_equal (@List.length _)) in E. rewrite length_skipn in E.
    simpl in E. lia.
  - cbn [app starts_with].
    assert (In b l) as Hb.
    { rewrite <- (firstn_skipn i l), E. apply in_or_app. right. left.
      reflexivity. }
    destruct (N.eqb_spec b' b) as [->|]; [|reflexivity].
    exfalso. unfold contains in Hu.
    assert (existsb (N.eqb b) l = true) as C
      by (apply existsb_exists; exists b; split; [exact Hb | apply N.eqb_refl]).
    congruence.
Qed.

(** Two occurrences of a text whose first character is unique in it do
    not overlap. *)
Lemma starts_with_apart l s i :
  head_unique l = true -> starts_with l s = true ->
  0 < i < List.length l -> starts_with l (skipn i s) = false.
Proof.
  intros Hu. apply starts_with_inside.
  destruct l as [|a l]; [discriminate|].
  simpl in Hu. apply negb_true_iff in Hu. exact Hu.
Qed.

Section Counting.

Variable fl : flags.
Variable r : regex.
Variable P : str -> bool.
Variable len : str -> nat.

Hypothesis long : forall s, P s = true -> 0 < len s.
Hypothesis found : forall adv pos s,
  P s = true ->
  exists mt, match_at fl r adv pos s = Some mt /\ m_end mt = len s + pos.
Hypothesis missed : forall adv pos s,
  P s = false -> match_at fl r adv pos s = None.
Hypothesis apart : forall s i,
  P s = true -> 0 < i < len s -> P (skipn i s) = false.
Hypothesis nowhere : P [] = false.

(** When the matches of a pattern start exactly where [P] holds, are not
    empty and cannot overlap, the scan finds one match for each place
    where [P] holds. *)
Lemma scan_hits : forall s pos skip,
  (forall i, i < skip -> P (skipn i s) = false) ->
  List.length (scan fl r pos s skip) = hits P s.
Proof.
  induction s as [|x t IH]; intros pos skip Hskip.
  - destruct skip; simpl; [|reflexivity].
    rewrite (missed false pos [] nowhere). reflexivity.
  - destruct skip as [|k].
    + cbn [scan hits]. destruct (P (x :: t)) eqn:E.
      * destruct (found false pos (x :: t) E) as (mt & -> & Hend).
        rewrite Hend. pose proof (long _ E) as Hlen.
        replace (len (x :: t) + pos =? pos) with false
          by (symmetry; apply Nat.eqb_neq; lia).
        cbn [List.length]. rewrite IH; [reflexivity|].
        intros i Hi. apply (apart (x :: t) (S i) E). lia.
      * rewrite (missed false pos (x :: t) E). apply IH. intros i Hi. lia.
    + cbn [scan hits].
      pose proof (Hskip 0 ltac:(lia)) as H0. cbn [skipn] in H0.
      rewrite H0. apply IH.
      intros i Hi. apply (Hskip (S i)). lia.
Qed.

End Counting.

Lemma occurrences_hits p s : occurrences p s = hits (starts_with p) s.
Proof. induction s as [|x t IH]; simpl; [reflexivity|]. rewrite IH. reflexivity. Qed.

(** The matches of a literal pattern are the occurrences of its text. *)
Lemma findall_literal fl p l content :
  ignorecase fl = false -> head_unique l = true ->
  re_ast p = literal l ->
  List.length (findall p fl content) = occurrences l content.
Proof.
  intros I Hu Hp. unfold findall, finditer. rewrite length_map, Hp.
  rewrite occurrences_hits.
  assert (0 < List.length l) as Hl by (destruct l; [discriminate | simpl; lia]).
  apply (scan_hits fl (literal l) (starts_with l) (fun _ => List.length l)).
  - intros _ _. exact Hl.
  - intros adv pos s Hs. unfold match_at, literal.
    rewrite rmatch_lit_then by exact I. rewrite Hs. cbn [rmatch].
    replace (List.length l + pos =? pos) with false
      by (symmetry; apply Nat.eqb_neq; lia).
    rewrite andb_false_r. eexists. split; reflexivity.
  - intros adv pos s Hs. unfold match_at, literal.
    rewrite rmatch_lit_then by exact I. rewrite Hs. reflexivity.
  - intros s i. apply starts_with_apart. exact Hu.
  - destruct l; [discriminate | reflexivity].
  - intros i Hi. lia.
Qed.

(** The matches of a literal pattern with a negative lookahead for one
    character are the occurrences of its text that the character does not
    follow. *)
Lemma findall_literal_unless fl p l x content :
  ignorecase fl = false -> head_unique l = true ->
  re_ast p = lit_then l (RSeq (RNotAhead (literal [x])) REmpty) ->
  List.length (findall p fl content) = occurrences_unless l x content.
Proof.
  intros I Hu Hp. unfold findall, finditer, occurrences_unless.
  rewrite length_map, Hp.
  assert (0 < List.length l) as Hl by (destruct l; [discriminate | simpl; lia]).
  assert (forall adv pos s,
            match_at fl (lit_then l (RSeq (RNotAhead (literal [x])) REmpty))
                     adv pos s
            = if starts_unless l x s
              then Some {| m_start := pos; m_end := List.length l + pos;
                           m_caps := [] |}
              else None) as Hm.
  { intros adv pos s. unfold match_at, starts_unless.
    rewrite rmatch_lit_then by exact I.
    destruct (starts_with l s); [|reflexivity].
    cbn [rmatch andb]. unfold literal. rewrite rmatch_lit_then by exact I.
    destruct (starts_with [x] (skipn (List.length l) s)); [reflexivity|].
    cbn [negb].
    replace (List.length l + pos =? pos) with false
      by (symmetry; apply Nat.eqb_neq; lia).
    rewrite andb_false_r. reflexivity. }
  apply (scan_hits fl _ (starts_unless l x) (fun _ => List.length l)).
  - intros _ _. exact Hl.
  - intros adv pos s Hs. rewrite Hm, Hs. eexists. split; reflexivity.
  - intros adv pos s Hs. rewrite Hm, Hs. reflexivity.
  - intros s i Hs Hi. unfold starts_unless in *.
    apply andb_true_iff in Hs. destruct Hs as [Hs _].
    rewrite (starts_with_apart l s i Hu Hs Hi). reflexivity.
  - unfold starts_unless. destruct l; [discriminate | reflexivity].
  - intros i Hi. lia.
Qed.

(** *** Equations *)

Lemma keys_scan_equations content : forall env_types d,
  keys (scan_equations env_types content d) = keys d.
Proof.
  induction env_types as [|k ks IH]; intros d; simpl; [reflexivity|].
  destruct (re_findall (equation_pattern k) no_flags content); [|reflexivity].
  rewrite IH. apply keys_dict_add.
Qed.

Lemma keys_equation_counts : forall tex_files d,
  keys (equation_counts tex_files d) = keys d.
Proof.
  induction tex_files as [|[|content] rest IH]; intros d; simpl;
    [reflexivity | apply IH |].
  rewrite IH. apply keys_scan_equations.
Qed.

(** The loop over the environment types adds, under each type, the
    matches of the type's pattern. *)
Lemma scan_equations_fold content : forall env_types d,
  forallb (fun k => is_some (re_compile (equation_pattern k))) env_types = true ->
  scan_equations env_types content d
  = fold_left (fun d k => dict_add k (equation_matches k content) d)
              env_types d.
Proof.
  induction env_types as [|k ks IH]; intros d H; simpl; [reflexivity|].
  simpl in H. apply andb_true_iff in H. destruct H as [Hk Hks].
  unfold equation_matches at 2, re_findall.
  destruct (re_compile (equation_pattern k)); [|discriminate].
  apply IH. exact Hks.
Qed.

Lemma dict_get_fold (m : str -> nat) key : forall ks d,
  NoDup ks ->
  dict_get key (fold_left (fun d k => dict_add k (m k) d) ks d)
  = dict_get key d
    + (if existsb (fun k => str_eqb k key) ks && has_key key d
       then m key else 0).
Proof.
  induction ks as [|k ks IH]; intros d H; simpl; [lia|].
  inversion H as [|? ? Hk Hks]; subst.
  rewrite IH by exact Hks. rewrite dict_get_add, has_key_dict_add.
  destruct (str_eqb k key) eqn:E; simpl; [|lia].
  apply str_eqb_eq in E. subst k.
  replace (existsb (fun k => str_eqb k key) ks) with false; [simpl; lia|].
  symmetry. apply not_true_iff_false. intros C.
  apply existsb_exists in C. destruct C as (k & Hin & Ek).
  apply str_eqb_eq in Ek. subst. contradiction.
Qed.

Lemma values_fold (m : str -> nat) : forall ks d,
  forallb (fun k => has_key k d) ks = true ->
  list_sum (values (fold_left (fun d k => dict_add k (m k) d) ks d))
  = list_sum (values d) + list_sum (map m ks).
Proof.
  induction ks as [|k ks IH]; intros d H; simpl; [lia|].
  simpl in H. apply andb_true_iff in H. destruct H as [Hk Hks].
  rewrite IH.
  - rewrite values_dict_add, Hk. lia.
  - rewrite forallb_forall in *. intros x Hx.
    rewrite has_key_dict_add. apply Hks, Hx.
Qed.

Lemma list_sum_cons a l : list_sum (a :: l) = a + list_sum l.
Proof. reflexivity. Qed.

Lemma equation_types_distinct : NoDup (keys equation_types).
Proof.
  repeat (constructor;
          [ intros H; vm_compute in H;
            repeat (destruct H as [H|H]; [discriminate H|]); exact H | ]).
  constructor.
Qed.

Lemma equation_types_present :
  forallb (fun k => has_key k equation_types) (keys equation_types) = true.
Proof. vm_compute. reflexivity. Qed.

(** What each file adds to the count of an environment type and to the
    total, for a dictionary with the keys of [equation_types]. *)
Lemma equation_counts_get key : forall tex_files d,
  keys d = keys equation_types ->
  dict_get key (equation_counts tex_files d)
  = dict_get key d
    + (if has_key key d
       then list_sum (map (equation_matches key) (readable tex_files))
       else 0).
Proof.
  induction tex_files as [|[|content] rest IH]; intros d Hd; simpl.
  - destruct (has_key key d); lia.
  - apply IH, Hd.
  - rewrite IH by (rewrite keys_scan_equations; exact Hd).
    unfold has_key at 1. rewrite keys_scan_equations. fold (has_key key d).
    rewrite Hd, scan_equations_fold by apply equation_patterns_compile.
    rewrite dict_get_fold by apply equation_types_distinct.
    unfold has_key. rewrite Hd.
    destruct (existsb (fun k => str_eqb k key) (keys equation_types));
      cbn [andb]; lia.
Qed.

Lemma equation_counts_total : forall tex_files d,
  keys d = keys equation_types ->
  list_sum (values (equation_counts tex_files d))
  = list_sum (values d)
    + list_sum (map (fun content =>
                       list_sum (map (fun k => equation_matches k content)
                                     (keys equation_types)))
                    (readable tex_files)).
Proof.
  induction tex_files as [|[|content] rest IH]; intros d Hd;
    cbn [equation_counts readable map].
  - simpl. lia.
  - apply IH, Hd.
  - rewrite IH by (rewrite keys_scan_equations; exact Hd).
    rewrite Hd, scan_equations_fold by apply equation_patterns_compile.
    rewrite values_fold, list_sum_cons; [lia|].
    unfold has_key. rewrite Hd. apply equation_types_present.
Qed.

Lemma equation_types_start key : dict_get key equation_types = 0.
Proof.
  unfold equation_types. cbn [dict_get].
  repeat match goal with
         | |- context [str_eqb ?k key] => destruct (str_eqb k key)
         end; reflexivity.
Qed.

(** The two patterns of a label family: what they match, and where the
    dictionary keeps their counts. *)
Lemma label_families_patterns :
  Forall (fun family =>
            (forall content,
               equation_matches (family ++ u "*") content
               = occurrences (u "\begin{" ++ family ++ u "*}") content /\
               equation_matches family content
               = occurrences_unless (u "\begin{" ++ family ++ u "}") (ch "*")
                                    content) /\
            has_key family equation_types = true /\
            has_key (family ++ u "*") equation_types = true)
         label_families.
Proof.
  unfold label_families.
  repeat (apply Forall_cons;
          [ split;
            [ intros content; split; unfold equation_matches, re_findall;
              match goal with
              | |- context [re_compile ?t] =>
                  destruct (re_compile t) as [p|] eqn:E;
                  vm_compute in E; [injection E as <- | discriminate E]
              end;
              [ apply findall_literal | apply findall_literal_unless ];
              vm_compute; reflexivity
            | split; vm_compute; reflexivity ]
          | ]).
  apply Forall_nil.
Qed.

Lemma list_sum_add {A} (f g : A -> nat) (l : list A) :
  list_sum (map (fun x => f x + g x) l)
  = list_sum (map f l) + list_sum (map g l).
Proof.
  induction l as [|x l IH]; [reflexivity|].
  cbn [map]. rewrite !list_sum_cons, IH. lia.
Qed.

(** The total over the files and the environment types is the total over
    the environment types and the files. *)
Lemma list_sum_swap {A B} (m : A -> B -> nat) (ks : list A) :
  forall contents,
    list_sum (map (fun c => list_sum (map (fun k => m k c) ks)) contents)
    = list_sum (map (fun k => list_sum (map (m k) contents)) ks).
Proof.
  induction contents as [|c contents IH]; cbn [map].
  - induction ks as [|k ks IHk]; [reflexivity|].
    cbn [map]. rewrite list_sum_cons, <- IHk. reflexivity.
  - rewrite list_sum_cons, IH.
    rewrite <- list_sum_add. f_equal.
Qed.

Lemma equation_types_by_family :
  keys equation_types
  = flat_map (fun family => [family; family ++ u "*"]) label_families.
Proof. vm_compute. reflexivity. Qed.

Lemma list_sum_pairs {A} (f : A -> nat) (h : A -> A) (l : list A) :
  list_sum (map f (flat_map (fun x => [x; h x]) l))
  = list_sum (map (fun x => f x + f (h x)) l).
Proof.
  induction l as [|x l IH]; [reflexivity|].
  cbn [flat_map map app]. rewrite !list_sum_cons, IH. lia.
Qed.

(** X17.  What [count_equations_detailed] counts, for every tree of source
    files.  Under a starred environment type it counts every occurrence of
    the type's begin-marker in the files it could read; under a
    non-starred type, the occurrences of the begin-marker that no star
    follows.  The total it returns is the sum of these eight counts. *)
Theorem equation_counts_are_marker_counts (tex_files : list source_file) :
  let d := equation_counts tex_files equation_types in
  Forall (fun family =>
            dict_get (family ++ u "*") d
            = list_sum (map (occurrences (u "\begin{" ++ family ++ u "*}"))
                            (readable tex_files)) /\
            dict_get family d
            = list_sum (map (occurrences_unless
                               (u "\begin{" ++ family ++ u "}") (ch "*"))
                            (readable tex_files)))
         label_families /\
  count_equations_detailed (Files tex_files)
  = list_sum (map (fun family =>
                     dict_get family d + dict_get (family ++ u "*") d)
                  label_families).
Proof.
  intros d. subst d. split.
  - eapply Forall_impl; [|apply label_families_patterns].
    intros family (Hm & H1 & H2).
    rewrite !equation_counts_get by reflexivity.
    rewrite H1, H2, !equation_types_start. cbn [plus].
    split; f_equal; apply map_ext; intros content; apply Hm.
  - unfold count_equations_detailed.
    rewrite equation_counts_total by reflexivity.
    rewrite list_sum_swap, equation_types_by_family, list_sum_pairs.
    cbn [values equation_types map snd list_sum fold_right plus].
    f_equal. apply map_ext_in. intros family Hin.
    pose proof label_families_patterns as H.
    rewrite Forall_forall in H. destruct (H family Hin) as (_ & H1 & H2).
    rewrite !equation_counts_get by reflexivity.
    rewrite H1, H2, !equation_types_start. reflexivity.
Qed.

Lemma readable_app before after :
  readable (before ++ after) = readable before ++ readable after.
Proof.
  induction before as [|[|content] rest IH]; simpl; [reflexivity | exact IH |].
  rewrite IH. reflexivity.
Qed.

Lemma readable_permutation tex_files tex_files' :
  Permutation tex_files tex_files' ->
  Permutation (readable tex_files) (readable tex_files').
Proof.
  intros H. induction H as [|f l l' H IH|f g l|l l' l'' H1 IH1 H2 IH2].
  - constructor.
  - destruct f; simpl; [exact IH | constructor; exact IH].
  - destruct f, g; simpl; try apply Permutation_refl. constructor.
  - eapply Permutation_trans; eassumption.
Qed.

Lemma list_sum_permutation l l' :
  Permutation l l' -> list_sum l = list_sum l'.
Proof.
  intros H. induction H; rewrite ?list_sum_cons; lia.
Qed.

Lemma count_equations_by_file tex_files :
  count_equations_detailed (Files tex_files)
  = list_sum (map (fun content =>
                     list_sum (map (fun k => equation_matches k content)
                                   (keys equation_types)))
                  (readable tex_files)).
Proof.
  unfold count_equations_detailed.
  rewrite equation_counts_total by reflexivity. reflexivity.
Qed.

(** X18.  The total of equations is made up file by file: the total of a
    tree is the sum of the totals of its parts, and the order in which
    the files are found makes no difference. *)
Theorem equation_total_adds_up_file_by_file :
  (forall before after,
     count_equations_detailed (Files (before ++ after))
     = count_equations_detailed (Files before)
       + count_equations_detailed (Files after)) /\
  (forall tex_files tex_files',
     Permutation tex_files tex_files' ->
     count_equations_detailed (Files tex_files)
     = count_equations_detailed (Files tex_files')).
Proof.
  split.
  - intros before after. rewrite !count_equations_by_file.
    rewrite readable_app, map_app, list_sum_app. reflexivity.
  - intros tex_files tex_files' H. rewrite !count_equations_by_file.
    apply list_sum_permutation, Permutation_map, readable_permutation, H.
Qed.

(** *** Figures, tables and plots *)

(** What a tally loop adds under its three keys. *)
Lemma tally_adds inner w wo total : forall matches c,
  count_key_eqb w wo = false -> count_key_eqb wo w = false ->
  count_key_eqb w total = false -> count_key_eqb wo total = false ->
  count_key_eqb total w = false -> count_key_eqb total wo = false ->
  let n := fun x => List.length (findall inner no_flags x) in
  tally inner w wo total matches c w
  = c w + List.length (filter (fun x => 0 <? n x) matches) /\
  tally inner w wo total matches c wo
  = c wo + List.length (filter (fun x => n x =? 0) matches) /\
  tally inner w wo total matches c total
  = c total + list_sum (map n matches).
Proof.
  intros matches c H1 H2 H3 H4 H5 H6 n.
  revert c. induction matches as [|x rest IH]; intros c.
  - simpl. repeat split; lia.
  - cbn [tally filter map]. rewrite list_sum_cons. fold (n x).
    destruct (IH (if 0 <? n x then incr total (n x) (incr w 1 c)
                  else incr wo 1 c)) as (-> & -> & ->).
    destruct (n x) as [|k] eqn:E; cbn [Nat.ltb Nat.leb Nat.eqb List.length].
    + rewrite incr_same, (incr_other wo _ _ w H1), (incr_other wo _ _ total H6).
      repeat split; lia.
    + rewrite (incr_other total _ _ w H3), (incr_other total _ _ wo H4).
      rewrite !incr_same, (incr_other w _ _ wo H2), (incr_other w _ _ total H5).
      repeat split; lia.
Qed.

Lemma additive_incr key n : additive (incr key n).
Proof.
  intros c k. unfold incr, counts_zero. destruct (count_key_eqb k key); lia.
Qed.

Lemma additive_compose F G :
  additive F -> additive G -> additive (fun c => G (F c)).
Proof.
  intros HF HG c k. rewrite (HG (F c)), (HG (F counts_zero)), (HF c). lia.
Qed.

Lemma additive_tally inner w wo total matches :
  additive (tally inner w wo total matches).
Proof.
  induction matches as [|x rest IH];
    [intros c k; simpl; unfold counts_zero; lia|].
  cbn [tally].
  destruct (0 <? List.length (findall inner no_flags x)).
  - apply (additive_compose (fun c => incr total _ (incr w 1 c))
                            (tally inner w wo total rest));
      [|exact IH].
    apply (additive_compose (incr w 1) (incr total _));
      apply additive_incr.
  - apply (additive_compose (incr wo 1) (tally inner w wo total rest));
      [apply additive_incr | exact IH].
Qed.

Lemma additive_id : additive (fun c => c).
Proof. intros c k. unfold counts_zero. lia. Qed.

Lemma additive_scan_file content : additive (scan_file content).
Proof.
  unfold scan_file.
  repeat match goal with
         | |- additive (fun c => incr ?key ?n (@?F c)) =>
             apply (additive_compose F (incr key n)); [|apply additive_incr]
         | |- additive (fun c => tally ?i ?w ?wo ?t ?ms (@?F c)) =>
             apply (additive_compose F (tally i w wo t ms));
             [|apply additive_tally]
         end.
  apply additive_id.
Qed.

(** The counts of a tree are the sums, over the files that could be read,
    of what each file gives on its own. *)
Lemma scan_files_by_file k : forall tex_files c,
  scan_files tex_files c k
  = c k + list_sum (map (fun content => scan_file content counts_zero k)
                        (readable tex_files)).
Proof.
  induction tex_files as [|[|content] rest IH]; intros c;
    cbn [scan_files readable map].
  - simpl. lia.
  - apply IH.
  - rewrite IH, list_sum_cons, (additive_scan_file content c k). lia.
Qed.

Lemma summarize_ext c c' :
  (forall k, c k = c' k) -> summarize c = summarize c'.
Proof. intros H. unfold summarize. rewrite !H. reflexivity. Qed.

Lemma summarize_add c c' :
  summarize (fun k => c k + c' k) = summary_add (summarize c) (summarize c').
Proof. unfold summarize, summary_add. simpl. f_equal; lia. Qed.

(** X19.  The counts of figures, tables and plots are made up file by
    file as well: the summary of a tree is the sum, entry by entry, of
    the summaries of its parts, and the order in which the files are
    found makes no difference. *)
Theorem figure_counts_add_up_file_by_file :
  (forall before after,
     count_figures_and_tables (Files (before ++ after))
     = summary_add (count_figures_and_tables (Files before))
                   (count_figures_and_tables (Files after))) /\
  (forall tex_files tex_files',
     Permutation tex_files tex_files' ->
     count_figures_and_tables (Files tex_files)
     = count_figures_and_tables (Files tex_files')).
Proof.
  split.
  - intros before after. unfold count_figures_and_tables.
    rewrite <- summarize_add. apply summarize_ext. intros k.
    rewrite !scan_files_by_file, readable_app, map_app, list_sum_app.
    unfold counts_zero. lia.
  - intros tex_files tex_files' H. unfold count_figures_and_tables.
    apply summarize_ext. intros k. rewrite !scan_files_by_file. f_equal.
    apply list_sum_permutation, Permutation_map, readable_permutation, H.
Qed.

(** *** All zeros *)

Lemma summarize_zero c :
  summarize c = summary_zero <-> forall k, c k = 0.
Proof.
  split.
  - intros H k. unfold summarize, summary_zero in H.
    injection H as H1 H2 H3 H4 H5 H6 H7 H8 H9 H10 H11 H12 H13.
    destruct k; lia.
  - intros H. unfold summarize, summary_zero. rewrite !H. reflexivity.
Qed.

Lemma list_sum_zero l :
  list_sum l = 0 <-> forall n, In n l -> n = 0.
Proof.
  induction l as [|x l IH]; [simpl; tauto|].
  rewrite list_sum_cons. split.
  - intros H n [<-|Hn]; [lia|]. apply IH; [lia | exact Hn].
  - intros H. rewrite (H x) by (left; reflexivity).
    apply IH. intros n Hn. apply H. right. exact Hn.
Qed.

Lemma list_sum_map_zero {A} (f : A -> nat) l :
  list_sum (map f l) = 0 <-> forall a, In a l -> f a = 0.
Proof.
  rewrite list_sum_zero. split.
  - intros H a Ha. apply H, in_map, Ha.
  - intros H n Hn. apply in_map_iff in Hn. destruct Hn as (a & <- & Ha).
    apply H, Ha.
Qed.

Lemma in_readable content : forall tex_files,
  In content (readable tex_files) <-> In (Readable content) tex_files.
Proof.
  induction tex_files as [|[|c] rest IH]; cbn [readable In].
  - split; intros [].
  - split.
    + intros H. right. apply IH, H.
    + intros [H|H]; [discriminate H | apply IH, H].
  - split.
    + intros [H|H]; [left; rewrite H; reflexivity | right; apply IH, H].
    + intros [H|H]; [left; injection H; intros E; exact E
                    | right; apply IH, H].
Qed.

(** The summary of a tree is all zeros exactly if the summary of each
    file that could be read is. *)
Lemma figures_zero_by_file tex_files :
  count_figures_and_tables (Files tex_files) = summary_zero <->
  forall content,
    In (Readable content) tex_files ->
    count_figures_and_tables (Files [Readable content]) = summary_zero.
Proof.
  unfold count_figures_and_tables. rewrite summarize_zero. split.
  - intros H content Hin. apply summarize_zero. intros k.
    specialize (H k). rewrite scan_files_by_file in H.
    unfold counts_zero in H at 1. cbn [plus] in H.
    apply (proj1 (list_sum_map_zero _ _) H). apply in_readable, Hin.
  - intros H k. rewrite scan_files_by_file. unfold counts_zero at 1.
    cbn [plus]. apply list_sum_map_zero. intros content Hin.
    apply in_readable in Hin.
    exact (proj1 (summarize_zero _) (H content Hin) k).
Qed.

(** The total of equations of a tree is zero exactly if the total of each
    file that could be read is. *)
Lemma equations_zero_by_file tex_files :
  count_equations_detailed (Files tex_files) = 0 <->
  forall content,
    In (Readable content) tex_files ->
    count_equations_detailed (Files [Readable content]) = 0.
Proof.
  rewrite count_equations_by_file, list_sum_map_zero. split.
  - intros H content Hin. rewrite count_equations_by_file.
    cbn [readable map]. rewrite list_sum_cons. cbn [list_sum].
    rewrite (H content) by (apply in_readable, Hin). reflexivity.
  - intros H content Hin. apply in_readable in Hin.
    specialize (H content Hin). rewrite count_equations_by_file in H.
    cbn [readable map] in H. rewrite list_sum_cons in H. cbn [list_sum] in H.
    lia.
Qed.

(** C3 (as the code behaves).  A file that cannot be read is skipped: it
    adds nothing to any count and the scan goes on with the files after
    it, in [count_figures_and_tables] and in [count_equations_detailed]
    alike.  The result is all zeros only if every file that was found
    failed or holds none of the counted constructs, and it is all zeros
    whenever that is so; in particular when no file was found or every
    file failed. *)
Theorem unreadable_files_are_skipped :
  (forall before after,
     count_figures_and_tables (Files (before ++ Unreadable_source :: after))
     = count_figures_and_tables (Files (before ++ after)) /\
     count_equations_detailed (Files (before ++ Unreadable_source :: after))
     = count_equations_detailed (Files (before ++ after))) /\
  (forall tree,
     count_figures_and_tables tree = summary_zero /\
     count_equations_detailed tree = 0
     <-> Forall adds_nothing (files_of tree)) /\
  (forall tree,
     nothing_read tree ->
     count_figures_and_tables tree = summary_zero /\
     count_equations_detailed tree = 0).
Proof.
  split; [|split].
  - intros before after.
    unfold count_figures_and_tables, count_equations_detailed.
    rewrite !scan_files_app, !equation_counts_app. simpl. split; reflexivity.
  - intros [|tex_files]; cbn [files_of].
    + split; [constructor | split; reflexivity].
    + rewrite figures_zero_by_file, equations_zero_by_file, Forall_forall.
      split.
      * intros [Hf He] [|content] Hin; [exact I|].
        split; [apply Hf, Hin | apply He, Hin].
      * intros H. split; intros content Hin; apply (H _ Hin).
  - intros [|tex_files] H; simpl; [split; reflexivity|].
    simpl in H. rewrite scan_files_unreadable, equation_counts_unreadable
      by assumption.
    split; reflexivity.
Qed.

(** What one file adds to the tallies of a kind of container. *)
Ltac peel_tallies :=
  rewrite ?incr_same, ?incr_other by reflexivity;
  repeat match goal with
         | |- context [tally ?i ?w ?wo ?t ?ms ?c0 ?k] =>
             first
               [ rewrite (tally_frame i w wo t k ms c0) by reflexivity
               | rewrite (proj1 (tally_adds i w wo t ms c0 eq_refl eq_refl
                                   eq_refl eq_refl eq_refl eq_refl))
               | rewrite (proj1 (proj2 (tally_adds i w wo t ms c0 eq_refl
                                          eq_refl eq_refl eq_refl eq_refl
                                          eq_refl)))
               | rewrite (proj2 (proj2 (tally_adds i w wo t ms c0 eq_refl
                                          eq_refl eq_refl eq_refl eq_refl
                                          eq_refl))) ]
         end;
  unfold counts_zero.

Lemma scan_file_tallies kind content :
  scan_file content counts_zero (with_key kind)
  = List.length
      (filter (fun body => 0 <? sub_count kind body)
              (flat_map (fun p => findall p DOTALL content)
                        (container_patterns kind))) /\
  scan_file content counts_zero (without_key kind)
  = List.length
      (filter (fun body => sub_count kind body =? 0)
              (flat_map (fun p => findall p DOTALL content)
                        (container_patterns kind))).
Proof.
  unfold scan_file, sub_count.
  destruct kind; cbn [with_key without_key container_patterns sub_elements
                      flat_map];
    split; peel_tallies;
    rewrite ?app_nil_r, ?filter_app, ?length_app; lia.
Qed.

Lemma scan_file_totals content :
  let sub kind :=
    list_sum (map (sub_count kind)
                  (flat_map (fun p => findall p DOTALL content)
                            (container_patterns kind))) in
  scan_file content counts_zero total_subfigures = sub Figure /\
  scan_file content counts_zero total_subtables = sub Table /\
  scan_file content counts_zero total_subplots = sub CustomPlot /\
  scan_file content counts_zero total_addplots = sub TikzPicture + sub Axis.
Proof.
  cbv zeta. unfold scan_file, sub_count.
  cbn [container_patterns sub_elements flat_map].
  repeat split; peel_tallies;
    rewrite ?app_nil_r, ?map_app, ?list_sum_app; lia.
Qed.

Lemma length_filter_flat_map {A B} (f : B -> bool) (g : A -> list B) l :
  List.length (filter f (flat_map g l))
  = list_sum (map (fun x => List.length (filter f (g x))) l).
Proof.
  induction l as [|x l IH]; [reflexivity|].
  cbn [flat_map map]. rewrite filter_app, length_app, list_sum_cons, IH.
  reflexivity.
Qed.

Lemma list_sum_flat_map {A B} (n : B -> nat) (g : A -> list B) l :
  list_sum (map n (flat_map g l))
  = list_sum (map (fun x => list_sum (map n (g x))) l).
Proof.
  induction l as [|x l IH]; [reflexivity|].
  cbn [flat_map map]. rewrite map_app, list_sum_app, list_sum_cons, IH.
  reflexivity.
Qed.

Lemma hits_either P1 P2 :
  (forall s, P1 s = true -> P2 s = false) ->
  forall s, hits (fun s => P1 s || P2 s) s = hits P1 s + hits P2 s.
Proof.
  intros H. induction s as [|x t IH]; [reflexivity|].
  cbn [hits]. rewrite IH.
  destruct (P1 (x :: t)) eqn:E1; [rewrite (H _ E1)|];
    destruct (P2 (x :: t)); simpl; lia.
Qed.

(** The matches of [a|b(?!x)], for two texts [a] and [b] that begin with
    the same character, found nowhere else in them, and that differ
    somewhere. *)
Lemma findall_either fl p a b x c ta tb content :
  ignorecase fl = false ->
  a = c :: ta -> b = c :: tb ->
  contains c ta = false -> contains c tb = false ->
  compatible a b = false ->
  re_ast p = RAlt (literal a)
                  (lit_then b (RSeq (RNotAhead (literal [x])) REmpty)) ->
  List.length (findall p fl content)
  = occurrences a content + occurrences_unless b x content.
Proof.
  intros I Ha Hb Hta Htb Hab Hp.
  unfold findall, finditer, occurrences_unless.
  rewrite length_map, Hp, occurrences_hits.
  assert (forall s, starts_with a s = true -> starts_unless b x s = false)
    as Hex.
  { intros s H. unfold starts_unless.
    destruct (starts_with b s) eqn:E; [|reflexivity].
    rewrite (starts_with_compatible _ _ _ H E) in Hab. discriminate Hab. }
  rewrite <- (hits_either _ _ Hex).
  assert (forall adv pos s,
            match_at fl (RAlt (literal a)
                              (lit_then b (RSeq (RNotAhead (literal [x]))
                                                REmpty)))
                     adv pos s
            = if starts_with a s || starts_unless b x s
              then Some {| m_start := pos;
                           m_end := (if starts_with a s then List.length a
                                     else List.length b) + pos;
                           m_caps := [] |}
              else None) as Hm.
  { intros adv pos s. unfold match_at, starts_unless, literal.
    cbn [rmatch]. rewrite !rmatch_lit_then by exact I.
    assert (forall l : str, 0 < List.length l ->
              (adv && (List.length l + pos =? pos)) = false) as Hadv.
    { intros l Hl.
      replace (List.length l + pos =? pos) with false
        by (symmetry; apply Nat.eqb_neq; lia).
      apply andb_false_r. }
    destruct (starts_with a s).
    - cbn [rmatch]. rewrite Hadv by (subst a; simpl; lia). reflexivity.
    - destruct (starts_with b s); [|reflexivity].
      cbn [rmatch orb andb]. rewrite rmatch_lit_then by exact I.
      destruct (starts_with [x] (skipn (List.length b) s)); [reflexivity|].
      cbn [negb]. rewrite Hadv by (subst b; simpl; lia). reflexivity. }
  apply (scan_hits fl _ (fun s => starts_with a s || starts_unless b x s)
           (fun s => if starts_with a s then List.length a
                     else List.length b)).
  - intros s _. subst a b. destruct (starts_with (c :: ta) s); simpl; lia.
  - intros adv pos s Hs. rewrite Hm, Hs. eexists. split; reflexivity.
  - intros adv pos s Hs. rewrite Hm, Hs. reflexivity.
  - intros s i Hs Hi.
    assert (forall l t : str, l = c :: t -> contains c t = false ->
              starts_with l s = true -> 0 < i < List.length l ->
              starts_with a (skipn i s) = false /\
              starts_with b (skipn i s) = false) as Hin.
    { intros l t -> Ht Hl Hil. subst a b.
      split; apply (starts_with_inside (c :: t)); assumption. }
    unfold starts_unless in *.
    destruct (starts_with a s) eqn:Ea.
    + destruct (Hin a ta Ha Hta Ea Hi) as [-> ->]. reflexivity.
    + cbn [orb] in Hs. apply andb_true_iff in Hs. destruct Hs as [Eb _].
      destruct (Hin b tb Hb Htb Eb Hi) as [-> ->]. reflexivity.
  - subst a b. reflexivity.
  - intros i Hi. lia.
Qed.

(** What the patterns of the sub-elements match. *)
Lemma sub_count_markers body :
  sub_count Figure body = occurrences (u "\begin{subfigure}") body /\
  sub_count Table body = occurrences (u "\begin{subtable}") body /\
  sub_count CustomPlot body = occurrences (u "\begin{subplot}") body /\
  sub_count Axis body = occurrences (u "\addplot") body /\
  sub_count TikzPicture body
  = occurrences (u "\addplot") body
    + occurrences_unless (u "\plot") (ch "s") body.
Proof.
  unfold sub_count.
  repeat split;
    try (apply findall_literal; vm_compute; reflexivity).
  apply (findall_either no_flags _ _ _ _ (ch "\") (u "addplot") (u "plot"));
    vm_compute; reflexivity.
Qed.

Lemma scan_files_tallies tex_files kind :
  scan_files tex_files counts_zero (with_key kind)
  = List.length (filter (fun body => 0 <? sub_count kind body)
                        (bodies kind tex_files)) /\
  scan_files tex_files counts_zero (without_key kind)
  = List.length (filter (fun body => sub_count kind body =? 0)
                        (bodies kind tex_files)).
Proof.
  unfold bodies. rewrite !scan_files_by_file, !length_filter_flat_map.
  unfold counts_zero at 1 3. cbn [plus].
  split; f_equal; apply map_ext; intros content; apply scan_file_tallies.
Qed.

Lemma scan_files_totals tex_files :
  let c := scan_files tex_files counts_zero in
  let sub kind := list_sum (map (sub_count kind) (bodies kind tex_files)) in
  c total_subfigures = sub Figure /\
  c total_subtables = sub Table /\
  c total_subplots = sub CustomPlot /\
  c total_addplots = sub TikzPicture + sub Axis.
Proof.
  cbv zeta. unfold bodies.
  rewrite !scan_files_by_file, !list_sum_flat_map.
  unfold counts_zero at 1 3 5 7. cbn [plus].
  rewrite <- list_sum_add.
  repeat split; f_equal; apply map_ext; intros content;
    apply scan_file_totals.
Qed.

(** X20.  What the tallies of [count_figures_and_tables] count, for every
    tree of source files.  Take the bodies of the containers of a kind
    that the scan matches in the files it could read.  The "with" tally
    is the number of bodies in which the pattern of the sub-elements
    matches, the "without" tally the number of the others, and the total
    of sub-elements the number of all these matches; TikZ pictures and
    axis environments add to one total, that of plot commands.  A
    sub-element of a figure, a table or a custom plot is an occurrence of
    its begin-marker; a plot command of an axis environment is an
    occurrence of [\addplot], a plot command of a TikZ picture an
    occurrence of [\addplot] or an occurrence of [\plot] that no [s]
    follows. *)
Theorem tallies_count_the_bodies (tex_files : list source_file) :
  let c := scan_files tex_files counts_zero in
  let sub kind := list_sum (map (sub_count kind) (bodies kind tex_files)) in
  (forall kind,
     c (with_key kind)
     = List.length (filter (fun body => 0 <? sub_count kind body)
                           (bodies kind tex_files)) /\
     c (without_key kind)
     = List.length (filter (fun body => sub_count kind body =? 0)
                           (bodies kind tex_files))) /\
  (c total_subfigures = sub Figure /\
   c total_subtables = sub Table /\
   c total_subplots = sub CustomPlot /\
   c total_addplots = sub TikzPicture + sub Axis) /\
  (forall body,
     sub_count Figure body = occurrences (u "\begin{subfigure}") body /\
     sub_count Table body = occurrences (u "\begin{subtable}") body /\
     sub_count CustomPlot body = occurrences (u "\begin{subplot}") body /\
     sub_count Axis body = occurrences (u "\addplot") body /\
     sub_count TikzPicture body
     = occurrences (u "\addplot") body
       + occurrences_unless (u "\plot") (ch "s") body).
Proof.
  cbv zeta. split; [|split].
  - intros kind. apply scan_files_tallies.
  - apply scan_files_totals.
  - exact sub_count_markers.
Qed.

Lemma with_and_total (n : str -> nat) (bs : list str) :
  List.length (filter (fun b => 0 <? n b) bs) <= list_sum (map n bs) /\
  (List.length (filter (fun b => 0 <? n b) bs) = 0 <->
   list_sum (map n bs) = 0).
Proof.
  induction bs as [|b bs [IH1 IH2]]; [simpl; split; [lia | tauto]|].
  cbn [filter map]. rewrite list_sum_cons.
  destruct (n b) as [|k]; simpl; [split; assumption|].
  split; [lia|]. split; intros H; lia.
Qed.

(** X21.  The counts that [count_figures_and_tables] returns fit
    together, for every tree: the containers with sub-elements are among
    the containers; there are at least as many sub-elements as containers
    with sub-elements, and none exactly when there is no such container.
    The same holds of the TikZ pictures and axis environments with plot
    commands, and of the plot commands. *)
Theorem counts_fit_together (tree : source_tree) :
  let r := count_figures_and_tables tree in
  (r_figures_with_subfigures r <= figures r /\
   r_figures_with_subfigures r <= r_total_subfigures r /\
   (r_figures_with_subfigures r = 0 <-> r_total_subfigures r = 0)) /\
  (r_tables_with_subtables r <= tables r /\
   r_tables_with_subtables r <= r_total_subtables r /\
   (r_tables_with_subtables r = 0 <-> r_total_subtables r = 0)) /\
  (r_plots_with_subplots r <= custom_plots r /\
   r_plots_with_subplots r <= r_total_subplots r /\
   (r_plots_with_subplots r = 0 <-> r_total_subplots r = 0)) /\
  (tikz_pgf_plots r + custom_plots r <= plot_containers r /\
   tikz_pgf_plots r <= total_plot_commands r /\
   (tikz_pgf_plots r = 0 <-> total_plot_commands r = 0)).
Proof.
  destruct tree as [|tex_files]; [simpl; repeat split; lia|].
  cbv zeta. unfold count_figures_and_tables, summarize.
  cbn [figures r_figures_with_subfigures r_total_subfigures
       tables r_tables_with_subtables r_total_subtables
       custom_plots r_plots_with_subplots r_total_subplots
       plot_containers tikz_pgf_plots total_plot_commands].
  destruct (scan_files_totals tex_files) as (T1 & T2 & T3 & T4).
  cbv zeta in T1, T2, T3, T4. rewrite T1, T2, T3, T4.
  pose proof (proj1 (scan_files_tallies tex_files Figure)) as WF.
  pose proof (proj1 (scan_files_tallies tex_files Table)) as WT.
  pose proof (proj1 (scan_files_tallies tex_files CustomPlot)) as WP.
  pose proof (proj1 (scan_files_tallies tex_files TikzPicture)) as WK.
  pose proof (proj1 (scan_files_tallies tex_files Axis)) as WA.
  cbn [with_key] in WF, WT, WP, WK, WA. rewrite WF, WT, WP, WK, WA.
  pose proof (fun kind => with_and_total (sub_count kind)
                            (bodies kind tex_files)) as B.
  destruct (B Figure) as [F1 F2]. destruct (B Table) as [B1 B2].
  destruct (B CustomPlot) as [P1 P2]. destruct (B TikzPicture) as [K1 K2].
  destruct (B Axis) as [A1 A2].
  clear T1 T2 T3 T4 WF WT WP WK WA B.
  revert F1 F2 B1 B2 P1 P2 K1 K2 A1 A2.
  repeat match goal with
         | |- context [List.length (filter ?f ?l)] =>
             generalize (List.length (filter f l)); intros ?
         | |- context [list_sum ?l] => generalize (list_sum l); intros ?
         | |- context [scan_files ?fs ?c ?k] =>
             generalize (scan_files fs c k); intros ?
         end.
  intros F1 F2 B1 B2 P1 P2 K1 K2 A1 A2.
  do 3 (split; [split; [lia | split; assumption]|]).
  clear F1 F2 B1 B2 P1 P2.
  split; [lia|]. split; [lia|]. split; lia.
Qed.


(** *** Containers *)

(** Every match that the scan yields was found by an attempt at its
    start. *)
Lemma scan_in fl r mt : forall s pos skip,
  In mt (scan fl r pos s skip) ->
  exists i adv, match_at fl r adv (i + pos) (skipn i s) = Some mt.
Proof.
  assert (forall (t : str) x pos,
            (exists i adv, match_at fl r adv (i + S pos) (skipn i t) = Some mt) ->
            exists i adv, match_at fl r adv (i + pos) (skipn i (x :: t)) = Some mt)
    as Later.
  { intros t x pos (i & adv & H). exists (S i), adv.
    replace (S i + pos) with (i + S pos) by lia. exact H. }
  induction s as [|x t IH]; intros pos skip H; simpl in H.
  - destruct skip; [|destruct H].
    destruct (match_at fl r false pos []) as [m0|] eqn:E; [|destruct H].
    destruct (m_end m0 =? pos).
    + destruct H as [<-|H]; [exists 0, false; exact E|].
      destruct (match_at fl r true pos []) as [m1|] eqn:E1; [|destruct H].
      destruct H as [<-|[]]. exists 0, true. exact E1.
    + destruct H as [<-|[]]. exists 0, false. exact E.
  - destruct skip; [|apply Later, (IH _ _ H)].
    destruct (match_at fl r false pos (x :: t)) as [m0|] eqn:E;
      [|apply Later, (IH _ _ H)].
    destruct (m_end m0 =? pos).
    + destruct H as [<-|H]; [exists 0, false; exact E|].
      destruct (match_at fl r true pos (x :: t)) as [m1|] eqn:E1;
        [|apply Later, (IH _ _ H)].
      destruct H as [<-|H]; [exists 0, true; exact E1|].
      apply Later, (IH _ _ H).
    + destruct H as [<-|H]; [exists 0, false; exact E|].
      apply Later, (IH _ _ H).
Qed.

(** A scan finds at most one match for each place where a match can
    start, if no match is empty. *)
Lemma scan_le_hits fl r (P : str -> bool) :
  P [] = false ->
  (forall adv pos s mt,
     match_at fl r adv pos s = Some mt -> P s = true /\ m_end mt <> pos) ->
  forall s pos skip, List.length (scan fl r pos s skip) <= hits P s.
Proof.
  intros Hnil H. induction s as [|x t IH]; intros pos skip.
  - destruct skip; simpl; [|lia].
    destruct (match_at fl r false pos []) as [mt|] eqn:E; [|simpl; lia].
    destruct (H _ _ _ _ E) as [HP _]. congruence.
  - destruct skip as [|k]; cbn [scan hits].
    + destruct (match_at fl r false pos (x :: t)) as [mt|] eqn:E.
      * destruct (H _ _ _ _ E) as [HP Hend].
        apply Nat.eqb_neq in Hend. rewrite Hend, HP.
        cbn [List.length]. specialize (IH (S pos) (m_end mt - pos - 1)). lia.
      * specialize (IH (S pos) 0). lia.
    + specialize (IH (S pos) k). lia.
Qed.

Lemma starts_with_firstn e : forall s n,
  starts_with e (firstn n s) = true -> starts_with e s = true.
Proof.
  induction e as [|a e IH]; intros s n H; [reflexivity|].
  destruct s as [|x t]; [rewrite firstn_nil in H; discriminate H|].
  destruct n as [|n]; [discriminate H|]. simpl in *.
  apply andb_true_iff in H. destruct H as [-> H]. eapply IH, H.
Qed.

(** Before its first occurrence a text does not occur. *)
Lemma first_occurrence_spec e : forall s i,
  first_occurrence e s = Some i ->
  starts_with e (skipn i s) = true /\
  (0 < List.length e -> occurrences e (firstn i s) = 0).
Proof.
  induction s as [|x t IH]; intros i H; simpl in H.
  - destruct (starts_with e []) eqn:E; [|discriminate].
    inversion H; subst. split; [exact E | reflexivity].
  - destruct (starts_with e (x :: t)) eqn:E.
    + inversion H; subst. split; [exact E | reflexivity].
    + destruct (first_occurrence e t) as [j|]; [|discriminate].
      inversion H; subst. destruct (IH j eq_refl) as [H1 H2].
      split; [exact H1|]. intros He. cbn [firstn occurrences].
      rewrite (H2 He).
      destruct (starts_with e (x :: firstn j t)) eqn:E'; [|reflexivity].
      apply (starts_with_firstn e (x :: t) (S j)) in E'. congruence.
Qed.

(** The lazy [.*?] of a block stops where the end-marker first occurs. *)
Lemma repeat_lazy_first fl e adv pos start :
  dotall fl = true -> ignorecase fl = false ->
  forall s p2, pos < p2 ->
    repeat_lazy fl AAny 0 p2 s []
      (fun q t c1 =>
         rmatch fl (literal e) q t ((1, (start, q)) :: c1)
                (fun p _ c => if adv && (p =? pos) then None else Some (p, c)))
    = match first_occurrence e s with
      | Some i => Some (List.length e + (i + p2), [(1, (start, i + p2))])
      | None => None
      end.
Proof.
  intros D I.
  assert (forall s p2, pos < p2 ->
            rmatch fl (literal e) p2 s [(1, (start, p2))]
                   (fun p _ c => if adv && (p =? pos) then None else Some (p, c))
            = if starts_with e s
              then Some (List.length e + p2, [(1, (start, p2))])
              else None) as Here.
  { intros s p2 Hp. unfold literal. rewrite rmatch_lit_then by exact I.
    destruct (starts_with e s); [|reflexivity]. cbn [rmatch].
    replace (List.length e + p2 =? pos) with false
      by (symmetry; apply Nat.eqb_neq; lia).
    rewrite andb_false_r. reflexivity. }
  induction s as [|x t IH]; intros p2 Hp.
  - cbn [repeat_lazy stop_repeat first_occurrence]. rewrite Here by exact Hp.
    destruct (starts_with e []); reflexivity.
  - cbn [repeat_lazy stop_repeat first_occurrence]. rewrite Here by exact Hp.
    destruct (starts_with e (x :: t)); [reflexivity|].
    cbn [atom_match]. rewrite D. cbn [orb pred].
    rewrite IH by lia.
    destruct (first_occurrence e t) as [i|]; [|reflexivity].
    replace (S i + p2) with (i + S p2) by lia. reflexivity.
Qed.

(** A block is matched where its begin-marker stands, if its end-marker
    occurs after it, and up to the first such occurrence. *)
Lemma match_at_block fl b e adv pos s :
  ignorecase fl = false -> dotall fl = true -> 0 < List.length b ->
  match_at fl (block b e) adv pos s
  = if starts_with b s then
      match first_occurrence e (skipn (List.length b) s) with
      | Some i =>
          Some {| m_start := pos;
                  m_end := List.length e + (i + (List.length b + pos));
                  m_caps := [(1, (List.length b + pos,
                                  i + (List.length b + pos)))] |}
      | None => None
      end
    else None.
Proof.
  intros I D Hb. unfold match_at, block.
  rewrite rmatch_lit_then by exact I.
  destruct (starts_with b s); [|reflexivity].
  cbn [rmatch].
  rewrite (repeat_lazy_first fl e adv pos (List.length b + pos) D I) by lia.
  destruct (first_occurrence e (skipn (List.length b) s)); reflexivity.
Qed.

Lemma starts_with_self l after : starts_with l (l ++ after) = true.
Proof.
  induction l as [|x l IH]; [reflexivity|].
  simpl. rewrite N.eqb_refl. exact IH.
Qed.

Lemma occurrences_inside e : forall before after,
  0 < List.length e -> 0 < occurrences e (before ++ e ++ after).
Proof.
  intros before after He. induction before as [|c before IH].
  - cbn [app]. pose proof (starts_with_self e after) as H.
    destruct e as [|a e]; [simpl in He; lia|].
    cbn [app occurrences] in *. rewrite H. lia.
  - cbn [app occurrences]. lia.
Qed.

(** The matches of a block pattern [b(.*?)e]. *)
Lemma block_matches p b e content :
  re_ast p = block b e -> re_groups p = 1 ->
  0 < List.length b -> 0 < List.length e ->
  (forall body,
     In body (findall p DOTALL content) ->
     occurrences e body = 0 /\ part_of (b ++ body ++ e) content) /\
  List.length (findall p DOTALL content) <= occurrences b content /\
  (occurrences e content = 0 -> findall p DOTALL content = []).
Proof.
  intros Hp Hg Hb He.
  assert (forall body,
            In body (findall p DOTALL content) ->
            occurrences e body = 0 /\ part_of (b ++ body ++ e) content) as Hbody.
  { intros body H. unfold findall, finditer in H. rewrite Hg, Hp in H.
    apply in_map_iff in H. destruct H as (mt & <- & H).
    apply scan_in in H. destruct H as (i & adv & H).
    rewrite match_at_block in H by (reflexivity || exact Hb).
    destruct (starts_with b (skipn i content)) eqn:Eb; [|discriminate].
    destruct (first_occurrence e (skipn (List.length b) (skipn i content)))
      as [j|] eqn:Ej; [|discriminate].
    inversion H; subst mt; clear H.
    unfold group. cbn [m_caps lookup_cap Nat.eqb]. unfold slice.
    replace (j + (List.length b + (i + 0)) - (List.length b + (i + 0)))
      with j by lia.
    replace (List.length b + (i + 0)) with (List.length b + i) by lia.
    rewrite <- skipn_skipn.
    destruct (first_occurrence_spec e _ _ Ej) as [Hend Hnone].
    split; [apply Hnone, He|].
    set (rest := skipn (List.length b) (skipn i content)) in *.
    exists (firstn i content), (skipn (List.length e) (skipn j rest)).
    pose proof (starts_with_app _ _ Eb) as H1. fold rest in H1.
    pose proof (starts_with_app _ _ Hend) as H3.
    symmetry. rewrite <- !app_assoc. rewrite <- H3, (firstn_skipn j rest).
    rewrite <- H1. apply firstn_skipn. }
  split; [exact Hbody|]. split.
  - unfold findall, finditer. rewrite length_map, Hp, occurrences_hits.
    apply scan_le_hits.
    + destruct b; [simpl in Hb; lia | reflexivity].
    + intros adv pos s mt H.
      rewrite match_at_block in H by (reflexivity || exact Hb).
      destruct (starts_with b s); [|discriminate]. split; [reflexivity|].
      destruct (first_occurrence e (skipn (List.length b) s));
        [|discriminate].
      inversion H; subst. simpl. lia.
  - intros Hnone. destruct (findall p DOTALL content) as [|body l] eqn:E;
      [reflexivity|].
    destruct (Hbody body (or_introl eq_refl)) as [_ (before & after & Hc)].
    rewrite Hc in Hnone.
    pose proof (occurrences_inside e (before ++ b ++ body) after He) as C.
    rewrite <- !app_assoc in C. rewrite <- !app_assoc in Hnone.
    cbn [app] in *. lia.
Qed.

(** X22.  Every container that the scan matches is a begin-marker, a
    body in which the end-marker does not occur, and the end-marker: a
    container ends at the first end-marker after its begin-marker, also
    when another container of its kind is nested in it.  So the scan
    finds no more containers of a kind than there are begin-markers of
    the kind, and none in a text in which the end-marker does not occur:
    a container that is never closed is not counted. *)
Theorem containers_end_at_the_first_end_marker :
  Forall (fun '(p, b, e) =>
            forall content,
              (forall body,
                 In body (findall p DOTALL content) ->
                 occurrences e body = 0 /\
                 part_of (b ++ body ++ e) content) /\
              List.length (findall p DOTALL content)
              <= occurrences b content /\
              (occurrences e content = 0 ->
               findall p DOTALL content = []))
         container_markers.
Proof.
  unfold container_markers.
  repeat (apply Forall_cons;
          [ intros content; apply block_matches;
            [ vm_compute; reflexivity | reflexivity
            | simpl; lia | simpl; lia ]
          | ]).
  apply Forall_nil.
Qed.

(** ** The display of the Log Analyzer *)

Lemma sizes_file_under key x d :
  list_sum (sizes (file_under key x d)) = S (list_sum (sizes d)).
Proof.
  unfold sizes. induction d as [|[k xs] d IH]; [reflexivity|].
  cbn [file_under]. destruct (String.eqb k key); cbn [map fst snd].
  - rewrite !list_sum_cons, length_app. simpl. lia.
  - rewrite !list_sum_cons, IH. lia.
Qed.

Lemma keys_file_under key x d :
  map fst (file_under key x d)
  = if existsb (fun k => String.eqb k key) (map fst d) then map fst d
    else map fst d ++ [key].
Proof.
  induction d as [|[k xs] d IH]; [reflexivity|].
  cbn [file_under map fst existsb].
  destruct (String.eqb k key); cbn [orb map fst]; [reflexivity|].
  rewrite IH. destruct (existsb _ (map fst d)); reflexivity.
Qed.

(** The entries of a dictionary after a record was filed. *)
Lemma in_file_under key x : forall d k xs,
  NoDup (map fst d) ->
  (In (k, xs) (file_under key x d) <->
   (k <> key /\ In (k, xs) d) \/
   (k = key /\ exists xs0, In (key, xs0) d /\ xs = xs0 ++ [x]) \/
   (k = key /\ ~ In key (map fst d) /\ xs = [x])).
Proof.
  induction d as [|[k0 xs0] d IH]; intros k xs Hd.
  - simpl. split.
    + intros [H|[]]. inversion H; subst. right. right. tauto.
    + intros [[_ []]|[(_ & ? & [] & _)|(-> & _ & ->)]]. left. reflexivity.
  - inversion Hd as [|? ? Hk0 Hd']; subst. cbn [file_under].
    destruct (String.eqb_spec k0 key) as [->|Hne].
    + cbn [In map fst]. split.
      * intros [H|H].
        -- inversion H; subst. right. left. split; [reflexivity|].
           exists xs0. split; [left; reflexivity | reflexivity].
        -- left. split; [|right; exact H].
           intros ->. apply Hk0. apply (in_map fst) in H. exact H.
      * intros [(Hk & [H|H])|[(-> & xs1 & [H|H] & ->)|(-> & Hn & _)]].
        -- inversion H; subst. contradiction.
        -- right. exact H.
        -- inversion H; subst. left. reflexivity.
        -- exfalso. apply Hk0. apply (in_map fst) in H. exact H.
        -- exfalso. apply Hn. left. reflexivity.
    + cbn [In map fst]. rewrite (IH k xs Hd'). split.
      * intros [H|[(Hk & H)|[(-> & xs1 & H & ->)|(-> & Hn & ->)]]].
        -- inversion H; subst. left. split; [exact Hne | left; reflexivity].
        -- left. split; [exact Hk | right; exact H].
        -- right. left. split; [reflexivity|]. exists xs1.
           split; [right; exact H | reflexivity].
        -- right. right. split; [reflexivity|]. split; [|reflexivity].
           intros [E|E]; [exact (Hne E) | exact (Hn E)].
      * intros [(Hk & [H|H])|[(-> & xs1 & [H|H] & ->)|(-> & Hn & ->)]].
        -- left. exact H.
        -- right. left. split; assumption.
        -- inversion H; subst. exfalso. apply Hne. reflexivity.
        -- right. right. left. split; [reflexivity|]. exists xs1.
           split; [exact H | reflexivity].
        -- right. right. right. split; [reflexivity|]. split; [|reflexivity].
           intros E. apply Hn. right. exact E.
Qed.

Lemma of_type_app type_of key records x :
  of_type type_of key (records ++ [x])
  = of_type type_of key records
    ++ (if String.eqb (type_of x) key then [x] else []).
Proof. unfold of_type. rewrite filter_app. reflexivity. Qed.

Section Filing.

Variable type_of : diagnostic -> string.

Lemma filed_step d records x :
  filed type_of d records ->
  filed type_of (file_under (type_of x) x d) (records ++ [x]).
Proof.
  intros (Hd & Hin & Hall). unfold filed. split; [|split].
  - rewrite keys_file_under.
    destruct (existsb _ (map fst d)) eqn:E; [exact Hd|].
    apply NoDup_app; [exact Hd | repeat constructor; intros [] |].
    intros k Hk [<-|[]].
    assert (existsb (fun k0 => String.eqb k0 (type_of x)) (map fst d) = true)
      as C by (apply existsb_exists; exists (type_of x);
               split; [exact Hk | apply String.eqb_refl]).
    congruence.
  - intros k xs H. apply (in_file_under _ _ _ _ _ Hd) in H.
    rewrite of_type_app.
    destruct H as [(Hk & H)|[(-> & xs0 & H & ->)|(-> & Hn & ->)]].
    + destruct (Hin _ _ H) as [Hne ->]. split; [exact Hne|].
      destruct (String.eqb_spec (type_of x) k) as [E|_];
        [symmetry in E; contradiction|].
      rewrite app_nil_r. reflexivity.
    + destruct (Hin _ _ H) as [Hne ->]. rewrite String.eqb_refl.
      split; [|reflexivity]. intros C. apply app_eq_nil in C.
      destruct C as [_ C]. discriminate C.
    + rewrite String.eqb_refl. split; [discriminate|].
      replace (of_type type_of (type_of x) records) with (@nil diagnostic);
        [reflexivity|].
      symmetry. unfold of_type.
      destruct (filter _ records) as [|y l] eqn:E; [reflexivity|].
      exfalso. apply Hn.
      assert (In y (filter (fun x0 => String.eqb (type_of x0) (type_of x))
                           records)) as Hy by (rewrite E; left; reflexivity).
      apply filter_In in Hy. destruct Hy as [Hy Ey].
      apply String.eqb_eq in Ey. rewrite <- Ey. apply Hall, Hy.
  - intros y Hy. rewrite keys_file_under.
    apply in_app_or in Hy. destruct Hy as [Hy|[<-|[]]].
    + specialize (Hall y Hy).
      destruct (existsb _ (map fst d)); [exact Hall|].
      apply in_or_app. left. exact Hall.
    + destruct (existsb _ (map fst d)) eqn:E.
      * apply existsb_exists in E. destruct E as (k & Hk & E).
        apply String.eqb_eq in E. subst. exact Hk.
      * apply in_or_app. right. left. reflexivity.
Qed.

Lemma filed_fold : forall later d records,
  filed type_of d records ->
  filed type_of (fold_left (fun d x => file_under (type_of x) x d) later d)
        (records ++ later) /\
  list_sum (sizes (fold_left (fun d x => file_under (type_of x) x d) later d))
  = list_sum (sizes d) + List.length later.
Proof.
  induction later as [|x later IH]; intros d records H.
  - rewrite app_nil_r. simpl. split; [exact H | lia].
  - cbn [fold_left].
    destruct (IH _ _ (filed_step d records x H)) as [H1 H2].
    rewrite <- app_assoc in H1. split; [exact H1|].
    rewrite H2, sizes_file_under. simpl. lia.
Qed.

(** Filing a list of records under types, from the empty dictionary. *)
Lemma filing records :
  let d := fold_left (fun d x => file_under (type_of x) x d) records [] in
  list_sum (sizes d) = List.length records /\
  NoDup (map fst d) /\
  (forall k xs, In (k, xs) d ->
     xs <> [] /\ xs = of_type type_of k records) /\
  (forall y, In y records -> In (type_of y) (map fst d)).
Proof.
  assert (filed type_of [] []) as H0.
  { split; [constructor|]. split; [intros k xs []|intros y []]. }
  destruct (filed_fold records [] [] H0) as [(H1 & H2 & H3) H4].
  cbv zeta. repeat split; try assumption.
  - apply (H2 _ _ H).
  - apply (H2 _ _ H).
Qed.

End Filing.

(** X23.  The types under which [count_and_display_warnings] files the
    records are a partition of the records: the sizes of the types that
    it displays add up to the counts that it returns; no two types carry
    the same label and none is empty; and each type holds the records
    whose label it carries, in the order of the log.  This holds of the
    warnings and of the layout notices of every log. *)
Theorem displayed_types_partition_the_records (log_content : str) :
  exists warnings auxiliary_info,
    parse_warnings log_content = Some (warnings, auxiliary_info) /\
    count_and_display_warnings (Content log_content)
    = (list_sum (sizes (warning_types warnings)),
       list_sum (sizes (aux_types auxiliary_info))) /\
    NoDup (map fst (warning_types warnings)) /\
    NoDup (map fst (aux_types auxiliary_info)) /\
    (forall label records,
       In (label, records) (warning_types warnings) ->
       records <> [] /\ records = of_type warning_type label warnings) /\
    (forall label records,
       In (label, records) (aux_types auxiliary_info) ->
       records <> [] /\ records = of_type aux_type label auxiliary_info).
Proof.
  unfold count_and_display_warnings. rewrite parse_warnings_spec.
  eexists _, _. split; [reflexivity|].
  match goal with
  | |- (List.length ?w, List.length ?a) = _ /\ _ =>
      destruct (filing warning_type w) as (W1 & W2 & W3 & _);
      destruct (filing aux_type a) as (A1 & A2 & A3 & _)
  end.
  unfold warning_types, aux_types. rewrite W1, A1.
  repeat split; try assumption.
  - apply (W3 _ _ H).
  - apply (W3 _ _ H).
  - apply (A3 _ _ H).
  - apply (A3 _ _ H).
Qed.

Lemma labels_bound (type_of : diagnostic -> string) labels records :
  (forall x, In (type_of x) labels) ->
  List.length (fold_left (fun d x => file_under (type_of x) x d) records [])
  <= List.length labels.
Proof.
  intros Hl. destruct (filing type_of records) as (_ & Hd & Hin & _).
  cbv zeta in Hd, Hin. rewrite <- (length_map fst).
  apply NoDup_incl_length; [exact Hd|].
  intros k Hk. apply in_map_iff in Hk. destruct Hk as ([k' xs] & <- & H).
  destruct (Hin _ _ H) as [Hne E]. cbn [fst].
  destruct xs as [|x xs]; [contradiction|].
  assert (In x (of_type type_of k' records)) as Hx
    by (rewrite <- E; left; reflexivity).
  apply filter_In in Hx. destruct Hx as [_ Hx].
  apply String.eqb_eq in Hx. rewrite <- Hx. apply Hl.
Qed.

Lemma warning_types_bound warnings :
  List.length (warning_types warnings) <= 5.
Proof.
  apply (labels_bound warning_type
           ["Undefined references"; "Citation issues"; "Hyperref warnings";
            "Package warnings"; "General warnings"]%string).
  intros x. unfold warning_type.
  repeat match goal with
         | |- context [if ?c then _ else _] => destruct c
         end; simpl; tauto.
Qed.

Lemma aux_types_bound auxiliary_info :
  List.length (aux_types auxiliary_info) <= 3.
Proof.
  apply (labels_bound aux_type
           ["Overfull boxes"; "Underfull boxes"; "Other layout"]%string).
  intros x. unfold aux_type.
  repeat match goal with
         | |- context [if ?c then _ else _] => destruct c
         end; simpl; tauto.
Qed.

Lemma warning_details_length d :
  List.length (warning_details d) <= 4 * List.length d.
Proof.
  unfold warning_details. induction d as [|[k xs] d IH]; [simpl; lia|].
  cbn [flat_map fst snd]. rewrite length_app. cbn [List.length].
  rewrite length_app, length_map.
  assert (List.length (firstn 2 xs) <= 2) as H2 by apply firstn_le_length.
  destruct (2 <? List.length xs); cbn [List.length]; lia.
Qed.

Lemma layout_details_length d :
  List.length (layout_details d) <= 2 * List.length d.
Proof.
  unfold layout_details. induction d as [|[k xs] d IH]; [simpl; lia|].
  cbn [flat_map fst snd]. rewrite length_app, length_map.
  assert (List.length (firstn 2 xs) <= 2) as H2 by apply firstn_le_length.
  cbn [List.length]. lia.
Qed.

Lemma display_length warnings auxiliary_info :
  List.length (display warnings auxiliary_info) <= 38.
Proof.
  unfold display. rewrite length_app.
  assert (List.length
            (match warnings with
             | _ :: _ =>
                 Counted "Found warnings" (List.length warnings)
                 :: type_sizes (warning_types warnings)
                 ++ (if 0 <? List.length warnings
                     then Heading "Warning details (first 2 per type):"
                          :: warning_details (warning_types warnings)
                     else [])
             | [] => [Heading "No warnings found!"]
             end) <= 27) as HW.
  { destruct warnings as [|x l]; [simpl; lia|].
    pose proof (warning_types_bound (x :: l)) as B.
    pose proof (warning_details_length (warning_types (x :: l))) as D.
    cbn [List.length]. rewrite length_app. unfold type_sizes at 1.
    rewrite length_map.
    destruct (0 <? _); cbn [List.length]; lia. }
  assert (List.length
            (match auxiliary_info with
             | _ :: _ =>
                 Counted "Found layout notifications"
                         (List.length auxiliary_info)
                 :: type_sizes (aux_types auxiliary_info)
                 ++ (if List.length auxiliary_info <=? 5
                     then Heading "Layout details:"
                          :: layout_details (aux_types auxiliary_info)
                     else [])
             | [] => [Heading "No layout issues found!"]
             end) <= 11) as HA.
  { destruct auxiliary_info as [|x l]; [simpl; lia|].
    pose proof (aux_types_bound (x :: l)) as B.
    pose proof (layout_details_length (aux_types (x :: l))) as D.
    cbn [List.length]. rewrite length_app. unfold type_sizes at 1.
    rewrite length_map.
    destruct (_ <=? 5); cbn [List.length]; lia. }
  lia.
Qed.

Lemma type_sizes_positive type_of records label n :
  In (Counted label n)
     (type_sizes (fold_left (fun d x => file_under (type_of x) x d)
                            records [])) ->
  n = List.length (of_type type_of label records) /\ 0 < n.
Proof.
  intros H. destruct (filing type_of records) as (_ & _ & Hin & _).
  cbv zeta in Hin. apply in_map_iff in H.
  destruct H as ([k xs] & E & H). inversion E; subst.
  destruct (Hin _ _ H) as [Hne Hxs]. cbn [fst snd]. split.
  - rewrite <- Hxs. reflexivity.
  - destruct xs; [contradiction | simpl; lia].
Qed.

Lemma warning_details_positive d label n :
  In (Counted label n) (warning_details d) -> 0 < n.
Proof.
  unfold warning_details. intros H. apply in_flat_map in H.
  destruct H as ([k xs] & _ & H). cbn [fst snd] in H.
  destruct H as [H|H]; [discriminate|].
  apply in_app_or in H. destruct H as [H|H].
  - apply in_map_iff in H. destruct H as (? & H & _). discriminate.
  - destruct (2 <? List.length xs) eqn:E; [|destruct H].
    destruct H as [H|[]]. inversion H; subst.
    apply Nat.ltb_lt in E. lia.
Qed.

Lemma layout_details_counts d label n :
  ~ In (Counted label n) (layout_details d).
Proof.
  unfold layout_details. intros H. apply in_flat_map in H.
  destruct H as (? & _ & H). apply in_map_iff in H.
  destruct H as (? & H & _). discriminate.
Qed.

(** X24.  However long the log is, [count_and_display_warnings] prints
    at most 38 messages about it: at most five types of warnings and three
    types of layout notices, each with its size and at most two of its
    records.  And it never prints a count of zero: every number that it
    shows, of records found, of records of a type, or of records left
    out of the details, is positive. *)
Theorem display_is_short_and_counts_are_positive (log_file : file_state) :
  List.length (displayed log_file) <= 38 /\
  forall label n, In (Counted label n) (displayed log_file) -> 0 < n.
Proof.
  unfold displayed. destruct log_file as [| |log_content];
    try (split; [simpl; lia | intros label n [H|[]]; discriminate]).
  rewrite parse_warnings_spec. split; [apply display_length|].
  intros label n H. unfold display in H. apply in_app_or in H.
  destruct H as [H|H].
  - match type of H with In _ (match ?w with _ => _ end) => destruct w eqn:E end.
    + destruct H as [H|[]]. discriminate.
    + destruct H as [H|H]; [inversion H; simpl; lia|].
      apply in_app_or in H. destruct H as [H|H].
      * apply (type_sizes_positive warning_type) in H. tauto.
      * destruct (0 <? _); [|destruct H].
        destruct H as [H|H]; [discriminate|].
        apply warning_details_positive in H. exact H.
  - match type of H with In _ (match ?w with _ => _ end) => destruct w eqn:E end.
    + destruct H as [H|[]]. discriminate.
    + destruct H as [H|H]; [inversion H; simpl; lia|].
      apply in_app_or in H. destruct H as [H|H].
      * apply (type_sizes_positive aux_type) in H. tauto.
      * destruct (_ <=? 5); [|destruct H].
        destruct H as [H|H]; [discriminate|].
        apply layout_details_counts in H. destruct H.
Qed.

(** ** The colours of [tprint] *)

Lemma replace_char_app old new s t :
  replace_char old new (s ++ t)
  = replace_char old new s ++ replace_char old new t.
Proof. apply flat_map_app. Qed.

Lemma colored_app s t : colored (s ++ t) = colored s ++ colored t.
Proof. unfold colored. cbv zeta. rewrite !replace_char_app. reflexivity. Qed.

Lemma colored_one c : colored [c] = paint c.
Proof.
  unfold paint, colour_of.
  destruct (c =? check_mark)%N eqn:E1;
    [apply N.eqb_eq in E1; subst; reflexivity|].
  destruct (c =? x_mark)%N eqn:E2;
    [apply N.eqb_eq in E2; subst; reflexivity|].
  destruct (c =? warning_symbol)%N eqn:E3;
    [apply N.eqb_eq in E3; subst; reflexivity|].
  destruct (c =? skip_symbol)%N eqn:E4;
    [apply N.eqb_eq in E4; subst; reflexivity|].
  unfold colored, replace_char. cbv zeta.
  cbn [flat_map app]. rewrite E1. cbn [flat_map app]. rewrite E2.
  cbn [flat_map app]. rewrite E3. cbn [flat_map app]. rewrite E4.
  reflexivity.
Qed.

Lemma colored_cons c s : colored (c :: s) = paint c ++ colored s.
Proof. rewrite <- colored_one. apply (colored_app [c] s). Qed.

Lemma length_paint c :
  List.length (paint c)
  = match colour_of c with Some _ => 10 | None => 1 end.
Proof.
  unfold paint, colour_of.
  repeat match goal with
         | |- context [if ?b then _ else _] => destruct b
         end; reflexivity.
Qed.

Lemma colored_flat_map s : colored s = flat_map paint s.
Proof.
  induction s as [|c s IH]; [reflexivity|].
  rewrite colored_cons, IH. reflexivity.
Qed.

Lemma length_colored s :
  List.length (colored s) = List.length s + 9 * List.length (marks s).
Proof.
  induction s as [|c s IH]; [reflexivity|].
  rewrite colored_cons, length_app, length_paint, IH.
  unfold marks. cbn [filter List.length].
  destruct (colour_of c); cbn [List.length]; lia.
Qed.

(** X25.  The four replacements of [tprint] do not get in each other's
    way: the text that it prints is the message with each check mark,
    X mark, warning symbol and skip symbol wrapped in its own colour and
    the reset sequence, once, and every other character as it was.  So
    colouring goes piece by piece, a message is printed as it is exactly
    if it has no mark, and each mark makes the text nine characters
    longer. *)
Theorem tprint_colours_each_mark_once (arg_str : str) :
  colored arg_str = flat_map paint arg_str /\
  (forall rest, colored (arg_str ++ rest) = colored arg_str ++ colored rest) /\
  (marks arg_str = [] <-> colored arg_str = arg_str) /\
  List.length (colored arg_str)
  = List.length arg_str + 9 * List.length (marks arg_str).
Proof.
  split; [apply colored_flat_map|].
  split; [intros rest; apply colored_app|].
  split; [|apply length_colored]. split.
  - intros H. induction arg_str as [|c s IH]; [reflexivity|].
    rewrite colored_cons. unfold marks in H. cbn [filter] in H.
    unfold paint. destruct (colour_of c); [discriminate|].
    cbn [app]. f_equal. apply IH, H.
  - intros H. pose proof (length_colored arg_str) as Hlen.
    rewrite H in Hlen.
    destruct (marks arg_str); [reflexivity | simpl in Hlen; lia].
Qed.

End Unicode.

(** * Concrete runs *)

(** C3, at a tree whose files all fail and at a tree of which one file
    fails and the other is plain text. *)
Lemma unreadable_files_are_skipped_witness :
  nothing_read (Files [Unreadable_source; Unreadable_source]) /\
  (count_figures_and_tables uncased uncased unclassified unclassified
     (Files [Unreadable_source; Unreadable_source]) = summary_zero /\
   count_equations_detailed uncased uncased unclassified unclassified
     (Files [Unreadable_source; Unreadable_source]) = 0) /\
  Forall (adds_nothing uncased uncased unclassified unclassified)
         (files_of (Files [Unreadable_source; Readable (u "Hello, world.")])).
Proof.
  assert (nothing_read (Files [Unreadable_source; Unreadable_source])) as H
    by (simpl; repeat constructor).
  pose proof (unreadable_files_are_skipped uncased uncased unclassified
                unclassified) as (_ & Hzeros & Hfailed).
  split; [exact H|]. split; [exact (Hfailed _ H)|].
  apply (proj1 (Hzeros _)). vm_compute. split; reflexivity.
Defined.

(** C3: of two files one fails and the other is read and holds none of
    the counted constructs; every count is zero, although files were
    found and not every file failed. *)
Lemma a_failed_and_a_plain_file_count_zero :
  let tree := Files [Unreadable_source; Readable (u "Hello, world.")] in
  (forall tolower toupper isalnum isdecimal,
     count_figures_and_tables tolower toupper isalnum isdecimal tree
     = summary_zero /\
     count_equations_detailed tolower toupper isalnum isdecimal tree = 0) /\
  files_of tree <> [] /\
  In Unreadable_source (files_of tree) /\
  ~ nothing_read tree.
Proof.
  intros tree. split; [intros; vm_compute; split; reflexivity|].
  split; [discriminate|]. split; [left; reflexivity|].
  simpl. intros H. inversion H as [|? ? _ Hrest]; subst.
  inversion Hrest as [|? ? Hf _]. discriminate Hf.
Qed.

(** C4, at a text with one marker of each spelling of the equation
    family: the two matches start at different places. *)
Lemma begin_marker_before_a_star_is_not_counted_witness :
  let content := u "\begin{equation}x\begin{equation*}y" in
  let p := the (re_compile (equation_pattern (u "equation"))) in
  let p_star := the (re_compile (equation_pattern (u "equation*"))) in
  let m1 := {| m_start := 0; m_end := 16; m_caps := [] |} in
  let m2 := {| m_start := 17; m_end := 34; m_caps := [] |} in
  In m1 (finditer uncased uncased unclassified unclassified p
                  no_flags content) /\
  In m2 (finditer uncased uncased unclassified unclassified p_star
                  no_flags content) /\
  m_start m1 <> m_start m2.
Proof.
  intros content p p_star m1 m2.
  assert (In m1 (finditer uncased uncased unclassified unclassified p
                          no_flags content)) as H1
    by (vm_compute; left; reflexivity).
  assert (In m2 (finditer uncased uncased unclassified unclassified p_star
                          no_flags content)) as H2
    by (vm_compute; left; reflexivity).
  split; [exact H1|]. split; [exact H2|].
  exact (proj1 (begin_marker_before_a_star_is_not_counted uncased uncased
                  unclassified unclassified)
               (u "equation") p p_star content m1 m2
               (or_introl eq_refl) eq_refl eq_refl H1 H2).
Defined.

(** C6, at a line that is a LaTeX warning and an overfull-box notice and
    that the exclusion pass keeps. *)
Lemma auxiliary_line_is_never_a_warning_witness :
  let log_content := u "LaTeX Warning: Overfull \hbox (badness 10000)" in
  nth_error (split_lines log_content) 0 = Some log_content /\
  matches_any uncased uncased unclassified unclassified
    auxiliary_patterns (strip log_content) = true /\
  should_exclude uncased uncased unclassified unclassified
    (strip log_content) = false /\
  exists warnings auxiliary_info,
    parse_warnings uncased uncased unclassified unclassified log_content
    = Some (warnings, auxiliary_info) /\
    (forall d, In d warnings -> line d <> 1) /\
    exists d, In d auxiliary_info /\ line d = 1 /\
              full_line d = strip log_content.
Proof.
  intros log_content.
  assert (should_exclude uncased uncased unclassified unclassified
            (strip log_content) = false) as Hkept
    by (vm_compute; reflexivity).
  split; [reflexivity|]. split; [vm_compute; reflexivity|].
  split; [exact Hkept|].
  destruct (auxiliary_line_is_never_a_warning uncased uncased unclassified
              unclassified log_content 0 log_content eq_refl
              ltac:(vm_compute; reflexivity))
    as (warnings & auxiliary_info & Hparse & Hnone & Hsome).
  exists warnings, auxiliary_info.
  split; [exact Hparse|]. split; [exact Hnone|]. exact (Hsome Hkept).
Defined.

(** C6: a box pattern matches the line as it stands in the log, with the
    blank at its end, and [parse_warnings] records the line as a Warning
    and not as a notice.  The passes see the line stripped, and the box
    pattern wants a character after [\hbox]. *)
Lemma box_match_is_lost_by_stripping :
  let log_content := u "LaTeX Warning: Overfull \hbox " in
  nth_error (split_lines log_content) 0 = Some log_content /\
  exists d,
    line d = 1 /\ text d = u "Overfull \hbox" /\
    forall tolower toupper isalnum isdecimal,
      matches_any tolower toupper isalnum isdecimal
        auxiliary_patterns log_content = true /\
      parse_warnings tolower toupper isalnum isdecimal log_content
      = Some ([d], []).
Proof.
  intros log_content. split; [reflexivity|].
  exists {| line := 1; text := u "Overfull \hbox";
            full_line := u "LaTeX Warning: Overfull \hbox" |}.
  split; [reflexivity|]. split; [reflexivity|].
  intros. split; vm_compute; reflexivity.
Qed.

(** C7, at a font-info line that carries a warning text. *)
Lemma excluded_line_yields_no_record_witness :
  let log_content := u "LaTeX Font Info: LaTeX Warning: Overfull \hbox x" in
  nth_error (split_lines log_content) 0 = Some log_content /\
  matches_any uncased uncased unclassified unclassified
    exclude_patterns (strip log_content) = true /\
  exists warnings auxiliary_info,
    parse_warnings uncased uncased unclassified unclassified log_content
    = Some (warnings, auxiliary_info) /\
    forall d, In d (warnings ++ auxiliary_info) -> line d <> 1.
Proof.
  intros log_content.
  split; [reflexivity|]. split; [vm_compute; reflexivity|].
  apply (excluded_line_yields_no_record uncased uncased unclassified
           unclassified log_content 0 log_content);
    [reflexivity | vm_compute; reflexivity].
Defined.

(** C10, at a warning line in mixed case and in lower case. *)
Lemma parse_warnings_ignores_case_witness :
  let log_content := u "LaTeX Warning: Citation `knuth' on page 2 undefined" in
  let log_content' := u "latex warning: citation `KNUTH' on page 2 undefined" in
  fold_case log_content = fold_case log_content' /\
  exists warnings auxiliary_info warnings' auxiliary_info',
    parse_warnings uncased uncased unclassified unclassified log_content
    = Some (warnings, auxiliary_info) /\
    parse_warnings uncased uncased unclassified unclassified log_content'
    = Some (warnings', auxiliary_info') /\
    Forall2 same_record warnings warnings' /\
    Forall2 same_record auxiliary_info auxiliary_info'.
Proof.
  intros log_content log_content'.
  split; [reflexivity|].
  apply (proj1 (parse_warnings_ignores_case uncased uncased unclassified
                  unclassified) log_content log_content').
  reflexivity.
Defined.

(** C8, in the world where latexmk exits with code zero and the log is
    missing. *)
Lemma missing_log_gives_zero_counts_witness :
  sigint_after quick_world = None /\
  let s := snd (main uncased uncased unclassified unclassified
                     (with_log quick_world Absent) false initial_state) in
  In (Report "Warnings" [0]) (trace s) /\
  In (Report "Layout notifications" [0]) (trace s).
Proof.
  split; [reflexivity|].
  exact (proj1 (proj2 (missing_log_gives_zero_counts uncased uncased
                         unclassified unclassified))
               quick_world false eq_refl).
Defined.

(** C1, in the world where latexmk never finishes. *)
Lemma timeout_leaves_the_process_running_witness :
  exceeds_timeout (latexmk_run hanging_world) /\
  exists s,
    compile_main_tex hanging_world initial_state = (Returns false, s) /\
    trace s = trace initial_state ++
              [Print "Starting compilation of main.tex...";
               Print "Press Ctrl+C to cancel compilation at any time";
               SpinnerStart; Launch; SpinnerStop;
               Print "Timeout compiling main.tex"] /\
    spinner s = Some false /\
    current_process s = None /\
    child s = Some Running /\
    forall pdfa,
      exit_status (main uncased uncased unclassified unclassified
                        hanging_world pdfa) = 1.
Proof.
  split; [exact I|].
  apply (timeout_leaves_the_process_running uncased uncased unclassified
           unclassified hanging_world initial_state);
    solve [reflexivity | exact I].
Defined.



(** X1, in the world where Ctrl+C comes after ten seconds and latexmk
    ignores [terminate()]. *)
Lemma interrupt_stops_the_child_witness :
  interrupted stubborn_world = true /\
  exists s,
    compile_main_tex stubborn_world initial_state
    = (Raises (SystemExit 130), s) /\
    trace s = trace initial_state ++
              [Print "Starting compilation of main.tex...";
               Print "Press Ctrl+C to cancel compilation at any time";
               SpinnerStart; Launch;
               Print "Received interrupt signal (Ctrl+C)"; SpinnerStop;
               Print "Terminating compilation process..."; Terminate]
              ++ stopping stubborn_world
              ++ [Print "Compilation cancelled by user"; SpinnerStop] /\
    child s = Some (if exits_on_terminate stubborn_world
                    then Terminated else Killed) /\
    current_process s = None /\
    spinner s = Some false /\
    forall pdfa,
      exit_status (main uncased uncased unclassified unclassified
                        stubborn_world pdfa) = 130 /\
      snd (main uncased uncased unclassified unclassified
                stubborn_world pdfa initial_state)
      = snd (compile_main_tex stubborn_world state_at_compile).
Proof.
  split; [reflexivity|].
  apply (interrupt_stops_the_child uncased uncased unclassified unclassified
           stubborn_world initial_state); reflexivity.
Defined.


(** X3, in the world where latexmk exits with code zero after a minute. *)
Lemma success_only_after_exit_code_zero_witness :
  fst (compile_main_tex quick_world initial_state) = Returns true /\
  ready quick_world = true /\ interrupted quick_world = false /\
  exists seconds stdout stderr,
    latexmk_run quick_world = Finishes seconds 0 stdout stderr /\
    (seconds <= timeout)%N.
Proof.
  split; [reflexivity|].
  exact (success_only_after_exit_code_zero quick_world initial_state eq_refl).
Defined.

(** X15, for two logs of two lines that differ in the white space around
    the lines. *)
Lemma surrounding_white_space_is_ignored_witness :
  let log_content :=
    u "  LaTeX Warning: Reference missing" ++ [10%N]
    ++ u "Overfull \hbox (3.0pt too wide) in paragraph  " in
  let log_content' :=
    u "LaTeX Warning: Reference missing   " ++ [10%N]
    ++ [9%N] ++ u "Overfull \hbox (3.0pt too wide) in paragraph" in
  Forall2 same_stripped (split_lines log_content) (split_lines log_content') /\
  parse_warnings uncased uncased unclassified unclassified log_content
  = parse_warnings uncased uncased unclassified unclassified log_content'.
Proof.
  cbv zeta.
  assert (Forall2 same_stripped
            (split_lines
               (u "  LaTeX Warning: Reference missing" ++ [10%N]
                ++ u "Overfull \hbox (3.0pt too wide) in paragraph  "))
            (split_lines
               (u "LaTeX Warning: Reference missing   " ++ [10%N]
                ++ [9%N] ++ u "Overfull \hbox (3.0pt too wide) in paragraph")))
    as H by (vm_compute; repeat constructor).
  split; [exact H|].
  exact (surrounding_white_space_is_ignored
           uncased uncased unclassified unclassified _ _ H).
Defined.

(** X16, for a log of spaces, a line feed and a tab. *)
Lemma blank_log_gives_no_record_witness :
  let log_content := u "  " ++ [10%N] ++ [9%N] ++ u " " in
  forallb isspace log_content = true /\
  parse_warnings uncased uncased unclassified unclassified log_content
  = Some ([], []).
Proof.
  cbv zeta. split; [reflexivity|].
  exact (blank_log_gives_no_record
           uncased uncased unclassified unclassified
           (u "  " ++ [10%N] ++ [9%N] ++ u " ") eq_refl).
Defined.

